(** * rp-plot: land distance and area calculator

    A shallow embedding of the calculator's core in Rocq:

    - [JS]: the built-ins the sources call ([parseFloat], [toFixed],
      [Math.hypot], [trim], [split]) and untyped values;
    - [Calculations]: js/utils/calculations.js ([parseXY], [dist],
      [sqftToDecimal], [calculateMeasurements]);
    - [Measurement]: the Measurement model ([addPoint], [updatePoint]);
    - [UndoRedo]: the UndoRedoManager history stack;
    - [Validation], [Project], [StateManager]: the store and what it needs
      of the project model and of name validation;
    - [PersistenceManager]: the import of a backup file.

    JavaScript numbers are IEEE-754 binary64 values and are embedded as
    Rocq's primitive floats; strings are byte strings (the ASCII range of
    JavaScript's UTF-16 strings). *)

From Stdlib Require Import ZArith Floats Ascii String List Lia Bool.
From Stdlib Require Import DecimalString Sorted.
From stdpp Require Import base option list gmap strings.

Set Warnings "-inexact-float,-register-all".
Local Open Scope Z_scope.

(** ** JavaScript built-ins used by the sources *)

Module JS.

(** *** Numbers *)

Abbreviation number := float (only parsing).

(** The global [isNaN] and [isFinite] on a value that already is a number. *)
Definition isNaN (x : number) : bool := PrimFloat.is_nan x.

Definition isFinite (x : number) : bool := PrimFloat.is_finite x.

(** [Math.hypot(a, b)]: an infinite argument gives [Infinity], otherwise a
    NaN argument gives NaN, otherwise the square root of the sum of squares.
    The language leaves the accuracy of the last case to the engine; the
    model takes the formula itself, without rescaling the operands. *)
Definition hypot (a b : number) : number :=
  if PrimFloat.is_infinity a || PrimFloat.is_infinity b then infinity
  else PrimFloat.sqrt (a * a + b * b)%float.

(** *** Exact decimal to binary64 conversion

    [float_of_ratio n d] is the binary64 value nearest to the rational
    [n / d] (ties to even), for [0 <= n] and [0 < d]: the rounding that
    turns a decimal literal into a number. *)

Definition round_half_even (n d : Z) : Z :=
  let q := n / d in
  match (2 * (n mod d) ?= d) with
  | Lt => q
  | Gt => q + 1
  | Eq => if Z.even q then q else q + 1
  end.

(** Binary exponent [e] of the unit in the last place of [n / d]:
    [2^52 <= n / (d * 2^e) < 2^53], but never below the subnormal
    exponent -1074. *)
Definition ulp_exponent (n d : Z) : Z :=
  let l := Z.log2 n - Z.log2 d in
  let above := if 0 <=? l then d * 2 ^ l <=? n else d <=? n * 2 ^ (- l) in
  Z.max (if above then l - 52 else l - 53) (-1074).

Definition float_of_ratio (n d : Z) : number :=
  if n <=? 0 then 0%float
  else
    let e := ulp_exponent n d in
    let q := if 0 <=? e then round_half_even n (d * 2 ^ e)
             else round_half_even (n * 2 ^ (- e)) d in
    Z.ldexp (PrimFloat.of_uint63 (Uint63.of_Z q)) e.

(** The exact value [m * 2^e] of a finite number, as sign, numerator and
    denominator. *)
Definition exact_ratio (x : number) : option (bool * Z * Z) :=
  match Prim2SF x with
  | S754_zero s => Some (s, 0, 1)
  | S754_finite s m e =>
      Some (s, if 0 <=? e then Z.pos m * 2 ^ e else Z.pos m,
               if 0 <=? e then 1 else 2 ^ (- e))
  | _ => None
  end.

(** *** Strings *)

(** White space and line terminators, within ASCII: tab, line feed, vertical
    tab, form feed, carriage return and space. *)
Definition is_white (c : ascii) : bool :=
  let n := nat_of_ascii c in
  ((9 <=? n) && (n <=? 13))%nat || (n =? 32)%nat.

Fixpoint trimStart (s : string) : string :=
  match s with
  | String c s' => if is_white c then trimStart s' else s
  | EmptyString => EmptyString
  end.

Definition trimEnd (s : string) : string :=
  String.rev (trimStart (String.rev s)).

(** [String.prototype.trim] *)
Definition trim (s : string) : string := trimEnd (trimStart s).

(** [s.split(sep)] for a one-character separator. *)
Fixpoint split_go (sep : ascii) (cur : string) (s : string) : list string :=
  match s with
  | EmptyString => [String.rev cur]
  | String c s' =>
      if Ascii.eqb c sep then String.rev cur :: split_go sep EmptyString s'
      else split_go sep (String c cur) s'
  end.

Definition split (sep : ascii) (s : string) : list string :=
  split_go sep EmptyString s.

Definition digit_of (c : ascii) : option Z :=
  let n := nat_of_ascii c in
  if ((48 <=? n) && (n <=? 57))%nat then Some (Z.of_nat n - 48) else None.

(** Reads the longest run of decimal digits: its value on top of [acc],
    how many digits were read, and the rest of the text. *)
Fixpoint digits (acc : Z) (count : nat) (s : string) : Z * nat * string :=
  match s with
  | String c s' =>
      match digit_of c with
      | Some d => digits (10 * acc + d) (S count) s'
      | None => (acc, count, s)
      end
  | EmptyString => (acc, count, s)
  end.

Definition string_of_Z (n : Z) : string :=
  NilZero.string_of_uint (N.to_uint (Z.to_N n)).

(** *** [parseFloat]

    The longest prefix of the text, after leading white space, that is a
    decimal literal: an optional sign, then [Infinity], or digits with an
    optional fraction and an optional exponent. *)

Inductive literal :=
  | LitInfinity (neg : bool)
  | LitDecimal (neg : bool) (mantissa : Z) (exp10 : Z).

Definition read_sign (s : string) : bool * string :=
  match s with
  | String c s' =>
      if Ascii.eqb c "-" then (true, s')
      else if Ascii.eqb c "+" then (false, s')
      else (false, s)
  | EmptyString => (false, s)
  end.

(** An exponent part counts only when at least one digit follows. *)
Definition read_exponent (s : string) : Z :=
  match s with
  | String c s' =>
      if Ascii.eqb c "e" || Ascii.eqb c "E" then
        let '(neg, s'') := read_sign s' in
        let '(v, n, _) := digits 0 0 s'' in
        if (n =? 0)%nat then 0 else if neg then - v else v
      else 0
  | EmptyString => 0
  end.

Definition read_literal (s : string) : option literal :=
  let '(neg, s1) := read_sign s in
  if String.prefix "Infinity" s1 then Some (LitInfinity neg)
  else
    let '(vi, ni, s2) := digits 0 0 s1 in
    match s2 with
    | String c s3 =>
        if Ascii.eqb c "." then
          let '(v, nf, s4) := digits vi 0 s3 in
          if (ni =? 0)%nat && (nf =? 0)%nat then None
          else Some (LitDecimal neg v (read_exponent s4 - Z.of_nat nf))
        else if (ni =? 0)%nat then None
        else Some (LitDecimal neg vi (read_exponent s2))
    | EmptyString =>
        if (ni =? 0)%nat then None
        else Some (LitDecimal neg vi (read_exponent s2))
    end.

Definition literal_value (l : literal) : number :=
  match l with
  | LitInfinity neg => if neg then neg_infinity else infinity
  | LitDecimal neg m e =>
      let f := if 0 <=? e then float_of_ratio (m * 10 ^ e) 1
               else float_of_ratio m (10 ^ (- e)) in
      if neg then (- f)%float else f
  end.

Definition parseFloat (s : string) : number :=
  match read_literal (trimStart s) with
  | Some l => literal_value l
  | None => nan
  end.

(** *** [Number.prototype.toString] above 1e21

    The shortest digit string that reads back as the same number, printed
    in exponent form; only reached from [toFixed] for huge magnitudes. *)

Definition decimal_length (v : Z) : Z := Z.of_nat (String.length (string_of_Z v)).

(** A [k]-digit significand [s] for [v] with decimal exponent [p], if one
    reads back as [x]; the nearer of the two neighbours, ties to even.
    A neighbour that carries to [10^k] is the single digit 1 one exponent
    up. *)
Definition shortest_at (x : number) (v p k : Z) : option (Z * Z) :=
  let scale := 10 ^ (p + 1 - k) in
  let lo := v / scale in
  let hi := lo + 1 in
  let back n := PrimFloat.eqb (float_of_ratio (n * scale) 1) x in
  let norm n := if n =? 10 ^ k then (1, p + 1) else (n, p) in
  match back lo && (10 ^ (k - 1) <=? lo), back hi with
  | true, false => Some (lo, p)
  | false, true => Some (norm hi)
  | true, true =>
      match (v - lo * scale ?= hi * scale - v) with
      | Lt => Some (lo, p)
      | Gt => Some (norm hi)
      | Eq => if Z.even lo then Some (lo, p) else Some (norm hi)
      end
  | false, false => None
  end.

(** Tries 1, 2, ... digits; seventeen always suffice for a binary64
    number, so the fuel never runs out. *)
Fixpoint shortest_from (x : number) (v p k : Z) (fuel : nat) : Z * Z :=
  match fuel with
  | O => (v, p)
  | S fuel' =>
      match shortest_at x v p k with
      | Some r => r
      | None => shortest_from x v p (k + 1) fuel'
      end
  end.

Definition exponent_form (s e : Z) : string :=
  match string_of_Z s with
  | String d EmptyString => String d ("e+" +:+ string_of_Z e)
  | String d rest => String d ("." +:+ rest +:+ "e+" +:+ string_of_Z e)
  | EmptyString => EmptyString
  end.

Definition toString_large (x : number) : string :=
  match exact_ratio (PrimFloat.abs x) with
  | Some (_, v, _) =>
      let '(s, e) := shortest_from (PrimFloat.abs x) v (decimal_length v - 1) 1 17 in
      (if (x <? 0)%float then "-" else "") +:+ exponent_form s e
  | None => if (x <? 0)%float then "-Infinity" else "Infinity"
  end.

(** *** [Number.prototype.toFixed]

    [x.toFixed(f)]: "NaN" for NaN, [toString] from 1e21 on, otherwise the
    integer [n] nearest to [x * 10^f] (ties upwards in magnitude) printed
    with [f] fraction digits. *)

Definition zeros (n : nat) : string := string_of_list_ascii (repeat "0"%char n).

Definition toFixed (x : number) (f : nat) : string :=
  if isNaN x then "NaN"
  else if (1e21 <=? PrimFloat.abs x)%float then toString_large x
  else
    match exact_ratio (PrimFloat.abs x) with
    | Some (_, n, d) =>
        let r := (2 * (n * 10 ^ Z.of_nat f) + d) / (2 * d) in
        let m := string_of_Z r in
        let m := zeros (S f - String.length m) +:+ m in
        let k := String.length m in
        (if (x <? 0)%float then "-" else "")
        +:+ substring 0 (k - f) m
        +:+ (if (f =? 0)%nat then "" else "." +:+ substring (k - f) f m)
    | None => "NaN"
    end.

(** *** Untyped values

    Arguments and parsed documents whose shape the sources test at run
    time. Arrays and objects are given by their contents; an object lists
    its own properties in order, each key once. *)

Inductive value :=
  | Undefined
  | Null
  | Bool (b : bool)
  | Num (n : number)
  | Str (s : string)
  | Arr (items : list value)
  | Obj (props : list (string * value)).

(** [!!v] *)
Definition truthy (v : value) : bool :=
  match v with
  | Undefined | Null => false
  | Bool b => b
  | Num n => negb (PrimFloat.is_zero n || PrimFloat.is_nan n)
  | Str s => negb (String.eqb s "")
  | Arr _ | Obj _ => true
  end.

Fixpoint assoc (k : string) (props : list (string * value)) : value :=
  match props with
  | [] => Undefined
  | (k', v) :: rest => if String.eqb k' k then v else assoc k rest
  end.

(** [v.k] for the data keys the sources read (none of them is [length]
    or an index): [None] is the TypeError raised on [undefined] and
    [null]; primitives and arrays have no such property. *)
Definition get (v : value) (k : string) : option value :=
  match v with
  | Undefined | Null => None
  | Obj props => Some (assoc k props)
  | _ => Some Undefined
  end.

(** [a === b]. Arrays and objects compare by identity, which contents do
    not record: two of them are never taken as identical. *)
Definition strict_eq (a b : value) : bool :=
  match a, b with
  | Undefined, Undefined => true
  | Null, Null => true
  | Bool p, Bool q => Bool.eqb p q
  | Num p, Num q => PrimFloat.eqb p q
  | Str p, Str q => String.eqb p q
  | _, _ => false
  end.

(** [a || b] *)
Definition or_else (a b : value) : value := if truthy a then a else b.

(** The own enumerable properties that an object spread [{...v}] copies:
    those of an object, the indexed elements of an array, the indexed
    characters of a string, nothing otherwise. *)
Definition indexed {A} (f : A -> value) (l : list A) : list (string * value) :=
  imap (fun i a => (string_of_Z (Z.of_nat i), f a)) l.

Definition own_entries (v : value) : list (string * value) :=
  match v with
  | Obj props => props
  | Arr items => indexed (fun a => a) items
  | Str s => indexed (fun c => Str (String c EmptyString)) (list_ascii_of_string s)
  | _ => []
  end.

(** An object as a finite map; [assign o v] is [{...o, ...v}]. *)
Abbreviation object := (gmap string value).

Definition assign (o : object) (v : value) : object :=
  foldl (fun acc kv => <[kv.1 := kv.2]> acc) o (own_entries v).

(** Exceptions and promise outcomes. *)
Inductive error :=
  | TypeError
  | SyntaxError
  | Error (message : string).

Inductive completion (A : Type) :=
  | Normal (a : A)
  | Throw (e : error).
Arguments Normal {A} a.
Arguments Throw {A} e.

Definition bind {A B} (c : completion A) (k : A -> completion B) : completion B :=
  match c with
  | Normal a => k a
  | Throw e => Throw e
  end.

Fixpoint mapM {A B} (f : A -> completion B) (l : list A) : completion (list B) :=
  match l with
  | [] => Normal []
  | a :: l' =>
      bind (f a) (fun b => bind (mapM f l') (fun bs => Normal (b :: bs)))
  end.

(** *** [Number::toString]

    The text of a number inside a template literal or a joined array: the
    shortest digits that read back as the number, laid out as plain
    digits, with a decimal point, or in exponent form. *)

(** The decimal exponent [p] of a positive rational:
    [10^p <= n / d < 10^(p + 1)]. *)
Definition decimal_exponent (n d : Z) : Z :=
  if d <=? n then decimal_length (n / d) - 1
  else
    let l := decimal_length (d / n) in
    if n * 10 ^ (l - 1) =? d then - (l - 1) else - l.

(** [shortest_at] for any positive rational [n / d]. *)
Definition shortest_digits_at (x : number) (n d p k : Z) : option (Z * Z) :=
  let e := p + 1 - k in
  let sn := if 0 <=? e then 10 ^ e else 1 in
  let sd := if 0 <=? e then 1 else 10 ^ (- e) in
  let lo := (n * sd) / (d * sn) in
  let hi := lo + 1 in
  let back c := PrimFloat.eqb (float_of_ratio (c * sn) sd) x in
  let norm c := if c =? 10 ^ k then (1, p + 1) else (c, p) in
  match back lo && (10 ^ (k - 1) <=? lo), back hi with
  | true, false => Some (lo, p)
  | false, true => Some (norm hi)
  | true, true =>
      match (n * sd - lo * (d * sn) ?= hi * (d * sn) - n * sd) with
      | Lt => Some (lo, p)
      | Gt => Some (norm hi)
      | Eq => if Z.even lo then Some (lo, p) else Some (norm hi)
      end
  | false, false => None
  end.

Fixpoint shortest_digits (x : number) (n d p k : Z) (fuel : nat) : Z * Z :=
  match fuel with
  | O => (0, p)
  | S fuel' =>
      match shortest_digits_at x n d p k with
      | Some r => r
      | None => shortest_digits x n d p (k + 1) fuel'
      end
  end.

(** The layout of the digits [s] whose first digit has weight [10^e]. *)
Definition layout (s e : Z) : string :=
  let ds := string_of_Z s in
  let k := Z.of_nat (String.length ds) in
  let n := e + 1 in
  if (k <=? n) && (n <=? 21) then ds +:+ zeros (Z.to_nat (n - k))
  else if (0 <? n) && (n <=? 21) then
    substring 0 (Z.to_nat n) ds +:+ "." +:+
    substring (Z.to_nat n) (Z.to_nat (k - n)) ds
  else if (-6 <? n) && (n <=? 0) then "0." +:+ zeros (Z.to_nat (- n)) +:+ ds
  else
    let mantissa :=
      match ds with
      | String c EmptyString => ds
      | String c rest => String c ("." +:+ rest)
      | EmptyString => ds
      end in
    mantissa +:+ "e" +:+ (if 0 <=? e then "+" else "-") +:+ string_of_Z (Z.abs e).

Definition number_to_string (x : number) : string :=
  if isNaN x then "NaN"
  else
    match exact_ratio (PrimFloat.abs x) with
    | None => if (x <? 0)%float then "-Infinity" else "Infinity"
    | Some (_, n, d) =>
        if n =? 0 then "0"
        else
          let '(s, e) :=
            shortest_digits (PrimFloat.abs x) n d (decimal_exponent n d) 1 17 in
          (if (x <? 0)%float then "-" else "") +:+ layout s e
    end.

(** *** More of strings *)

(** [s.includes(c)] for a one-character needle. *)
Fixpoint includes (c : ascii) (s : string) : bool :=
  match s with
  | EmptyString => false
  | String c' s' => Ascii.eqb c' c || includes c s'
  end.

(** [s.replace(/c/g, by)] for a one-character pattern. *)
Fixpoint replace_all (c : ascii) (by_ : string) (s : string) : string :=
  match s with
  | EmptyString => EmptyString
  | String c' s' =>
      if Ascii.eqb c' c then by_ +:+ replace_all c by_ s'
      else String c' (replace_all c by_ s')
  end.

(** [a.join(sep)] *)
Fixpoint join (sep : string) (parts : list string) : string :=
  match parts with
  | [] => EmptyString
  | [a] => a
  | a :: rest => a +:+ sep +:+ join sep rest
  end.

(** [v.toString(16)] for an integer. *)
Definition hex_char (d : Z) : ascii :=
  if d <? 10 then ascii_of_nat (Z.to_nat (48 + d))
  else ascii_of_nat (Z.to_nat (87 + d)).

Fixpoint hex_digits (fuel : nat) (v : Z) (acc : string) : string :=
  match fuel with
  | O => acc
  | S fuel' =>
      let acc' := String (hex_char (v mod 16)) acc in
      if v / 16 =? 0 then acc' else hex_digits fuel' (v / 16) acc'
  end.

Definition toString16 (v : Z) : string :=
  if v <? 0 then "-" +:+ hex_digits (S (Z.to_nat (Z.log2 (- v)))) (- v) ""
  else hex_digits (S (Z.to_nat (Z.log2 v))) v "".

End JS.

(** ** js/utils/calculations.js *)

Module Calculations.
Import JS.
Local Open Scope float_scope.

Record Point := { x : number; y : number }.

(** [parseXY(value)]: [None] is the source's [null]. *)
Definition parseXY (value : string) : option Point :=
  if String.eqb value "" then None
  else
    match split "," value with
    | [part0; part1] =>
        let x := parseFloat (trim part0) in
        let y := parseFloat (trim part1) in
        if isNaN x || isNaN y then None
        else Some {| x := x; y := y |}
    | _ => None
    end.

Definition dist (a b : Point) : number :=
  hypot (x b - x a) (y b - y a).

Definition sqftToDecimal (sqft : number) : string :=
  toFixed (sqft / 435.6) 3.

Record Measurements := {
    leftDistance : number;
    rightDistance : number;
    avgWidth : number;
    length : number;
    area : number;
    areaDecimal : number
  }.

(** [calculateMeasurements(leftPoints, rightPoints)]. Each guard
    [points.length >= 2] followed by reads of [points[0]] and [points[1]]
    is a match on the first two elements. *)
Definition calculateMeasurements (leftPoints rightPoints : list Point)
  : Measurements :=
  let leftDistance :=
    match leftPoints with
    | p0 :: p1 :: _ => dist p0 p1
    | _ => 0
    end in
  let rightDistance :=
    match rightPoints with
    | p0 :: p1 :: _ => dist p0 p1
    | _ => 0
    end in
  match leftPoints, rightPoints with
  | l0 :: l1 :: _, r0 :: r1 :: _ =>
      let leftWidth := leftDistance in
      let rightWidth := rightDistance in
      let avgWidth := (leftWidth + rightWidth) / 2 in
      let leftMidpoint :=
        {| x := (x l0 + x l1) / 2; y := (y l0 + y l1) / 2 |} in
      let rightMidpoint :=
        {| x := (x r0 + x r1) / 2; y := (y r0 + y r1) / 2 |} in
      let length := dist leftMidpoint rightMidpoint in
      let area := avgWidth * length * 10.7639 in
      {| leftDistance := leftDistance;
         rightDistance := rightDistance;
         avgWidth := avgWidth;
         length := length;
         area := area;
         areaDecimal := parseFloat (sqftToDecimal area) |}
  | _, _ =>
      {| leftDistance := leftDistance;
         rightDistance := rightDistance;
         avgWidth := 0;
         length := 0;
         area := 0;
         areaDecimal := 0 |}
  end.

(** The result object before any branch has written into it. *)
Definition zero_result : Measurements :=
  {| leftDistance := 0; rightDistance := 0; avgWidth := 0;
     length := 0; area := 0; areaDecimal := 0 |}.

(** [generateUUID()]. The model is given the integer [r i] that the [i]-th
    evaluation of [Math.random() * 16 | 0] yields (0 to 15 for a random
    number in [0, 1)); the callback of [replace(/[xy]/g, ...)] runs once per
    [x] or [y] of the template, from left to right. *)
Fixpoint fill_template (r : nat -> Z) (i : nat) (template : string) : string :=
  match template with
  | EmptyString => EmptyString
  | String c rest =>
      if Ascii.eqb c "x" then
        toString16 (r i) +:+ fill_template r (S i) rest
      else if Ascii.eqb c "y" then
        toString16 (Z.lor (Z.land (r i) 3) 8) +:+ fill_template r (S i) rest
      else String c (fill_template r i rest)
  end.

Definition generateUUID (r : nat -> Z) : string :=
  fill_template r 0 "xxxxxxxx-xxxx-4xxx-yxxx-xxxxxxxxxxxx".

End Calculations.

(** ** js/utils/calculations.js: [debounce] and [throttle]

    The timers of the host are part of the state: [setTimeout] files a
    callback under a new id with the time from which it may run, and
    [clearTimeout] takes it out if it is still there. What happens is a
    sequence of events, each with the reading of the clock: a call of the
    function that [debounce] or [throttle] returned, or the host running a
    timer that is due. Times and delays are whole milliseconds. Of the
    wrapped function the state keeps the record of its executions. *)

Module Timing.

(** The delay that [setTimeout] takes from its argument, as the HTML
    standard has it: the number is read as a signed 32-bit integer,
    wrapping around, and a negative one counts as zero. So a delay of
    [2^31] milliseconds or more does not wait that long. *)
Definition to_int32 (n : Z) : Z :=
  let m := n mod 2 ^ 32 in
  if m <? 2 ^ 31 then m else m - 2 ^ 32.

Definition timeout_of (delay : Z) : Z := Z.max (to_int32 delay) 0.

Arguments timeout_of : simpl never.

(** How a call of a function ends. *)
Inductive ending :=
  | Returns
  | Throws.

Section Timers.
Context {Args : Type}.

Inductive event :=
  | Invoke (now : Z) (args : Args)
  | Expire (now : Z) (id : nat).

(** The pending timers, each with the time it is due and what its
    callback holds on to. *)
Record host (Held : Type) := {
    clock : Z;
    pending : gmap nat (Z * Held);
    fresh : nat
  }.
Arguments clock {Held}.
Arguments pending {Held}.
Arguments fresh {Held}.

Definition setTimeout {Held} (h : host Held) (callback : Held) (delay : Z)
  : host Held * nat :=
  ({| clock := clock h;
      pending := <[fresh h := (clock h + timeout_of delay, callback)]> (pending h);
      fresh := S (fresh h) |},
   fresh h).

Definition clearTimeout {Held} (h : host Held) (id : option nat) : host Held :=
  match id with
  | Some i => {| clock := clock h; pending := delete i (pending h);
                 fresh := fresh h |}
  | None => h
  end.

(** The clock moves to [now], which may not lie in the past. *)
Definition advance {Held} (h : host Held) (now : Z) : option (host Held) :=
  if now <? clock h then None
  else Some {| clock := now; pending := pending h; fresh := fresh h |}.

(** The host takes a timer that is due out of the pending ones to run
    it. *)
Definition expire {Held} (h : host Held) (id : nat) : option (host Held * Held) :=
  match pending h !! id with
  | Some (due, callback) =>
      if due <=? clock h
      then Some ({| clock := clock h; pending := delete id (pending h);
                    fresh := fresh h |}, callback)
      else None
  | None => None
  end.

(** *** [debounce(func, wait)] *)

(** The closure: its variable [timeout], beside the host and the
    executions of [func] so far, each with its time and arguments. *)
Record debounced := {
    timeout : option nat;
    timers : host Args;
    executed : list (Z * Args)
  }.

Definition debounce (start : Z) : debounced :=
  {| timeout := None;
     timers := {| clock := start; pending := ∅; fresh := 0 |};
     executed := [] |}.

(** [executedFunction(...args)] *)
Definition executedFunction (wait : Z) (d : debounced) (args : Args) : debounced :=
  let h := clearTimeout (timers d) (timeout d) in
  let '(h, id) := setTimeout h args wait in
  {| timeout := Some id; timers := h; executed := executed d |}.

(** [later()], the callback that holds [args]. The call of [func] is the
    last thing it does: whatever [func] goes on to do, a call of the
    debounced function included, comes after this step and is an event of
    its own at the same reading of the clock. *)
Definition later (d : debounced) (args : Args) : debounced :=
  let h := clearTimeout (timers d) (timeout d) in
  {| timeout := timeout d; timers := h;
     executed := executed d ++ [(clock h, args)] |}.

Definition debounce_step (wait : Z) (d : debounced) (e : event)
  : option debounced :=
  match e with
  | Invoke now args =>
      h ← advance (timers d) now;
      Some (executedFunction wait
              {| timeout := timeout d; timers := h; executed := executed d |}
              args)
  | Expire now id =>
      h ← advance (timers d) now;
      '(h, args) ← expire h id;
      Some (later {| timeout := timeout d; timers := h; executed := executed d |}
              args)
  end.

Definition debounce_run (wait : Z) (d : debounced) (trace : list event)
  : option debounced :=
  foldl (fun s e => s ≫= fun d => debounce_step wait d e) (Some d) trace.

(** *** [throttle(func, limit)] *)

(** The closure: its variable [inThrottle]; the callback of its timer holds
    nothing. *)
Record throttled := {
    inThrottle : bool;
    throttle_timers : host unit;
    throttle_executed : list (Z * Args)
  }.

Definition throttle (start : Z) : throttled :=
  {| inThrottle := false;
     throttle_timers := {| clock := start; pending := ∅; fresh := 0 |};
     throttle_executed := [] |}.

(** The wrapped function [func]: what a call of it with [args] does to the
    throttle, which it can reach by calling the throttled function while
    it runs, and how it ends. *)
Definition wrapped : Type := Args -> throttled -> throttled * ending.

(** The function that [throttle] returned, called with [args]. When the
    throttle is off it calls [func] first, and only after [func] has
    returned does it set [inThrottle] and the timer that clears it; an
    error raised by [func] passes through and leaves the throttle off. *)
Definition throttled_call (func : wrapped) (limit : Z) (t : throttled)
    (args : Args) : throttled * ending :=
  if negb (inThrottle t) then
    let running :=
      {| inThrottle := inThrottle t; throttle_timers := throttle_timers t;
         throttle_executed :=
           throttle_executed t ++ [(clock (throttle_timers t), args)] |} in
    match func args running with
    | (t', Throws) => (t', Throws)
    | (t', Returns) =>
        ({| inThrottle := true;
            throttle_timers := (setTimeout (throttle_timers t') () limit).1;
            throttle_executed := throttle_executed t' |},
         Returns)
    end
  else (t, Returns).

Definition throttle_step (func : wrapped) (limit : Z) (t : throttled)
    (e : event) : option throttled :=
  match e with
  | Invoke now args =>
      h ← advance (throttle_timers t) now;
      Some (throttled_call func limit
              {| inThrottle := inThrottle t; throttle_timers := h;
                 throttle_executed := throttle_executed t |}
              args).1
  | Expire now id =>
      h ← advance (throttle_timers t) now;
      '(h, _) ← expire h id;
      Some {| inThrottle := false; throttle_timers := h;
              throttle_executed := throttle_executed t |}
  end.

Definition throttle_run (func : wrapped) (limit : Z) (t : throttled)
    (trace : list event) : option throttled :=
  foldl (fun s e => s ≫= fun t => throttle_step func limit t e) (Some t) trace.

End Timers.

Arguments event : clear implicits.
Arguments debounced : clear implicits.
Arguments throttled : clear implicits.
Arguments wrapped : clear implicits.
Arguments clock {Held}.
Arguments pending {Held}.
Arguments fresh {Held}.

End Timing.

(** ** models/Measurement.js

    The points of a measurement are kept as their two coordinates, which is
    all the calculation reads of the stored objects; the clock read for
    [updatedAt] is the argument [now]. *)

Module Measurement.
Import JS.
Export Calculations.

Record t := {
    id : string;
    timestamp : string;
    updatedAt : string;
    name : string;
    leftPoints : list Point;
    rightPoints : list Point;
    calculations : Measurements;
    notes : string
  }.

Definition calculate (m : t) : Measurements :=
  calculateMeasurements (leftPoints m) (rightPoints m).

(** [new Measurement(leftPoints, rightPoints, name)], given the generated
    id and the clock reading. *)
Definition create (uuid now : string) (leftPoints rightPoints : list Point)
    (name : string) : t :=
  {| id := uuid; timestamp := now; updatedAt := now; name := name;
     leftPoints := leftPoints; rightPoints := rightPoints;
     calculations := calculateMeasurements leftPoints rightPoints;
     notes := "" |}.

(** The guard [!point || typeof point.x !== 'number' ||
    typeof point.y !== 'number']: [None] when it fires, otherwise the
    coordinates the calculation will read from the stored object. *)
Definition checked_point (point : value) : option Point :=
  if negb (truthy point) then None
  else
    match get point "x", get point "y" with
    | Some (Num px), Some (Num py) => Some {| x := px; y := py |}
    | _, _ => None
    end.

(** The measurement after [pointsArray] became [points]: recalculated,
    with [updatedAt] set to the clock reading [now]. *)
Definition with_points (m : t) (side : string) (points : list Point)
    (now : string) : t :=
  let left := if String.eqb side "left" then points else leftPoints m in
  let right := if String.eqb side "left" then rightPoints m else points in
  {| id := id m; timestamp := timestamp m; updatedAt := now;
     name := name m; leftPoints := left; rightPoints := right;
     calculations := calculateMeasurements left right; notes := notes m |}.

Definition valid_side (side : string) : bool :=
  String.eqb side "left" || String.eqb side "right".

Definition pointsArray (m : t) (side : string) : list Point :=
  if String.eqb side "left" then leftPoints m else rightPoints m.

(** [addPoint(side, point)]; [now] is the clock read for [updatedAt]. *)
Definition addPoint (m : t) (side : string) (point : value) (now : string)
  : t * bool :=
  if negb (valid_side side) then (m, false)
  else
    match checked_point point with
    | None => (m, false)
    | Some p => (with_points m side (pointsArray m side ++ [p]) now, true)
    end.

(** [updatePoint(side, index, newPoint)] for an integer [index]. *)
Definition updatePoint (m : t) (side : string) (index : Z) (newPoint : value)
    (now : string) : t * bool :=
  if negb (valid_side side) then (m, false)
  else if (index <? 0) || (Z.of_nat (List.length (pointsArray m side)) <=? index)
  then (m, false)
  else
    match checked_point newPoint with
    | None => (m, false)
    | Some p =>
        (with_points m side (<[Z.to_nat index := p]> (pointsArray m side)) now,
         true)
    end.

(** [removePoint(side, index)] for an integer [index]. *)
Definition removePoint (m : t) (side : string) (index : Z) (now : string)
  : t * bool :=
  if negb (valid_side side) then (m, false)
  else if (index <? 0) || (Z.of_nat (List.length (pointsArray m side)) <=? index)
  then (m, false)
  else (with_points m side (delete (Z.to_nat index) (pointsArray m side)) now,
        true).

(** [clearPoints(side)]; [None] is a call without [side]. *)
Definition clearPoints (m : t) (side : option string) (now : string) : t :=
  let missing := match side with None => true | Some s => String.eqb s "" end in
  let is_side (name : string) :=
    match side with None => false | Some s => String.eqb s name end in
  let left := if missing || is_side "left" then [] else leftPoints m in
  let right := if missing || is_side "right" then [] else rightPoints m in
  {| id := id m; timestamp := timestamp m; updatedAt := now;
     name := name m; leftPoints := left; rightPoints := right;
     calculations := calculateMeasurements left right; notes := notes m |}.

Definition isValid (m : t) : bool :=
  (2 <=? List.length (leftPoints m))%nat && (2 <=? List.length (rightPoints m))%nat.

(** The allowed fields of the argument of [update], each with a value of
    the field's kind when it is there; other keys are passed over. *)
Module Updates.
Record t := {
    name : option string;
    leftPoints : option (list Point);
    rightPoints : option (list Point);
    notes : option string
  }.
End Updates.

Definition update (m : t) (updates : Updates.t) (now : string) : t :=
  let left := default (leftPoints m) (Updates.leftPoints updates) in
  let right := default (rightPoints m) (Updates.rightPoints updates) in
  let pointsChanged :=
    bool_decide (is_Some (Updates.leftPoints updates))
    || bool_decide (is_Some (Updates.rightPoints updates)) in
  {| id := id m; timestamp := timestamp m; updatedAt := now;
     name := default (name m) (Updates.name updates);
     leftPoints := left; rightPoints := right;
     calculations :=
       if pointsChanged then calculateMeasurements left right
       else calculations m;
     notes := default (notes m) (Updates.notes updates) |}.

(** *** The arrays behind the two sides

    The constructor stores the arrays it is given, and [splice] changes an
    array in place: a measurement made with one array for both sides has
    one array, and taking a point from one side takes it from the other.
    The definitions above take each side as a list of its own, which is a
    measurement made from two arrays. Here the arrays live in a store, from
    address to points, and a measurement holds the addresses of its two
    sides. *)
Module InPlace.

Abbreviation arrays := (gmap nat (list Point)).

Record object := {
    id : string;
    timestamp : string;
    updatedAt : string;
    name : string;
    leftPoints : nat;
    rightPoints : nat;
    calculations : Measurements;
    notes : string
  }.

(** The points of the array at [address]; every address a measurement
    holds has an array. *)
Definition points_at (store : arrays) (address : nat) : list Point :=
  default [] (store !! address).

Definition calculate (store : arrays) (m : object) : Measurements :=
  calculateMeasurements
    (points_at store (leftPoints m)) (points_at store (rightPoints m)).

(** [new Measurement(leftPoints, rightPoints, name)] for two arrays of the
    store, which may be one and the same. *)
Definition create (store : arrays) (uuid now : string)
    (leftPoints rightPoints : nat) (name : string) : object :=
  {| id := uuid; timestamp := now; updatedAt := now; name := name;
     leftPoints := leftPoints; rightPoints := rightPoints;
     calculations :=
       calculateMeasurements
         (points_at store leftPoints) (points_at store rightPoints);
     notes := "" |}.

Definition pointsArray (m : object) (side : string) : nat :=
  if String.eqb side "left" then leftPoints m else rightPoints m.

(** [removePoint(side, index)] for an integer [index]:
    [pointsArray.splice(index, 1)] writes the store, then the calculation
    reads both sides from it. *)
Definition removePoint (store : arrays) (m : object) (side : string)
    (index : Z) (now : string) : arrays * object * bool :=
  if negb (valid_side side) then (store, m, false)
  else
    let points := points_at store (pointsArray m side) in
    if (index <? 0) || (Z.of_nat (List.length points) <=? index)
    then (store, m, false)
    else
      let spliced :=
        <[pointsArray m side := delete (Z.to_nat index) points]> store in
      (spliced,
       {| id := id m; timestamp := timestamp m; updatedAt := now;
          name := name m; leftPoints := leftPoints m;
          rightPoints := rightPoints m;
          calculations := calculate spliced m; notes := notes m |},
       true).

(** The measurement with the points of its two sides read from the
    store. *)
Definition read (store : arrays) (m : object) : t :=
  Build_t (id m) (timestamp m) (updatedAt m) (name m)
    (points_at store (leftPoints m)) (points_at store (rightPoints m))
    (calculations m) (notes m).

End InPlace.

End Measurement.

(** ** UndoRedoManager

    The manager keeps snapshots of any shape; [deepCopy] is the
    [JSON.parse(JSON.stringify(state))] copy taken on [push]. Listeners only
    receive a summary of the cursor and are not part of the model, and the
    clock read by [push] is the argument [now]. *)

Module UndoRedo.
Import JS.

Section Manager.
Context {Snapshot : Type} (deepCopy : Snapshot -> Snapshot).

Record entry := {
    state : Snapshot;
    action : string;
    timestamp : Z
  }.

Record manager := {
    history : list entry;
    currentIndex : Z;
    maxHistory : Z;
    isEnabled : bool
  }.

(** [new UndoRedoManager(maxHistory)] *)
Definition create (maxHistory : Z) : manager :=
  {| history := []; currentIndex := -1; maxHistory := maxHistory;
     isEnabled := true |}.

(** [new UndoRedoManager()]: the bound defaults to 50. This is also the
    exported singleton. *)
Definition undoRedoManager : manager := create 50.

Definition len (m : manager) : Z := Z.of_nat (List.length (history m)).

(** [a[i]] for an integer [i]: [None] is [undefined]. *)
Definition at_index (h : list entry) (i : Z) : option entry :=
  if i <? 0 then None else h !! Z.to_nat i.

(** [a.slice(0, stop)] *)
Definition slice0 (h : list entry) (stop : Z) : list entry :=
  let n := Z.of_nat (List.length h) in
  let k := if stop <? 0 then Z.max (n + stop) 0 else Z.min stop n in
  take (Z.to_nat k) h.

Definition canUndo (m : manager) : bool := 0 <? currentIndex m.

Definition canRedo (m : manager) : bool := currentIndex m <? len m - 1.

Definition push (m : manager) (st : Snapshot) (act : string) (now : Z)
  : manager :=
  if negb (isEnabled m) then m
  else
    let h1 := if currentIndex m <? len m - 1
              then slice0 (history m) (currentIndex m + 1)
              else history m in
    let stateCopy := deepCopy st in
    let h2 := h1 ++ [{| state := stateCopy; action := act; timestamp := now |}] in
    if maxHistory m <? Z.of_nat (List.length h2) then
      {| history := tail h2; currentIndex := currentIndex m;
         maxHistory := maxHistory m; isEnabled := isEnabled m |}
    else
      {| history := h2; currentIndex := currentIndex m + 1;
         maxHistory := maxHistory m; isEnabled := isEnabled m |}.

(** What a call hands back: [null], a copy of a history item, or the
    TypeError of reading a field of [undefined]. *)
Inductive outcome :=
  | ReturnedNull
  | Returned (item : entry)
  | Thrown.

Definition move_to (m : manager) (i : Z) : manager * outcome :=
  let m' := {| history := history m; currentIndex := i;
               maxHistory := maxHistory m; isEnabled := isEnabled m |} in
  match at_index (history m') (currentIndex m') with
  | Some historyItem =>
      (m', Returned {| state := state historyItem;
                       action := action historyItem;
                       timestamp := timestamp historyItem |})
  | None => (m', Thrown)
  end.

Definition undo (m : manager) : manager * outcome :=
  if negb (canUndo m) then (m, ReturnedNull)
  else move_to m (currentIndex m - 1).

Definition redo (m : manager) : manager * outcome :=
  if negb (canRedo m) then (m, ReturnedNull)
  else move_to m (currentIndex m + 1).

Definition clear (m : manager) : manager :=
  {| history := []; currentIndex := -1; maxHistory := maxHistory m;
     isEnabled := isEnabled m |}.

Definition getCurrentState (m : manager) : option Snapshot :=
  if (0 <=? currentIndex m) && (currentIndex m <? len m)
  then state <$> at_index (history m) (currentIndex m)
  else None.

(** Running a script of calls. *)

(** One [push(state, action)] per element, each with its clock reading. *)
Definition push_all (m : manager) (calls : list (Snapshot * string * Z))
  : manager :=
  foldl (fun m c => push m c.1.1 c.1.2 c.2) m calls.

(** The history item that [push] stores for a call. *)
Definition stored (c : Snapshot * string * Z) : entry :=
  {| state := deepCopy c.1.1; action := c.1.2; timestamp := c.2 |}.

(** [n] calls of [step] in a row, with what each returned. *)
Fixpoint repeat_call (step : manager -> manager * outcome) (n : nat)
    (m : manager) : manager * list outcome :=
  match n with
  | O => (m, [])
  | S n' =>
      let '(m1, r) := step m in
      let '(m2, rs) := repeat_call step n' m1 in
      (m2, r :: rs)
  end.

Definition getHistorySize (m : manager) : Z := len m.

Definition getCurrentIndex (m : manager) : Z := currentIndex m.

(** What [peekUndo] and [peekRedo] hand back: [null], a stored state, or the
    TypeError of reading [.state] of [undefined]. *)
Inductive peeked :=
  | PeekedNull
  | Peeked (s : Snapshot)
  | PeekThrown.

Definition peek_at (m : manager) (i : Z) : peeked :=
  match at_index (history m) i with
  | Some historyItem => Peeked (state historyItem)
  | None => PeekThrown
  end.

Definition peekUndo (m : manager) : peeked :=
  if negb (canUndo m) then PeekedNull else peek_at m (currentIndex m - 1).

Definition peekRedo (m : manager) : peeked :=
  if negb (canRedo m) then PeekedNull else peek_at m (currentIndex m + 1).

Definition setEnabled (m : manager) (enabled : bool) : manager :=
  {| history := history m; currentIndex := currentIndex m;
     maxHistory := maxHistory m; isEnabled := enabled |}.

End Manager.

Arguments entry : clear implicits.
Arguments manager : clear implicits.
Arguments outcome : clear implicits.
Arguments peeked : clear implicits.

(** The object that [serialize] returns and [deserialize] reads; a field
    that is [None] is missing. *)
Module Data.
Record t (Snapshot : Type) := {
    history : option (list (entry Snapshot));
    currentIndex : option Z;
    maxHistory : option Z
  }.
Arguments history {Snapshot}.
Arguments currentIndex {Snapshot}.
Arguments maxHistory {Snapshot}.
End Data.

Definition serialize {Snapshot : Type} (m : manager Snapshot) : Data.t Snapshot :=
  {| Data.history := Some (history m);
     Data.currentIndex := Some (currentIndex m);
     Data.maxHistory := Some (maxHistory m) |}.

(** [deserialize(data)]; [None] is a [data] that is [null] or [undefined].
    An array is truthy even when empty; of the numbers only [0] is not. *)
Definition deserialize {Snapshot : Type} (m : manager Snapshot)
    (data : option (Data.t Snapshot)) : manager Snapshot :=
  match data with
  | None => m
  | Some data =>
      let history1 := default [] (Data.history data) in
      let currentIndex1 := default (-1) (Data.currentIndex data) in
      let maxHistory1 :=
        match Data.maxHistory data with
        | Some n => if n =? 0 then 50 else n
        | None => 50
        end in
      let currentIndex2 :=
        if Z.of_nat (List.length history1) <=? currentIndex1
        then Z.of_nat (List.length history1) - 1
        else currentIndex1 in
      {| history := history1; currentIndex := currentIndex2;
         maxHistory := maxHistory1; isEnabled := isEnabled m |}
  end.

End UndoRedo.

(** ** js/utils/validation.js: project names *)

Module Validation.
Import JS.

Record result := { valid : bool; error : option string }.

Definition ok : result := {| valid := true; error := None |}.

Definition invalid (message : string) : result :=
  {| valid := false; error := Some message |}.

Definition lower (c : ascii) : ascii :=
  let n := nat_of_ascii c in
  if ((65 <=? n) && (n <=? 90))%nat then ascii_of_nat (n + 32) else c.

Fixpoint toLowerCase (s : string) : string :=
  match s with
  | EmptyString => EmptyString
  | String c s' => String (lower c) (toLowerCase s')
  end.

(** [existing.find(p => p.name.toLowerCase() === trimmedName.toLowerCase())]
    over the names of the existing projects: whether a duplicate is found;
    a name that is not a string raises when it is reached. *)
Fixpoint find_duplicate (trimmedName : string) (names : list value)
  : completion bool :=
  match names with
  | [] => Normal false
  | Str n :: rest =>
      if String.eqb (toLowerCase n) (toLowerCase trimmedName) then Normal true
      else find_duplicate trimmedName rest
  | _ :: _ => Throw TypeError
  end.

(** [validateProjectName(name, existingProjects)] *)
Definition validateProjectName (name : value) (existingNames : list value)
  : completion result :=
  if negb (truthy name) then Normal (invalid "Project name is required")
  else
    match name with
    | Str s =>
        if String.eqb (trim s) "" then Normal (invalid "Project name is required")
        else
          let trimmedName := trim s in
          if (String.length trimmedName <? 3)%nat then
            Normal (invalid "Project name must be at least 3 characters")
          else if (50 <? String.length trimmedName)%nat then
            Normal (invalid "Project name must be less than 50 characters")
          else
            bind (find_duplicate trimmedName existingNames) (fun duplicate =>
              if duplicate
              then Normal (invalid "A project with this name already exists")
              else Normal ok)
    | _ => Throw TypeError
    end.

(** *** Coordinates *)

Module Coordinate.
Record result := {
  valid : bool;
  error : option string;
  point : option Calculations.Point
}.
End Coordinate.

Definition MAX_COORDINATE : number := 1000000.

(** [validateCoordinate(value)]. The last message prints the maximum with
    [toLocaleString], taken in the en-US locale. *)
Definition validateCoordinate (value : string) : Coordinate.result :=
  if String.eqb value "" || String.eqb (trim value) "" then
    {| Coordinate.valid := true; Coordinate.error := None;
       Coordinate.point := None |}
  else if negb (includes "," value) then
    {| Coordinate.valid := false;
       Coordinate.error := Some "Format should be: X, Y (e.g., 100.5, 200)";
       Coordinate.point := None |}
  else
    match Calculations.parseXY value with
    | None =>
        {| Coordinate.valid := false;
           Coordinate.error :=
             Some "Invalid coordinates. Use numbers separated by comma (e.g., 100, 200)";
           Coordinate.point := None |}
    | Some point =>
        if (MAX_COORDINATE <? PrimFloat.abs (Calculations.x point))%float
           || (MAX_COORDINATE <? PrimFloat.abs (Calculations.y point))%float
        then
          {| Coordinate.valid := false;
             Coordinate.error :=
               Some "Coordinates too large. Maximum value is 1,000,000";
             Coordinate.point := None |}
        else
          {| Coordinate.valid := true; Coordinate.error := None;
             Coordinate.point := Some point |}
    end.

(** *** Point sequences *)

(** The key [`${point.x},${point.y}`] under which a point is remembered. *)
Definition point_key (p : Calculations.Point) : string :=
  number_to_string (Calculations.x p) +:+ "," +:+
  number_to_string (Calculations.y p).

(** The [forEach] of [findDuplicatePoints] from position [index] on, with
    the map [seen] and the positions found so far. *)
Fixpoint scan_duplicates (seen : gmap string nat) (duplicates : list nat)
    (index : nat) (points : list Calculations.Point) : list nat :=
  match points with
  | [] => duplicates
  | point :: rest =>
      let key := point_key point in
      match seen !! key with
      | Some _ => scan_duplicates seen (duplicates ++ [S index]) (S index) rest
      | None => scan_duplicates (<[key := index]> seen) duplicates (S index) rest
      end
  end.

Definition findDuplicatePoints (points : list Calculations.Point) : list nat :=
  scan_duplicates ∅ [] 0 points.

(** [validatePoints(points, side)] for an array of points. *)
Definition validatePoints (points : list Calculations.Point) (side : string)
  : result :=
  if (List.length points <? 2)%nat then
    invalid ("At least 2 " +:+ side +:+
             " points are required for distance calculation")
  else
    let duplicates := findDuplicatePoints points in
    if (0 <? List.length duplicates)%nat then
      invalid ("Duplicate coordinates found in " +:+ side +:+
               " points at positions " +:+
               join ", " ((fun i => string_of_Z (Z.of_nat i)) <$> duplicates))
    else ok.

(** *** Measurements *)

Module Checked.
Record result := { valid : bool; errors : list string }.
End Checked.

(** [validateMeasurement(measurement)] for an instance of the model, whose
    point arrays and calculations are always there. *)
Definition validateMeasurement (measurement : Measurement.t) : Checked.result :=
  let errors0 : list string := [] in
  let leftValidation := validatePoints (Measurement.leftPoints measurement) "left" in
  let errors1 :=
    if valid leftValidation then errors0
    else errors0 ++ [default "" (error leftValidation)] in
  let rightValidation := validatePoints (Measurement.rightPoints measurement) "right" in
  let errors2 :=
    if valid rightValidation then errors1
    else errors1 ++ [default "" (error rightValidation)] in
  let calcs := Measurement.calculations measurement in
  let negative (v : number) := isNaN v || (v <? 0)%float in
  let errors3 :=
    if negative (Calculations.leftDistance calcs)
    then errors2 ++ ["Invalid left distance calculation"] else errors2 in
  let errors4 :=
    if negative (Calculations.rightDistance calcs)
    then errors3 ++ ["Invalid right distance calculation"] else errors3 in
  let errors5 :=
    if negative (Calculations.area calcs)
    then errors4 ++ ["Invalid area calculation"] else errors4 in
  {| Checked.valid := (List.length errors5 =? 0)%nat; Checked.errors := errors5 |}.

(** *** Text *)

(** The double quote character. *)
Definition double_quote : ascii := ascii_of_nat 34.

(** [sanitizeInput(input)] *)
Definition sanitizeInput (input : value) : string :=
  match input with
  | Str text =>
      replace_all "/" "&#x2F;"
        (replace_all "'" "&#x27;"
           (replace_all double_quote "&quot;"
              (replace_all ">" "&gt;"
                 (replace_all "<" "&lt;" text))))
  | _ => ""
  end.

(** Whether the text starts with a match of [\s*,], and what follows the
    comma. *)
Fixpoint comma_after_white (s : string) : option string :=
  match s with
  | EmptyString => None
  | String c s' =>
      if Ascii.eqb c "," then Some s'
      else if is_white c then comma_after_white s' else None
  end.

(** [s.replace(/\s*,\s*/, by)]: the leftmost match, found by trying each
    position in turn, is replaced. *)
Fixpoint replace_comma (by_ : string) (s : string) : string :=
  match comma_after_white s with
  | Some rest => by_ +:+ trimStart rest
  | None =>
      match s with
      | EmptyString => EmptyString
      | String c s' => String c (replace_comma by_ s')
      end
  end.

(** [s.replace(/\s+/, by)]: the first run of white space is replaced. *)
Fixpoint replace_white (by_ : string) (s : string) : string :=
  match s with
  | EmptyString => EmptyString
  | String c s' =>
      if is_white c then by_ +:+ trimStart s'
      else String c (replace_white by_ s')
  end.

(** [autoFormatCoordinate(value)] *)
Definition autoFormatCoordinate (value : string) : string :=
  if String.eqb value "" then ""
  else
    let formatted := trim value in
    let formatted :=
      if includes " " formatted && negb (includes "," formatted)
      then replace_white ", " formatted
      else formatted in
    replace_comma ", " formatted.

(** One position of the pattern of [isValidUUID]. *)
Inductive uuid_class := Hex | Dash | Four | Variant.

Definition in_class (k : uuid_class) (c : ascii) : bool :=
  let n := nat_of_ascii (lower c) in
  match k with
  | Hex => ((48 <=? n) && (n <=? 57) || (97 <=? n) && (n <=? 102))%nat
  | Dash => (n =? 45)%nat
  | Four => (n =? 52)%nat
  | Variant => ((n =? 56) || (n =? 57) || (n =? 97) || (n =? 98))%nat
  end.

Definition uuid_pattern : list uuid_class :=
  repeat Hex 8 ++ [Dash] ++ repeat Hex 4 ++ [Dash; Four] ++ repeat Hex 3
  ++ [Dash; Variant] ++ repeat Hex 3 ++ [Dash] ++ repeat Hex 12.

Fixpoint matches (pattern : list uuid_class) (s : string) : bool :=
  match pattern, s with
  | [], EmptyString => true
  | k :: pattern', String c s' => in_class k c && matches pattern' s'
  | _, _ => false
  end.

(** [isValidUUID(uuid)]: the anchored, case-insensitive pattern
    [^[0-9a-f]{8}-[0-9a-f]{4}-4[0-9a-f]{3}-[89ab][0-9a-f]{3}-[0-9a-f]{12}$]. *)
Definition isValidUUID (uuid : string) : bool := matches uuid_pattern uuid.

End Validation.

(** ** models/Project.js *)

Module Project.
Import JS.

Record t := {
    id : value;
    name : value;
    description : value;
    createdAt : value;
    updatedAt : value;
    measurements : value;
    metadata : value
  }.

Definition default_metadata : value :=
  Obj [("author", Str ""); ("tags", Arr []); ("location", Str "")].

(** [Project.fromJSON(data)]: the constructor's fresh id and timestamps
    are overwritten by the document's, so the result is a function of
    [data]; reading a field of [null] or [undefined] raises. *)
Definition fromJSON (data : value) : completion t :=
  match get data "name", get data "description", get data "id",
        get data "createdAt", get data "updatedAt", get data "metadata",
        get data "measurements" with
  | Some name, Some description, Some id, Some createdAt, Some updatedAt,
    Some metadata, Some measurements =>
      Normal {|
        id := id;
        name := name;
        description :=
          match description with Undefined => Str "" | d => d end;
        createdAt := createdAt;
        updatedAt := updatedAt;
        measurements := or_else measurements (Arr []);
        metadata := or_else metadata default_metadata |}
  | _, _, _, _, _, _, _ => Throw TypeError
  end.

(** [project.validate(existingProjects)] *)
Definition validate (p : t) (existingProjects : list t)
  : completion Validation.result :=
  let others := filter (fun q => strict_eq (id q) (id p) = false) existingProjects in
  Validation.validateProjectName (name p) (name <$> others).

(** A measurement of a project is given by its contents, which are the
    same for an instance of the model and for the plain object it was
    written as. *)

(** [measurements.findIndex(m => m.id === measurementId)]: [None] is [-1];
    reaching a [null] or [undefined] element raises. *)
Fixpoint find_measurement (measurementId : value) (items : list value)
  : completion (option nat) :=
  match items with
  | [] => Normal None
  | m :: rest =>
      match get m "id" with
      | None => Throw TypeError
      | Some mid =>
          if strict_eq mid measurementId then Normal (Some O)
          else bind (find_measurement measurementId rest)
                 (fun r => Normal (S <$> r))
      end
  end.

Definition set_measurements (p : t) (items : list value) (now : string) : t :=
  {| id := id p; name := name p; description := description p;
     createdAt := createdAt p; updatedAt := Str now;
     measurements := Arr items; metadata := metadata p |}.

(** [addMeasurement(measurement)]; [now] is the clock read for
    [updatedAt]. Pushing onto something that is not an array raises. *)
Definition addMeasurement (p : t) (measurement : value) (now : string)
  : completion (t * bool) :=
  if negb (truthy measurement) then Normal (p, false)
  else
    match get measurement "id" with
    | None => Throw TypeError
    | Some mid =>
        if negb (truthy mid) then Normal (p, false)
        else
          match measurements p with
          | Arr items => Normal (set_measurements p (items ++ [measurement]) now, true)
          | _ => Throw TypeError
          end
    end.

Definition removeMeasurement (p : t) (measurementId : value) (now : string)
  : completion (t * bool) :=
  match measurements p with
  | Arr items =>
      bind (find_measurement measurementId items) (fun r =>
        match r with
        | None => Normal (p, false)
        | Some index => Normal (set_measurements p (delete index items) now, true)
        end)
  | _ => Throw TypeError
  end.

(** [getMeasurement(measurementId)] *)
Definition getMeasurement (p : t) (measurementId : value) : completion value :=
  match measurements p with
  | Arr items =>
      bind (find_measurement measurementId items) (fun r =>
        match r with
        | None => Normal Null
        | Some index => Normal (or_else (default Undefined (items !! index)) Null)
        end)
  | _ => Throw TypeError
  end.

(** [m.toJSON ? m.toJSON() : m] for a measurement given by its contents: a
    truthy [toJSON] that is data cannot be called. *)
Definition measurement_toJSON (m : value) : completion value :=
  match get m "toJSON" with
  | None => Throw TypeError
  | Some f => if truthy f then Throw TypeError else Normal m
  end.

(** [toJSON()] *)
Definition toJSON (p : t) : completion value :=
  match measurements p with
  | Arr items =>
      bind (mapM measurement_toJSON items) (fun ms =>
        Normal (Obj [("id", id p); ("name", name p);
                     ("description", description p);
                     ("createdAt", createdAt p); ("updatedAt", updatedAt p);
                     ("measurements", Arr ms); ("metadata", metadata p)]))
  | _ => Throw TypeError
  end.

End Project.

(** ** js/state/StateManager.js

    The store's state object. Subscribers are handed a copy of the state
    after each change and are not part of the model. Operations that only
    rewrite the contents of the current project (its measurements, name or
    description) leave [projects], [currentProjectId] and [settings] as they
    are and are left out. *)

Module StateManager.
Import JS.

Record ui_state := {
    selectedMeasurementId : value;
    historyPanelOpen : bool;
    settingsPanelOpen : bool
  }.

Record t := {
    currentProject : option Project.t;
    currentProjectId : value;
    projects : list Project.t;
    settings : object;
    ui : ui_state
  }.

Definition getDefaultSettings : object :=
  list_to_map
    [("defaultUnit", Str "meters"); ("autoSave", Bool true);
     ("showGrid", Bool true); ("showLabels", Bool true);
     ("theme", Str "light"); ("maxHistorySize", Num 50)].

Definition initial_ui : ui_state :=
  {| selectedMeasurementId := Null; historyPanelOpen := false;
     settingsPanelOpen := false |}.

(** The state set up by the constructor, and again by [clearAll]. *)
Definition initial : t :=
  {| currentProject := None; currentProjectId := Null; projects := [];
     settings := getDefaultSettings; ui := initial_ui |}.

Definition set_projects (s : t) (ps : list Project.t) : t :=
  {| currentProject := currentProject s;
     currentProjectId := currentProjectId s;
     projects := ps; settings := settings s; ui := ui s |}.

Definition set_current (s : t) (p : option Project.t) (pid : value) : t :=
  {| currentProject := p; currentProjectId := pid;
     projects := projects s; settings := settings s; ui := ui s |}.

Definition set_settings (s : t) (o : object) : t :=
  {| currentProject := currentProject s;
     currentProjectId := currentProjectId s;
     projects := projects s; settings := o; ui := ui s |}.

(** [addProject(project)] for an instance of [Project]. *)
Definition addProject (s : t) (project : Project.t) : completion (t * bool) :=
  bind (Project.validate project (projects s)) (fun validation =>
    if negb (Validation.valid validation) then Normal (s, false)
    else Normal (set_projects s (projects s ++ [project]), true)).

Definition has_id (projectId : value) (p : Project.t) : bool :=
  strict_eq (Project.id p) projectId.

(** [projects.findIndex(p => p.id === projectId)] *)
Fixpoint findIndex (projectId : value) (ps : list Project.t) : option nat :=
  match ps with
  | [] => None
  | p :: rest =>
      if has_id projectId p then Some O
      else S <$> findIndex projectId rest
  end.

Definition removeProject (s : t) (projectId : value) : t * bool :=
  match findIndex projectId (projects s) with
  | None => (s, false)
  | Some index =>
      let s1 := if strict_eq (currentProjectId s) projectId
                then set_current s None Null else s in
      (set_projects s1 (delete index (projects s1)), true)
  end.

(** [getProject(projectId)]: [None] is [null]. *)
Definition getProject (s : t) (projectId : value) : option Project.t :=
  List.find (has_id projectId) (projects s).

Definition setCurrentProject (s : t) (projectId : value) : t * bool :=
  if negb (truthy projectId) then (set_current s None Null, true)
  else
    match getProject s projectId with
    | None => (s, false)
    | Some project => (set_current s (Some project) projectId, true)
    end.

Definition updateSettings (s : t) (updates : value) : t :=
  set_settings s (assign (settings s) updates).

Definition getSettings (s : t) : object := settings s.

Definition getAllProjects (s : t) : list Project.t := projects s.

Definition clearAll (s : t) : t := initial.

(** [loadState(data)]. Only the first statement can raise, before it
    assigns anything; the [catch] then leaves the state as it was. *)
Definition loadState (s : t) (data : value) : t :=
  match get data "projects" with
  | None => s
  | Some dp =>
      let loaded :=
        match or_else dp (Arr []) with
        | Arr items => mapM Project.fromJSON items
        | _ => Throw TypeError
        end in
      match loaded with
      | Throw _ => s
      | Normal ps =>
          let s1 := set_projects s ps in
          let s2 :=
            set_settings s1
              (assign getDefaultSettings
                 (or_else (default Undefined (get data "settings")) (Obj []))) in
          let cp := default Undefined (get data "currentProjectId") in
          if truthy cp then (setCurrentProject s2 cp).1 else s2
      end
  end.

(** The settings object as a value. *)
Definition settings_value (o : object) : value := Obj (map_to_list o).

(** [serializeState()] *)
Definition serializeState (s : t) : completion value :=
  bind (mapM Project.toJSON (projects s)) (fun ps =>
    Normal (Obj [("version", Str "1.0.0");
                 ("currentProjectId", currentProjectId s);
                 ("projects", Arr ps);
                 ("settings", settings_value (settings s))])).

(** The store's invariant: a current project id that is not [null] is
    the id of a project in [projects]. *)
Definition current_resolves (s : t) : Prop :=
  currentProjectId s <> Null ->
  exists p, p ∈ projects s /\ has_id (currentProjectId s) p = true.

End StateManager.

(** ** js/state/PersistenceManager.js: importing a backup

    The [onload] handler of [importAllData], run on the content of the file
    that was read. Writing to [localStorage] ([saveAll], which catches its
    own errors) does not touch the store and is not modelled. *)

Module PersistenceManager.
Import JS.

(** The text of the file: not JSON at all, or the value it parses to. *)
Inductive content :=
  | Unparsable
  | Parsed (data : value).

Inductive settled :=
  | Resolved (v : bool)
  | Rejected (e : error).

Definition invalid_format : error := Error "Invalid backup file format".

Definition importAllData (stateManager : option StateManager.t) (file : content)
  : option StateManager.t * settled :=
  match file with
  | Unparsable => (stateManager, Rejected SyntaxError)
  | Parsed data =>
      match get data "projects", get data "version" with
      | Some dprojects, Some dversion =>
          if negb (truthy dprojects) || negb (truthy dversion)
          then (stateManager, Rejected invalid_format)
          else
            let loaded :=
              match dprojects with
              | Arr items => mapM Project.fromJSON items
              | _ => Throw TypeError
              end in
            match loaded with
            | Throw e => (stateManager, Rejected e)
            | Normal projects =>
                let settings :=
                  or_else (default Undefined (get data "settings")) (Obj []) in
                ((fun s => StateManager.updateSettings
                             (StateManager.set_projects s projects) settings)
                 <$> stateManager,
                 Resolved true)
            end
      | _, _ => (stateManager, Rejected TypeError)
      end
  end.

End PersistenceManager.

(** * Statements

    The vocabulary of the properties proved below: the wording of the
    specification, scripts of calls, and sample data. *)

Section CalculationStatements.
Import JS Calculations.

Definition pt (a b : number) : Point := {| x := a; y := b |}.

(** The first scenario of the specification. *)
Definition scenario1 : Measurements :=
  calculateMeasurements [pt 0 0; pt 100 0] [pt 0 50; pt 100 50].

(** [|a - b| < eps] *)
Definition near (a b eps : number) : bool :=
  (PrimFloat.abs (a - b) <? eps)%float.

(** The numeric token of the specification: decimal digits with an optional
    sign and an optional fractional part, and nothing else. *)
Definition spec_numeric_token (s : string) : bool :=
  let '(_, s1) := read_sign s in
  let '(_, ni, s2) := digits 0 0 s1 in
  negb (ni =? 0)%nat &&
  match s2 with
  | EmptyString => true
  | String c s3 =>
      Ascii.eqb c "." &&
      let '(_, nf, s4) := digits 0 0 s3 in
      negb (nf =? 0)%nat && String.eqb s4 ""
  end.

(** The accepted input of the specification: exactly two comma-separated
    numeric tokens, white space around them trimmed. *)
Definition spec_two_numeric_tokens (text : string) : bool :=
  match split "," text with
  | [a; b] => spec_numeric_token (trim a) && spec_numeric_token (trim b)
  | _ => false
  end.

End CalculationStatements.

Section MeasurementStatements.
Import JS Measurement.

(** The object [{x: px, y: py}]. *)
Definition point_value (px py : number) : value :=
  Obj [("x"%string, Num px); ("y"%string, Num py)].

(** A measurement with two points on each side. *)
Definition sample : t :=
  create "m-1" "2025-12-24T00:00:00.000Z"
    [{| x := 0; y := 0 |}; {| x := 100; y := 0 |}]
    [{| x := 0; y := 50 |}; {| x := 100; y := 50 |}] "plot".

(** The calls that change a measurement, each with its clock reading. *)
Inductive change :=
  | AddPoint (side : string) (point : value) (now : string)
  | RemovePoint (side : string) (index : Z) (now : string)
  | UpdatePoint (side : string) (index : Z) (newPoint : value) (now : string)
  | ClearPoints (side : option string) (now : string)
  | Update (updates : Updates.t) (now : string).

Definition apply_change (m : Measurement.t) (c : change) : Measurement.t :=
  match c with
  | AddPoint side point now => (addPoint m side point now).1
  | RemovePoint side index now => (removePoint m side index now).1
  | UpdatePoint side index newPoint now => (updatePoint m side index newPoint now).1
  | ClearPoints side now => clearPoints m side now
  | Update updates now => update m updates now
  end.

(** The stored calculations are those of the stored points. *)
Definition in_sync (m : Measurement.t) : Prop :=
  calculations m = calculateMeasurements (leftPoints m) (rightPoints m).

End MeasurementStatements.

Section ManagerStatements.
Import UndoRedo.
Context {Snapshot : Type} (deepCopy : Snapshot -> Snapshot).

Abbreviation manager := (UndoRedo.manager Snapshot).
Abbreviation entry := (UndoRedo.entry Snapshot).
Abbreviation call := (Snapshot * string * Z)%type.

Implicit Types (m : manager) (h es : list entry) (calls : list call).

(** What one call of [undo] ([delta = -1]) or [redo] ([delta = 1])
    leaves and changes. *)
Definition moves_cursor_only (delta : Z) (m : manager)
    (after : manager * outcome Snapshot) : Prop :=
  let '(m', r) := after in
  history m' = history m /\
  List.length (history m') = List.length (history m) /\
  maxHistory m' = maxHistory m /\
  isEnabled m' = isEnabled m /\
  match r with
  | ReturnedNull => currentIndex m' = currentIndex m
  | Returned item =>
      currentIndex m' = currentIndex m + delta /\
      at_index (history m') (currentIndex m') = Some item
  | Thrown =>
      currentIndex m' = currentIndex m + delta /\
      at_index (history m') (currentIndex m') = None
  end.

(** A manager whose cursor is on its newest entry. *)
Definition at_tail h (bound : Z) : manager :=
  {| history := h; currentIndex := Z.of_nat (List.length h) - 1;
     maxHistory := bound; isEnabled := true |}.

(** An enabled manager with history [h] and cursor [i]. *)
Definition placed h (i : Z) (bound : Z) : manager :=
  {| history := h; currentIndex := i; maxHistory := bound;
     isEnabled := true |}.

(** The replay of C4: after the pushes, [length calls - 1] undos return
    the stored entries below the newest one, newest first; as many redos
    return those above the oldest one, oldest first, and leave the
    manager as it was after the pushes, cursor on the newest entry. *)
Definition replays (bound : Z) calls : Prop :=
  let n := (List.length calls - 1)%nat in
  let es := stored deepCopy <$> calls in
  let m := push_all deepCopy (create bound) calls in
  let undone := repeat_call undo n m in
  let redone := repeat_call redo n undone.1 in
  undone.2 = Returned <$> reverse (take n es) /\
  redone.2 = Returned <$> drop 1 es /\
  redone.1 = m /\
  at_index (history m) (currentIndex m) = last es.

(** A push after [j] undos drops the entries above the cursor, and a redo
    then returns null. *)
Definition push_discards_redo (bound : Z) calls : Prop :=
  forall (j : nat) (c : call),
    (1 <= j <= List.length calls - 1)%nat ->
    let m := push_all deepCopy (create bound) calls in
    let m' := push deepCopy (repeat_call undo j m).1 c.1.1 c.1.2 c.2 in
    history m'
    = take (List.length calls - j) (stored deepCopy <$> calls)
      ++ [stored deepCopy c] /\
    redo m' = (m', ReturnedNull).

(** The calls that change a manager. *)
Inductive request :=
  | Push (st : Snapshot) (act : string) (now : Z)
  | Undo
  | Redo
  | Clear
  | SetEnabled (enabled : bool).

Definition perform m (c : request) : manager :=
  match c with
  | Push st act now => push deepCopy m st act now
  | Undo => (undo m).1
  | Redo => (redo m).1
  | Clear => clear m
  | SetEnabled enabled => setEnabled m enabled
  end.

Definition run m (cs : list request) : manager := foldl perform m cs.

(** The history is within the bound, and the cursor is on an entry, or at
    [-1] when there is none. *)
Definition well_formed m : Prop :=
  len m <= Z.max (maxHistory m) 0 /\
  ((len m = 0 /\ currentIndex m = -1) \/ 0 <= currentIndex m < len m).

(** What a peek shows of what a move returns. *)
Definition shown (r : outcome Snapshot) : peeked Snapshot :=
  match r with
  | ReturnedNull => PeekedNull
  | Returned item => Peeked (state item)
  | Thrown => PeekThrown
  end.

End ManagerStatements.

(** Fifty-one snapshots on the default manager, whose bound is 50. *)
Definition fifty_one_calls : list (Z * string * Z) :=
  (fun i => (i, "CALCULATE"%string, 1000 + i)) <$> seqZ 0 51.

Section StoreStatements.
Import JS StateManager.

(** The serialized form of an empty project. *)
Definition project_json (pid name : string) : value :=
  Obj [("id"%string, Str pid); ("name"%string, Str name);
       ("description"%string, Str "");
       ("createdAt"%string, Str "2025-12-24T00:00:00.000Z");
       ("updatedAt"%string, Str "2025-12-24T00:00:00.000Z");
       ("measurements"%string, Arr []);
       ("metadata"%string, Project.default_metadata)].

(** A store that loaded project a-1 and made it current. *)
Definition store_alpha : t :=
  loadState initial
    (Obj [("projects"%string, Arr [project_json "a-1" "Alpha"]);
          ("settings"%string, Obj []);
          ("currentProjectId"%string, Str "a-1")]).

(** A snapshot with project b-2 only and no current project. *)
Definition snapshot_beta : value :=
  Obj [("projects"%string, Arr [project_json "b-2" "Beta"]);
       ("settings"%string, Obj []);
       ("currentProjectId"%string, Null)].

(** The store after a successful import of [ps] and the document's
    [settings] value. *)
Definition imported (s : t) (ps : list Project.t) (docSettings : value) : t :=
  {| currentProject := currentProject s;
     currentProjectId := currentProjectId s;
     projects := ps;
     settings := assign (settings s) docSettings;
     ui := ui s |}.

(** The store of the previous section after the user switched the grid
    off. *)
Definition store_custom : t :=
  updateSettings store_alpha (Obj [("showGrid"%string, Bool false)]).

(** A backup with one project and a dark theme. *)
Definition backup_document : value :=
  Obj [("version"%string, Str "1.0.0");
       ("exportedAt"%string, Str "2025-12-25T00:00:00.000Z");
       ("application"%string, Str "Land Distance & Area Calculator");
       ("projects"%string, Arr [project_json "b-2" "Beta"]);
       ("settings"%string, Obj [("theme"%string, Str "dark")])].

(** What [fromJSON] makes of a project that [toJSON] wrote: a missing
    description is empty and falsy metadata are the default ones. *)
Definition read_back (p : Project.t) : Project.t :=
  {| Project.id := Project.id p;
     Project.name := Project.name p;
     Project.description :=
       match Project.description p with Undefined => Str "" | d => d end;
     Project.createdAt := Project.createdAt p;
     Project.updatedAt := Project.updatedAt p;
     Project.measurements := Project.measurements p;
     Project.metadata := or_else (Project.metadata p) Project.default_metadata |}.

(** Project b-2 as an instance. *)
Definition project_beta : Project.t :=
  {| Project.id := Str "b-2"; Project.name := Str "Beta";
     Project.description := Str "";
     Project.createdAt := Str "2025-12-24T00:00:00.000Z";
     Project.updatedAt := Str "2025-12-24T00:00:00.000Z";
     Project.measurements := Arr [];
     Project.metadata := Project.default_metadata |}.

(** The contents of a measurement with the given id. *)
Definition measurement_json (mid : string) : value :=
  Obj [("id"%string, Str mid);
       ("timestamp"%string, Str "2025-12-24T00:00:00.000Z");
       ("updatedAt"%string, Str "2025-12-24T00:00:00.000Z");
       ("name"%string, Str "plot");
       ("leftPoints"%string, Arr [point_value 0 0; point_value 100 0]);
       ("rightPoints"%string, Arr [point_value 0 50; point_value 100 50]);
       ("notes"%string, Str "")].

End StoreStatements.

Section TextStatements.
Import JS Validation.

(** How often a character occurs in a text. *)
Fixpoint count_char (c : ascii) (s : string) : nat :=
  match s with
  | EmptyString => 0
  | String c' s' => (if Ascii.eqb c' c then 1 else 0) + count_char c s'
  end.

(** The characters that [sanitizeInput] rewrites. *)
Definition special : list ascii :=
  ["<"%char; ">"%char; double_quote; "'"%char; "/"%char].

(** What one character becomes. *)
Definition escape (c : ascii) : string :=
  if Ascii.eqb c "<" then "&lt;"
  else if Ascii.eqb c ">" then "&gt;"
  else if Ascii.eqb c double_quote then "&quot;"
  else if Ascii.eqb c "'" then "&#x27;"
  else if Ascii.eqb c "/" then "&#x2F;"
  else String c EmptyString.

Fixpoint escape_all (s : string) : string :=
  match s with
  | EmptyString => EmptyString
  | String c s' => escape c +:+ escape_all s'
  end.

(** Whether a template of [x], [y], [-] and [4] lines up with a pattern of
    character classes. *)
Fixpoint lines_up (template : string) (pattern : list uuid_class) : bool :=
  match template, pattern with
  | EmptyString, [] => true
  | String c t, k :: ps =>
      Ascii.eqb c (match k with
                   | Hex => "x" | Variant => "y" | Dash => "-" | Four => "4"
                   end)%char
      && lines_up t ps
  | _, _ => false
  end.

(** A text of white space only, and a text without any. *)
Fixpoint all_white (s : string) : bool :=
  match s with
  | EmptyString => true
  | String c s' => is_white c && all_white s'
  end.

Fixpoint no_white (s : string) : bool :=
  match s with
  | EmptyString => true
  | String c s' => negb (is_white c) && no_white s'
  end.

End TextStatements.

(** A point at position [j] repeats the coordinates of an earlier one. *)
Definition repeats (points : list Calculations.Point) (j : nat) : Prop :=
  exists p i q, points !! j = Some p /\ (i < j)%nat /\
    points !! i = Some q /\ Validation.point_key q = Validation.point_key p.

Section TimingStatements.
Import Timing.
Context {Args : Type}.

(** What a sequence of events lets the debounced function execute when a
    timer runs [delay] after it was set: an expiry runs the call right
    before it, which is then at least [delay] old, with the arguments of
    that call. [None] is a sequence that cannot happen. *)
Fixpoint settle (delay : Z) (prev : option (Z * Args))
    (trace : list (event Args)) : option (list (Z * Args)) :=
  match trace with
  | [] => Some []
  | Invoke now args :: rest => settle delay (Some (now, args)) rest
  | Expire now _ :: rest =>
      match prev with
      | Some (called, args) =>
          if called + delay <=? now
          then cons (now, args) <$> settle delay None rest
          else None
      | None => None
      end
  end.

(** Two executions that are at least [gap] apart. *)
Definition apart (gap : Z) (a b : Z * Args) : Prop := a.1 + gap <= b.1.

(** A wrapped function that returns, and does not call the throttled
    function while it runs. *)
Definition quiet (func : wrapped Args) : Prop :=
  forall args t, func args t = (t, Returns).

(** The one timer that a debounced function has pending is the one of its
    last call. *)
Definition debounce_slot (delay : Z) (d : debounced Args)
    (prev : option (Z * Args)) : Prop :=
  match prev with
  | Some (called, args) =>
      exists id, timeout d = Some id /\
                 pending (timers d) = {[ id := (called + delay, args) ]}
  | None => pending (timers d) = ∅
  end.

(** While [inThrottle] is set, the one pending timer is due [gap] after the
    last execution; once it is cleared, that time has passed. *)
Definition throttle_gate (gap : Z) (t : throttled Args) : Prop :=
  Sorted (apart gap) (throttle_executed t) /\
  if inThrottle t then
    exists id x, last (throttle_executed t) = Some x /\
                 pending (throttle_timers t) = {[ id := (x.1 + gap, ()) ]}
  else
    pending (throttle_timers t) = ∅ /\
    forall x, last (throttle_executed t) = Some x ->
              x.1 + gap <= clock (throttle_timers t).

End TimingStatements.

(** A value that [validateMeasurement] lets pass: neither [NaN] nor below
    zero. *)
Definition acceptable (v : JS.number) : Prop :=
  JS.isNaN v = false /\ (v <? 0)%float = false.

(** * Properties *)

(** ** Numbers *)

Section NumberFacts.
Import JS.

(** Two numbers that the float comparison tells apart are different. *)
Lemma float_neq (a b : number) :
  PrimFloat.eqb a b = false -> PrimFloat.eqb a a = true -> a <> b.
Proof.
  intros Hab Haa Heq. rewrite <- Heq in Hab. congruence.
Qed.

Lemma shr_1_nonneg mrs : 0 <= shr_m mrs -> 0 <= shr_m (shr_1 mrs).
Proof.
  destruct mrs as [m r s]. cbn [shr_m]. intros Hm.
  destruct m as [|[p|p|]|p]; cbn; lia.
Qed.

Lemma iter_pos_invariant {A} (P : A -> Prop) (f : A -> A) :
  (forall a, P a -> P (f a)) -> forall p a, P a -> P (SpecFloat.iter_pos f p a).
Proof.
  intros Hf. induction p as [p IH|p IH|]; intros a Ha; cbn; auto.
Qed.

Lemma shr_fexp_nonneg prec emax m e l :
  0 <= m -> 0 <= shr_m (fst (shr_fexp prec emax m e l)).
Proof.
  intros Hm. unfold shr_fexp, shr.
  assert (H0 : 0 <= shr_m (shr_record_of_loc m l))
    by (destruct l as [|[]]; exact Hm).
  destruct (fexp prec emax (Zdigits2 m + e) - e); cbn [fst]; try exact H0.
  apply (iter_pos_invariant (fun r => 0 <= shr_m r)); auto using shr_1_nonneg.
Qed.

Lemma round_nearest_even_nonneg m l : 0 <= m -> 0 <= round_nearest_even m l.
Proof.
  intros Hm. destruct l as [|[]]; cbn; try lia. destruct (Z.even m); lia.
Qed.

Lemma binary_round_aux_not_nan prec emax s m e l :
  0 <= m -> binary_round_aux prec emax s m e l <> S754_nan.
Proof.
  intros Hm. unfold binary_round_aux.
  pose proof (shr_fexp_nonneg prec emax m e l Hm) as H1.
  destruct (shr_fexp prec emax m e l) as [mrs' e']. cbn [fst] in H1.
  pose proof (shr_fexp_nonneg prec emax
                (round_nearest_even (shr_m mrs') (loc_of_shr_record mrs'))
                e' loc_Exact (round_nearest_even_nonneg _ _ H1)) as H2.
  destruct (shr_fexp prec emax _ e' loc_Exact) as [mrs'' e'']. cbn [fst] in H2.
  destruct (shr_m mrs'') as [|p|p]; try discriminate; try lia.
  destruct (e'' <=? emax - prec); discriminate.
Qed.

Lemma binary_round_not_nan prec emax s m e :
  binary_round prec emax s m e <> S754_nan.
Proof.
  unfold binary_round. destruct (shl_align _ _ _) as [mz ez].
  apply binary_round_aux_not_nan. lia.
Qed.

Lemma is_nan_false (f : float) : Prim2SF f <> S754_nan -> is_nan f = false.
Proof.
  intros H. destruct (is_nan f) eqn:E; [|reflexivity].
  exfalso. apply H. unfold Prim2SF. now rewrite E.
Qed.

Lemma Prim2SF_not_nan (f : float) : is_nan f = false -> Prim2SF f <> S754_nan.
Proof.
  intros E. unfold Prim2SF. rewrite E.
  destruct (is_zero f); [discriminate|].
  destruct (is_infinity f); [discriminate|].
  destruct (Z.frexp f) as [r ex].
  destruct (shr_fexp _ _ _ _ _) as [shr e'].
  destruct (shr_m shr); discriminate.
Qed.

Lemma of_uint63_not_nan n : is_nan (of_uint63 n) = false.
Proof.
  apply is_nan_false. rewrite of_uint63_spec. unfold binary_normalize.
  destruct (Uint63Axioms.to_Z n); try discriminate; apply binary_round_not_nan.
Qed.

Lemma ldexp_not_nan f e : is_nan f = false -> is_nan (Z.ldexp f e) = false.
Proof.
  intros Hf. apply is_nan_false. rewrite Z_ldexp_spec. unfold SFldexp.
  pose proof (Prim2SF_not_nan f Hf).
  destruct (Prim2SF f); try congruence. apply binary_round_not_nan.
Qed.

Lemma opp_not_nan f : is_nan f = false -> is_nan (- f)%float = false.
Proof.
  intros Hf. apply is_nan_false. rewrite opp_spec.
  pose proof (Prim2SF_not_nan f Hf). destruct (Prim2SF f); cbn; congruence.
Qed.

(** No decimal literal reads as NaN. *)
Lemma float_of_ratio_not_nan (n d : Z) : isNaN (float_of_ratio n d) = false.
Proof.
  unfold isNaN, float_of_ratio. destruct (n <=? 0); [reflexivity|].
  apply ldexp_not_nan, of_uint63_not_nan.
Qed.

Lemma literal_value_not_nan (l : literal) : isNaN (literal_value l) = false.
Proof.
  destruct l as [[]|neg m e]; try reflexivity. cbn [literal_value].
  assert (H : forall f, isNaN f = false ->
                        isNaN (if neg then (- f)%float else f) = false).
  { intros f Hf. destruct neg; [apply opp_not_nan|]; exact Hf. }
  destruct (0 <=? e); apply H, float_of_ratio_not_nan.
Qed.

(** [parseFloat] gives NaN exactly when the text has no numeric prefix. *)
Lemma parseFloat_nan (s : string) :
  isNaN (parseFloat s) = true <-> read_literal (trimStart s) = None.
Proof.
  unfold parseFloat. destruct (read_literal (trimStart s)) as [l|].
  - rewrite literal_value_not_nan. split; discriminate.
  - split; reflexivity.
Qed.

End NumberFacts.

(** ** calculateMeasurements *)

Section CalculationFacts.
Import JS Calculations.

Lemma short_left (left right : list Point) :
  (List.length left < 2)%nat ->
  calculateMeasurements left right
  = {| leftDistance := 0;
       rightDistance := rightDistance (calculateMeasurements left right);
       avgWidth := 0; length := 0; area := 0; areaDecimal := 0 |}.
Proof.
  destruct left as [|l0 [|l1 left]]; cbn [List.length]; intros H;
    try lia; reflexivity.
Qed.

Lemma short_right (left right : list Point) :
  (List.length right < 2)%nat ->
  calculateMeasurements left right
  = {| leftDistance := leftDistance (calculateMeasurements left right);
       rightDistance := 0;
       avgWidth := 0; length := 0; area := 0; areaDecimal := 0 |}.
Proof.
  destruct right as [|r0 [|r1 right]]; cbn [List.length]; intros H;
    try lia; destruct left as [|l0 [|l1 left]]; reflexivity.
Qed.

Lemma leftDistance_first_two l0 l1 left right :
  leftDistance (calculateMeasurements (l0 :: l1 :: left) right) = dist l0 l1.
Proof. destruct right as [|r0 [|r1 right]]; reflexivity. Qed.

Lemma rightDistance_first_two r0 r1 left right :
  rightDistance (calculateMeasurements left (r0 :: r1 :: right)) = dist r0 r1.
Proof. destruct left as [|l0 [|l1 left]]; reflexivity. Qed.

(** C1, as the code has it: when a side has fewer than two points the
    width, length and both areas are zero and that side's distance is
    zero, while the other side's distance is still the distance between
    its first two points (zero only if it is short as well). The function
    is total, so no input makes it raise. *)
Theorem calculateMeasurements_short_side (left right : list Point) :
  (List.length left < 2)%nat \/ (List.length right < 2)%nat ->
  let r := calculateMeasurements left right in
  avgWidth r = 0%float /\ length r = 0%float /\
  area r = 0%float /\ areaDecimal r = 0%float /\
  ((List.length left < 2)%nat -> leftDistance r = 0%float) /\
  ((List.length right < 2)%nat -> rightDistance r = 0%float) /\
  (forall p0 p1 rest, left = p0 :: p1 :: rest -> leftDistance r = dist p0 p1) /\
  (forall p0 p1 rest, right = p0 :: p1 :: rest -> rightDistance r = dist p0 p1) /\
  ((List.length left < 2)%nat -> (List.length right < 2)%nat -> r = zero_result).
Proof.
  intros Hshort r. subst r.
  assert (Hzero :
    avgWidth (calculateMeasurements left right) = 0%float /\
    length (calculateMeasurements left right) = 0%float /\
    area (calculateMeasurements left right) = 0%float /\
    areaDecimal (calculateMeasurements left right) = 0%float).
  { destruct Hshort as [H|H];
      [rewrite (short_left _ _ H) | rewrite (short_right _ _ H)];
      repeat split. }
  destruct Hzero as (Hw & Hl & Ha & Hd).
  split_and!; try assumption.
  - intros H. rewrite (short_left _ _ H). reflexivity.
  - intros H. rewrite (short_right _ _ H). reflexivity.
  - intros p0 p1 rest ->. apply leftDistance_first_two.
  - intros p0 p1 rest ->. apply rightDistance_first_two.
  - intros Hl2 Hr2. rewrite (short_left _ _ Hl2).
    rewrite (short_right _ _ Hr2). reflexivity.
Qed.

Lemma calculateMeasurements_short_side_witness :
  let r := calculateMeasurements [pt 0 0; pt 3 4] [] in
  avgWidth r = 0%float /\ length r = 0%float /\
  area r = 0%float /\ areaDecimal r = 0%float /\
  rightDistance r = 0%float /\ leftDistance r = dist (pt 0 0) (pt 3 4).
Proof.
  destruct (calculateMeasurements_short_side [pt 0 0; pt 3 4] [])
    as (Hw & Hl & Ha & Hd & _ & Hr & Hleft & _).
  - right. simpl. lia.
  - split_and!; [exact Hw|exact Hl|exact Ha|exact Hd| |].
    + apply Hr. simpl. lia.
    + exact (Hleft _ _ _ eq_refl).
Defined.

(** C1 as stated fails: with two left points and no right point the left
    distance is 5, not 0. *)
Lemma short_side_not_all_zero :
  let left := [pt 0 0; pt 3 4] in
  let right : list Point := [] in
  (List.length right < 2)%nat /\
  leftDistance (calculateMeasurements left right) = 5%float /\
  calculateMeasurements left right <> zero_result.
Proof.
  cbv zeta. split; [simpl; lia|]. split; [reflexivity|].
  intros H. apply (f_equal leftDistance) in H. revert H.
  apply float_neq; reflexivity.
Qed.

(** C2, as the code has it: the two sides are 100 long, so the average
    width is 100, and the midpoints (50, 0) and (50, 50) are 50 apart. *)
Theorem scenario1_values :
  leftDistance scenario1 = 100%float /\
  rightDistance scenario1 = 100%float /\
  avgWidth scenario1 = 100%float /\
  length scenario1 = 50%float /\
  area scenario1 = 53819.5%float /\
  sqftToDecimal (area scenario1) = "123.553"%string /\
  areaDecimal scenario1 = 123.553%float /\
  near (area scenario1) 53819.5 0.05 = true /\
  near (areaDecimal scenario1) 123.6 0.05 = true.
Proof. vm_compute. repeat split. Qed.

(** C2 as stated fails: the average width is not 50 and the length is not
    100. *)
Lemma scenario1_width_and_length_swapped :
  avgWidth scenario1 <> 50%float /\ length scenario1 <> 100%float.
Proof. split; apply float_neq; reflexivity. Qed.

(** C3: with at least two points on each side, points after the second do
    not change the result, which is that of the first two points of each
    side alone. *)
Theorem calculateMeasurements_first_two
    (left right extraLeft extraRight : list Point) :
  (2 <= List.length left)%nat -> (2 <= List.length right)%nat ->
  calculateMeasurements (left ++ extraLeft) (right ++ extraRight)
  = calculateMeasurements left right /\
  forall l0 l1 r0 r1,
    left !! 0%nat = Some l0 -> left !! 1%nat = Some l1 ->
    right !! 0%nat = Some r0 -> right !! 1%nat = Some r1 ->
    calculateMeasurements left right = calculateMeasurements [l0; l1] [r0; r1].
Proof.
  destruct left as [|a0 [|a1 left]]; cbn [List.length]; try lia.
  destruct right as [|b0 [|b1 right]]; cbn [List.length]; try lia.
  intros _ _. split; [reflexivity|].
  intros l0 l1 r0 r1 H0 H1 H2 H3. simplify_eq/=. reflexivity.
Qed.

Lemma calculateMeasurements_first_two_witness :
  calculateMeasurements
    ([pt 0 0; pt 100 0] ++ [pt 7 9; pt 1 1])
    ([pt 0 50; pt 100 50] ++ [pt 200 3])
  = scenario1.
Proof.
  refine (proj1 (calculateMeasurements_first_two
                   [pt 0 0; pt 100 0] [pt 0 50; pt 100 50]
                   [pt 7 9; pt 1 1] [pt 200 3] _ _)); simpl; lia.
Defined.

End CalculationFacts.

(** ** UndoRedoManager *)

Section UndoRedoFacts.
Import UndoRedo.
Context {Snapshot : Type} (deepCopy : Snapshot -> Snapshot).

Abbreviation manager := (UndoRedo.manager Snapshot).
Abbreviation entry := (UndoRedo.entry Snapshot).
Abbreviation call := (Snapshot * string * Z)%type.

Implicit Types (m : manager) (h es : list entry) (calls : list call).

Lemma entry_eta (e : entry) :
  {| state := state e; action := action e; timestamp := timestamp e |} = e.
Proof. destruct e; reflexivity. Qed.

Lemma at_index_nat h (i : nat) : at_index h (Z.of_nat i) = h !! i.
Proof.
  unfold at_index. destruct (Z.ltb_spec (Z.of_nat i) 0); [lia|].
  by rewrite Nat2Z.id.
Qed.

Lemma tail_drop {A} (l : list A) (k : nat) : tail (drop k l) = drop (S k) l.
Proof.
  revert k. induction l as [|a l IH]; intros [|k]; simpl; try reflexivity.
  apply IH.
Qed.

Lemma push_all_snoc m calls (c : call) :
  push_all deepCopy m (calls ++ [c])
  = push deepCopy (push_all deepCopy m calls) c.1.1 c.1.2 c.2.
Proof. unfold push_all. by rewrite foldl_app. Qed.

(** *** Frame of [undo] and [redo] *)

Lemma move_to_frame m (i : Z) :
  let '(m', r) := move_to m i in
  history m' = history m /\ maxHistory m' = maxHistory m /\
  isEnabled m' = isEnabled m /\ currentIndex m' = i /\
  match r with
  | Returned item => at_index (history m) i = Some item
  | Thrown => at_index (history m) i = None
  | ReturnedNull => False
  end.
Proof.
  unfold move_to. cbn [history currentIndex].
  destruct (at_index (history m) i) as [e|] eqn:He; cbn;
    rewrite ?entry_eta; auto.
Qed.

(** On a manager whose cursor is within its history (or at -1), as every
    manager built by the constructor, [push], [undo], [redo] and [clear]
    is, neither call raises. *)
Lemma undo_redo_no_throw m :
  -1 <= currentIndex m < len m ->
  (undo m).2 <> Thrown /\ (redo m).2 <> Thrown.
Proof.
  intros Hwf. unfold undo, redo, canUndo, canRedo, move_to, at_index, len in *.
  cbn [history currentIndex].
  split.
  - destruct (Z.ltb_spec 0 (currentIndex m)); cbn [negb]; [|discriminate].
    destruct (Z.ltb_spec (currentIndex m - 1) 0); [lia|].
    destruct (lookup_lt_is_Some_2 (history m) (Z.to_nat (currentIndex m - 1)))
      as [e ->]; [lia|discriminate].
  - destruct (Z.ltb_spec (currentIndex m) (Z.of_nat (List.length (history m)) - 1));
      cbn [negb]; [|discriminate].
    destruct (Z.ltb_spec (currentIndex m + 1) 0); [lia|].
    destruct (lookup_lt_is_Some_2 (history m) (Z.to_nat (currentIndex m + 1)))
      as [e ->]; [lia|discriminate].
Qed.

(** C10: [undo] and [redo] leave the stored entries, their number, the
    bound and the enabled flag alone. A call that returns null does not
    move the cursor; a call that returns an item has moved it by exactly
    one and the item is the stored entry at the new cursor. [undo]
    returns null exactly when [canUndo] fails, [redo] when [canRedo]
    fails. *)
Theorem undo_redo_frame m :
  moves_cursor_only (-1) m (undo m) /\
  moves_cursor_only 1 m (redo m) /\
  ((undo m).2 = ReturnedNull <-> canUndo m = false) /\
  ((redo m).2 = ReturnedNull <-> canRedo m = false).
Proof.
  unfold undo, redo.
  split_and!.
  - destruct (canUndo m); cbn; [|by auto].
    pose proof (move_to_frame m (currentIndex m - 1)) as H.
    destruct (move_to m (currentIndex m - 1)) as [m' r]. cbn.
    destruct H as (Hh & Hm & He & Hi & Hr).
    rewrite Hh, Hi. destruct r; intuition (try congruence); lia.
  - destruct (canRedo m); cbn; [|by auto].
    pose proof (move_to_frame m (currentIndex m + 1)) as H.
    destruct (move_to m (currentIndex m + 1)) as [m' r]. cbn.
    destruct H as (Hh & Hm & He & Hi & Hr).
    rewrite Hh, Hi. destruct r; intuition congruence.
  - destruct (canUndo m); cbn; [|by auto].
    pose proof (move_to_frame m (currentIndex m - 1)) as H.
    destruct (move_to m (currentIndex m - 1)) as [m' [| |]]; cbn;
      split; intros; try discriminate; tauto.
  - destruct (canRedo m); cbn; [|by auto].
    pose proof (move_to_frame m (currentIndex m + 1)) as H.
    destruct (move_to m (currentIndex m + 1)) as [m' [| |]]; cbn;
      split; intros; try discriminate; tauto.
Qed.

(** *** Pushing onto a fresh manager *)

Lemma push_at_tail h (bound : Z) (c : call) :
  push deepCopy (at_tail h bound) c.1.1 c.1.2 c.2
  = if bound <? Z.of_nat (List.length h) + 1
    then at_tail (tail (h ++ [stored deepCopy c])) bound
    else at_tail (h ++ [stored deepCopy c]) bound.
Proof.
  unfold push, at_tail, len, stored. cbn.
  rewrite Z.ltb_irrefl, length_app. cbn.
  replace (Z.of_nat (List.length h + 1)) with (Z.of_nat (List.length h) + 1)
    by lia.
  destruct (Z.ltb_spec bound (Z.of_nat (List.length h) + 1)) as [Hlt|Hge].
  - f_equal. destruct h; cbn; rewrite ?length_app; cbn; lia.
  - f_equal. lia.
Qed.

(** After any number of pushes a fresh manager holds the newest
    [maxHistory] stored entries, cursor on the last one. *)
Lemma push_all_create (bound : Z) calls :
  1 <= bound ->
  push_all deepCopy (create bound) calls
  = at_tail (drop (List.length calls - Z.to_nat bound)
               (stored deepCopy <$> calls)) bound.
Proof.
  intros Hbound. induction calls as [|c calls IH] using rev_ind.
  - reflexivity.
  - rewrite push_all_snoc, IH, push_at_tail.
    rewrite fmap_app, length_app. cbn [fmap list_fmap List.length].
    set (es := stored deepCopy <$> calls).
    assert (Hes : List.length es = List.length calls)
      by (subst es; apply length_fmap).
    rewrite length_drop, Hes.
    destruct (decide (List.length calls < Z.to_nat bound)%nat) as [Hlt|Hge].
    + replace (List.length calls - Z.to_nat bound)%nat with 0%nat by lia.
      replace (List.length calls + 1 - Z.to_nat bound)%nat with 0%nat by lia.
      rewrite !drop_0.
      destruct (Z.ltb_spec bound (Z.of_nat (List.length calls - 0) + 1));
        [lia|reflexivity].
    + replace (List.length calls + 1 - Z.to_nat bound)%nat
        with (S (List.length calls - Z.to_nat bound)) by lia.
      rewrite <- tail_drop, drop_app_le by lia.
      destruct (Z.ltb_spec bound
                  (Z.of_nat (List.length calls
                             - (List.length calls - Z.to_nat bound)) + 1));
        [reflexivity|lia].
Qed.

(** A bound below one keeps nothing: every push evicts what it appended. *)
Lemma push_all_no_room (bound : Z) calls :
  bound <= 0 -> push_all deepCopy (create bound) calls = create bound.
Proof.
  intros Hbound. induction calls as [|c calls IH] using rev_ind; [reflexivity|].
  rewrite push_all_snoc, IH.
  change (create bound) with (@at_tail Snapshot [] bound).
  rewrite push_at_tail. cbn [List.length].
  destruct (Z.ltb_spec bound (Z.of_nat 0 + 1)); [reflexivity|lia].
Qed.

(** C5, as the code has it: once more than [maxHistory] snapshots were
    pushed onto a fresh manager whose bound is at least one, the history
    holds exactly [maxHistory] entries (the newest ones) and the cursor is
    on the entry stored by the last push, with nothing to redo. *)
Theorem push_beyond_bound (bound : Z) (k : nat) calls (c : call) :
  1 <= bound -> (1 <= k)%nat ->
  Z.of_nat (List.length calls) = bound + Z.of_nat k ->
  last calls = Some c ->
  let m := push_all deepCopy (create bound) calls in
  len m = bound /\
  history m = drop k (stored deepCopy <$> calls) /\
  currentIndex m = bound - 1 /\
  at_index (history m) (currentIndex m) = Some (stored deepCopy c) /\
  getCurrentState m = Some (deepCopy c.1.1) /\
  canRedo m = false.
Proof.
  intros Hbound Hk Hlen Hlast m. subst m.
  rewrite (push_all_create bound calls Hbound).
  replace (List.length calls - Z.to_nat bound)%nat with k by lia.
  set (es := stored deepCopy <$> calls).
  assert (Hes : List.length es = List.length calls)
    by (subst es; apply length_fmap).
  assert (Hdrop : List.length (drop k es) = Z.to_nat bound)
    by (rewrite length_drop; lia).
  assert (Hat : at_index (drop k es) (bound - 1) = Some (stored deepCopy c)).
  { replace (bound - 1) with (Z.of_nat (Z.to_nat bound - 1)) by lia.
    rewrite at_index_nat, lookup_drop.
    replace (k + (Z.to_nat bound - 1))%nat with (pred (List.length es)) by lia.
    rewrite <- last_lookup. subst es. by rewrite fmap_last, Hlast. }
  unfold len, getCurrentState, canRedo, len, at_tail.
  cbn [history currentIndex]. rewrite Hdrop.
  replace (Z.of_nat (Z.to_nat bound) - 1) with (bound - 1) by lia.
  rewrite Hat.
  split_and!; try reflexivity; try lia.
  destruct (Z.leb_spec 0 (bound - 1)),
    (Z.ltb_spec (bound - 1) (Z.of_nat (Z.to_nat bound))); try lia.
  reflexivity.
Qed.

(** *** Walking the history *)

Lemma undo_step h bound (n : nat) (e : entry) :
  h !! n = Some e ->
  undo (placed h (Z.of_nat (S n)) bound)
  = (placed h (Z.of_nat n) bound, Returned e).
Proof.
  intros He. unfold undo, canUndo, move_to, placed. cbn [currentIndex history].
  destruct (Z.ltb_spec 0 (Z.of_nat (S n))); [|lia]. cbn [negb].
  replace (Z.of_nat (S n) - 1) with (Z.of_nat n) by lia.
  by rewrite at_index_nat, He, entry_eta.
Qed.

Lemma redo_step h bound (n : nat) (e : entry) :
  h !! S n = Some e ->
  redo (placed h (Z.of_nat n) bound)
  = (placed h (Z.of_nat (S n)) bound, Returned e).
Proof.
  intros He. pose proof (lookup_lt_Some _ _ _ He) as Hlt.
  unfold redo, canRedo, move_to, placed, len. cbn [currentIndex history].
  destruct (Z.ltb_spec (Z.of_nat n) (Z.of_nat (List.length h) - 1)); [|lia].
  cbn [negb].
  replace (Z.of_nat n + 1) with (Z.of_nat (S n)) by lia.
  by rewrite at_index_nat, He, entry_eta.
Qed.

(** [j] undos from cursor [i + j] hand back the [j] entries below it,
    newest first, and stop at cursor [i]. *)
Lemma undo_run h bound (i j : nat) :
  (i + j < List.length h)%nat ->
  repeat_call undo j (placed h (Z.of_nat (i + j)) bound)
  = (placed h (Z.of_nat i) bound,
     Returned <$> reverse (take j (drop i h))).
Proof.
  induction j as [|j IH]; intros Hlt.
  - by rewrite Nat.add_0_r.
  - destruct (lookup_lt_is_Some_2 h (i + j)) as [e He]; [lia|].
    cbn [repeat_call].
    replace (i + S j)%nat with (S (i + j)) by lia.
    rewrite (undo_step _ _ _ _ He), IH by lia.
    rewrite (take_S_r _ _ e) by (by rewrite lookup_drop).
    by rewrite reverse_snoc.
Qed.

(** [j] redos from cursor [i] hand back the [j] entries above it, oldest
    first, and stop at cursor [i + j]. *)
Lemma redo_run h bound (i j : nat) :
  (i + j < List.length h)%nat ->
  repeat_call redo j (placed h (Z.of_nat i) bound)
  = (placed h (Z.of_nat (i + j)) bound,
     Returned <$> take j (drop (S i) h)).
Proof.
  revert i. induction j as [|j IH]; intros i Hlt.
  - by rewrite Nat.add_0_r.
  - destruct (lookup_lt_is_Some_2 h (S i)) as [e He]; [lia|].
    cbn [repeat_call].
    rewrite (redo_step _ _ _ _ He), IH by lia.
    replace (S i + j)%nat with (i + S j)%nat by lia.
    by rewrite (drop_S _ _ _ He).
Qed.

Lemma at_tail_placed h bound :
  at_tail h bound = placed h (Z.of_nat (List.length h) - 1) bound.
Proof. reflexivity. Qed.

(** C4, as the code has it: the replay holds when the number of pushes
    does not exceed the bound of the manager. *)
Theorem undo_redo_replay (bound : Z) calls :
  (1 <= List.length calls)%nat -> Z.of_nat (List.length calls) <= bound ->
  replays deepCopy bound calls /\ push_discards_redo deepCopy bound calls.
Proof.
  intros Hone Hbound.
  set (es := stored deepCopy <$> calls).
  assert (Hes : List.length es = List.length calls)
    by (subst es; apply length_fmap).
  assert (Hm : push_all deepCopy (create bound) calls
               = placed es (Z.of_nat (List.length calls - 1)) bound).
  { rewrite push_all_create by lia.
    replace (List.length calls - Z.to_nat bound)%nat with 0%nat by lia.
    rewrite drop_0, at_tail_placed. fold es. rewrite Hes. f_equal. lia. }
  split.
  - unfold replays. cbv zeta. fold es. rewrite Hm.
    pose proof (undo_run es bound 0 (List.length calls - 1)) as Hu.
    rewrite Nat.add_0_l, drop_0 in Hu. rewrite Hu by lia. cbn [fst snd].
    pose proof (redo_run es bound 0 (List.length calls - 1)) as Hr.
    rewrite Nat.add_0_l in Hr. rewrite Hr by lia. cbn [fst snd].
    split_and!.
    + reflexivity.
    + f_equal. apply take_ge. rewrite length_drop. lia.
    + reflexivity.
    + unfold placed. cbn [history currentIndex].
      rewrite at_index_nat, last_lookup. f_equal. lia.
  - intros j c Hj. cbv zeta. fold es. rewrite Hm.
    pose proof (undo_run es bound (List.length calls - 1 - j) j) as Hu.
    replace (List.length calls - 1 - j + j)%nat
      with (List.length calls - 1)%nat in Hu by lia.
    rewrite Hu by lia. cbn [fst].
    unfold push, placed, len, slice0. cbn [isEnabled negb history currentIndex maxHistory].
    rewrite Hes.
    destruct (Z.ltb_spec (Z.of_nat (List.length calls - 1 - j))
                (Z.of_nat (List.length calls) - 1)); [|lia].
    destruct (Z.ltb_spec (Z.of_nat (List.length calls - 1 - j) + 1) 0); [lia|].
    replace (Z.to_nat (Z.min (Z.of_nat (List.length calls - 1 - j) + 1)
                         (Z.of_nat (List.length calls))))
      with (List.length calls - j)%nat by lia.
    rewrite length_app, length_take, Hes. cbn [List.length].
    replace ((List.length calls - j) `min` List.length calls)%nat
      with (List.length calls - j)%nat by lia.
    destruct (Z.ltb_spec bound (Z.of_nat (List.length calls - j + 1)));
      [lia|].
    split; [reflexivity|].
    unfold redo, canRedo, len. cbn [history currentIndex].
    rewrite length_app, length_take, Hes. cbn [List.length].
    replace ((List.length calls - j) `min` List.length calls)%nat
      with (List.length calls - j)%nat by lia.
    destruct (Z.ltb_spec (Z.of_nat (List.length calls - 1 - j) + 1)
                (Z.of_nat (List.length calls - j + 1) - 1));
      [lia|reflexivity].
Qed.

End UndoRedoFacts.

(** A manager of integer snapshots, which the JSON copy returns as they
    are, pushed three times against a bound of two. *)
Lemma push_beyond_bound_witness :
  let calls := [(10, "CALCULATE"%string, 1); (20, "EDIT"%string, 2);
                (30, "CALCULATE"%string, 3)] in
  let m := UndoRedo.push_all id (UndoRedo.create 2) calls in
  UndoRedo.len m = 2 /\
  UndoRedo.history m = drop 1 (UndoRedo.stored id <$> calls) /\
  UndoRedo.currentIndex m = 2 - 1 /\
  UndoRedo.at_index (UndoRedo.history m) (UndoRedo.currentIndex m)
  = Some (UndoRedo.stored id (30, "CALCULATE"%string, 3)) /\
  UndoRedo.getCurrentState m = Some 30 /\
  UndoRedo.canRedo m = false.
Proof.
  intros calls.
  apply (push_beyond_bound id 2 1 calls (30, "CALCULATE"%string, 3));
    [lia | lia | reflexivity | reflexivity].
Defined.

(** Three snapshots on the default manager: the replay of C4. *)
Lemma undo_redo_replay_witness :
  let calls := [(10, "CALCULATE"%string, 1); (20, "EDIT"%string, 2);
                (30, "CALCULATE"%string, 3)] in
  replays id 50 calls /\ push_discards_redo id 50 calls.
Proof.
  intros calls. apply (undo_redo_replay id 50 calls); simpl; lia.
Defined.

(** C5 as stated fails: the constructor takes any bound, and a manager made
    with a bound of zero keeps nothing. After one push, which is more than
    the bound, its history is empty and the cursor is at [-1], on no entry:
    the snapshot that was pushed is not there to be addressed. *)
Lemma cursor_lost_without_room :
  let c := (10, "CALCULATE"%string, 1) in
  let m := UndoRedo.push_all id (UndoRedo.create 0) [c] in
  UndoRedo.maxHistory m = 0 /\
  UndoRedo.len m = 0 /\
  UndoRedo.currentIndex m = -1 /\
  UndoRedo.at_index (UndoRedo.history m) (UndoRedo.currentIndex m) = None /\
  UndoRedo.at_index (UndoRedo.history m) (UndoRedo.currentIndex m)
  <> Some (UndoRedo.stored id c) /\
  UndoRedo.getCurrentState m = None.
Proof. cbv zeta. split_and!; try (vm_compute; reflexivity). discriminate. Qed.

(** C4 as stated fails: the oldest of the 51 snapshots was evicted, so the
    fiftieth undo has nothing to return. *)
Lemma replay_fails_beyond_bound :
  let m := UndoRedo.push_all id UndoRedo.undoRedoManager fifty_one_calls in
  (UndoRedo.repeat_call UndoRedo.undo 50 m).2 !! 49%nat
  = Some UndoRedo.ReturnedNull /\
  ~ replays id 50 fifty_one_calls.
Proof.
  split; [vm_compute; reflexivity|].
  intros (Hundone & _).
  apply (f_equal (fun l => l !! 49%nat)) in Hundone.
  vm_compute in Hundone. discriminate.
Qed.

(** ** parseXY *)

Section ParseFacts.
Import JS Calculations.

Lemma digit_not_white (c : ascii) (d : Z) :
  digit_of c = Some d -> is_white c = false.
Proof.
  unfold digit_of, is_white. generalize (nat_of_ascii c). intros n.
  destruct (Nat.leb_spec 48 n), (Nat.leb_spec n 57); try discriminate.
  intros _. destruct (Nat.leb_spec 9 n), (Nat.leb_spec n 13), (Nat.eqb_spec n 32);
    cbn; try reflexivity; lia.
Qed.

Lemma digits_nonempty (acc v : Z) (n : nat) (s rest : string) :
  digits acc 0 s = (v, n, rest) -> n <> 0%nat ->
  exists c s' d, s = String c s' /\ digit_of c = Some d.
Proof.
  destruct s as [|c s']; cbn.
  - intros [= _ <- _]. congruence.
  - destruct (digit_of c) as [d|] eqn:Hc.
    + intros _ _. by exists c, s', d.
    + intros [= _ <- _]. congruence.
Qed.

(** A numeric token has a numeric prefix (itself). *)
Lemma numeric_token_literal (t : string) :
  spec_numeric_token t = true -> exists l, read_literal (trimStart t) = Some l.
Proof.
  unfold spec_numeric_token.
  destruct (read_sign t) as [neg s1] eqn:Hs.
  destruct (digits 0 0 s1) as [[v ni] s2] eqn:Hd.
  intros [Hni _]%andb_true_iff. apply negb_true_iff in Hni.
  assert (Hni' : ni <> 0%nat) by (by apply Nat.eqb_neq).
  destruct (digits_nonempty _ _ _ _ _ Hd Hni') as (c & s1' & d & -> & Hc).
  assert (Ht : trimStart t = t).
  { destruct t as [|c0 t']; [reflexivity|]. revert Hs. cbn.
    destruct (Ascii.eqb_spec c0 "-") as [->|_]; [reflexivity|].
    destruct (Ascii.eqb_spec c0 "+") as [->|_]; [reflexivity|].
    intros [= _ -> ->]. by rewrite (digit_not_white _ _ Hc). }
  rewrite Ht. unfold read_literal. rewrite Hs.
  assert (Hinf : String.prefix "Infinity" (String c s1') = false).
  { change (String.prefix "Infinity" (String c s1'))
      with (if ascii_dec "I" c then String.prefix "nfinity" s1' else false).
    destruct (ascii_dec "I" c) as [<-|_]; [discriminate Hc|reflexivity]. }
  rewrite Hinf, Hd, Hni.
  destruct s2 as [|c2 s3]; [by eexists|].
  destruct (Ascii.eqb c2 "."); [|by eexists].
  destruct (digits v 0 s3) as [[v' nf] s4]. cbn. by eexists.
Qed.

(** When [parseXY] returns null. *)
Lemma parseXY_None (value : string) :
  parseXY value = None <->
  value = ""%string \/
  (forall a b, split "," value <> [a; b]) \/
  exists a b, split "," value = [a; b] /\
    (read_literal (trimStart (trim a)) = None \/
     read_literal (trimStart (trim b)) = None).
Proof.
  unfold parseXY. destruct (String.eqb_spec value "") as [->|Hne].
  { split; auto. }
  destruct (split "," value) as [|a [|b [|c l]]].
  1, 2, 4: split; [intros _; right; left; congruence | reflexivity].
  destruct (isNaN (parseFloat (trim a))) eqn:Ha;
    [|destruct (isNaN (parseFloat (trim b))) eqn:Hb]; cbn.
  - apply parseFloat_nan in Ha. split; [|reflexivity].
    intros _. right; right. exists a, b. auto.
  - apply parseFloat_nan in Hb. split; [|reflexivity].
    intros _. right; right. exists a, b. auto.
  - split; [discriminate|].
    intros [?|[H|(a' & b' & [= <- <-] & [H|H])]]; try congruence.
    + by destruct (H a b).
    + apply parseFloat_nan in H. congruence.
    + apply parseFloat_nan in H. congruence.
Qed.

(** How [parseXY] decides, as the code stands: it is a total function of
    the text and returns null exactly when the text is empty, does not
    split at commas into exactly two parts, or one of the trimmed parts has
    no numeric prefix. Every text made of two numeric tokens is read. *)
Theorem parseXY_spec (value : string) :
  (parseXY value = None <->
   value = ""%string \/
   (forall a b, split "," value <> [a; b]) \/
   exists a b, split "," value = [a; b] /\
     (read_literal (trimStart (trim a)) = None \/
      read_literal (trimStart (trim b)) = None)) /\
  (spec_two_numeric_tokens value = true -> exists p, parseXY value = Some p) /\
  parseXY "100.5, 200.75" = Some {| x := 100.5; y := 200.75 |} /\
  parseXY "abc, 5" = None /\
  parseXY "" = None /\
  parseXY "5abc, 7" = Some {| x := 5; y := 7 |}.
Proof.
  split; [apply parseXY_None|].
  split; [|by vm_compute].
  unfold spec_two_numeric_tokens. intros Htwo.
  destruct (parseXY value) as [p|] eqn:Hp; [by exists p|exfalso].
  apply parseXY_None in Hp as [->|[H|(a & b & Hsplit & H)]].
  - discriminate Htwo.
  - destruct (split "," value) as [|a [|b [|c l]]]; try discriminate Htwo.
    by destruct (H a b).
  - rewrite Hsplit in Htwo. apply andb_true_iff in Htwo as [Ha Hb].
    destruct (numeric_token_literal _ Ha) as [la Hla].
    destruct (numeric_token_literal _ Hb) as [lb Hlb].
    destruct H; congruence.
Qed.

(** C7 fails on the code: "5abc" is not a numeric token, yet [parseXY]
    hands out a point for "5abc, 7" where the claim, and the function's own
    description (null if invalid), call for null. The [isNaN] test that is
    there to turn such text down only sees what [parseFloat] read, which is
    the leading number, and misses the letters behind it. *)
Lemma non_numeric_token_accepted :
  spec_numeric_token (trim "5abc") = false /\
  spec_two_numeric_tokens "5abc, 7" = false /\
  parseXY "5abc, 7" = Some {| x := 5; y := 7 |}.
Proof. by vm_compute. Qed.

End ParseFacts.

(** ** Measurement: addPoint and updatePoint *)

Section MeasurementFacts.
Import JS Measurement.

(** The guard lets a point through exactly when it is truthy and both
    coordinates are of type number. *)
Lemma checked_point_Some (point : value) (p : Point) :
  checked_point point = Some p <->
  truthy point = true /\
  get point "x" = Some (Num (x p)) /\ get point "y" = Some (Num (y p)).
Proof.
  unfold checked_point. destruct p as [px py]. cbn [x y].
  destruct (truthy point); cbn [negb].
  2: { split; [discriminate|]. intros [? _]. discriminate. }
  destruct (get point "x") as [[| | |qx| | |]|], (get point "y") as [[| | |qy| | |]|];
    split; try discriminate; try (intros (_ & ? & ?); discriminate).
  - intros [= -> ->]. auto.
  - intros (_ & [= ->] & [= ->]). reflexivity.
Qed.

Lemma checked_point_numbers (px py : number) :
  checked_point (point_value px py) = Some {| x := px; y := py |}.
Proof. reflexivity. Qed.

(** C6, as the code has it: [addPoint] and [updatePoint] turn a point down
    only when the side is not 'left' or 'right', the index is out of range
    ([updatePoint]), or the point is missing or has a coordinate that is not
    of type number; a call that is turned down leaves the measurement as it
    was. A point whose coordinates are numbers is taken whatever the
    numbers are, NaN and the infinities included. *)
Theorem addPoint_updatePoint_guard
    (m : t) (side : string) (index : Z) (point : value) (now : string) :
  let added := addPoint m side point now in
  let updated := updatePoint m side index point now in
  (added.2 = false -> added.1 = m) /\
  (updated.2 = false -> updated.1 = m) /\
  (added.2 = false <-> valid_side side = false \/ checked_point point = None) /\
  (updated.2 = false <->
   valid_side side = false \/ index < 0 \/
   Z.of_nat (List.length (pointsArray m side)) <= index \/
   checked_point point = None) /\
  (forall px py : number,
     valid_side side = true ->
     addPoint m side (point_value px py) now
     = (with_points m side (pointsArray m side ++ [{| x := px; y := py |}]) now,
        true)) /\
  (forall px py : number,
     valid_side side = true ->
     0 <= index < Z.of_nat (List.length (pointsArray m side)) ->
     updatePoint m side index (point_value px py) now
     = (with_points m side
          (<[Z.to_nat index := {| x := px; y := py |}]> (pointsArray m side)) now,
        true)).
Proof.
  cbv zeta. unfold addPoint, updatePoint.
  destruct (valid_side side); cbn [negb].
  2: { split_and!; auto; try discriminate; split; auto. }
  destruct (Z.ltb_spec index 0) as [Hneg|Hnn]; cbn [orb];
    [|destruct (Z.leb_spec (Z.of_nat (List.length (pointsArray m side))) index)
        as [Hbig|Hin]];
    destruct (checked_point point) as [p|]; cbn [fst snd];
    split_and!; auto; try discriminate;
    try (split; [discriminate|intros [?|[?|[?|?]]]; (discriminate || lia)]);
    try (split; [discriminate|intros [?|?]; discriminate]);
    try (split; auto; fail);
    try (intros; lia).
Qed.

(** C6 as stated fails: a NaN abscissa is added and an infinite ordinate is
    written into place, and both calls succeed. *)
Lemma non_finite_point_accepted :
  let now := "2025-12-25T00:00:00.000Z"%string in
  let added := addPoint sample "left" (point_value nan 0) now in
  let updated := updatePoint sample "right" 1 (point_value 0 infinity) now in
  isFinite nan = false /\ isFinite infinity = false /\
  added.2 = true /\
  leftPoints added.1 = leftPoints sample ++ [{| x := nan; y := 0 |}] /\
  updated.2 = true /\
  rightPoints updated.1 = [{| x := 0; y := 50 |}; {| x := 0; y := infinity |}] /\
  added.1 <> sample /\ updated.1 <> sample.
Proof.
  cbv zeta. split_and!; try (vm_compute; reflexivity).
  - intros H. apply (f_equal (fun m => List.length (leftPoints m))) in H.
    vm_compute in H. discriminate.
  - intros H. apply (f_equal updatedAt) in H. vm_compute in H. discriminate.
Qed.

End MeasurementFacts.

(** ** The store *)

Section StoreFacts.
Import JS StateManager.

(** Strict equality on numbers: equal operands are two zeros or the very
    same number. *)
Lemma SFeqb_true (a b : spec_float) :
  SFeqb a b = true ->
  (exists s t, a = S754_zero s /\ b = S754_zero t) \/ a = b.
Proof.
  unfold SFeqb, SFcompare.
  destruct a as [s| s| |s m e], b as [t| t| |t n f];
    try discriminate; try (destruct s; discriminate);
    try (destruct t; discriminate).
  - intros _. left. by exists s, t.
  - destruct s, t; try discriminate; auto.
  - destruct s, t; try discriminate;
      destruct (Z.compare_spec e f) as [->| |]; try discriminate;
      rewrite Pos.compare_cont_spec; cbn;
      destruct (Pos.compare_spec m n) as [->| |]; try discriminate; auto.
Qed.

Lemma float_eqb_trans (a b c : number) :
  PrimFloat.eqb a b = true -> PrimFloat.eqb a c = true ->
  PrimFloat.eqb b c = true.
Proof.
  rewrite !FloatAxioms.eqb_spec. intros Hab Hac.
  destruct (SFeqb_true _ _ Hab) as [(s & t & Ha & Hb)|Hb];
    destruct (SFeqb_true _ _ Hac) as [(s' & t' & Ha' & Hc)|Hc].
  - rewrite Hb, Hc. reflexivity.
  - rewrite Hb, <- Hc, Ha. reflexivity.
  - rewrite <- Hb, Ha', Hc. reflexivity.
  - rewrite <- Hb, <- Hc. rewrite Hb in Hab. congruence.
Qed.

(** Two values strictly equal to a third are strictly equal. *)
Lemma strict_eq_trans (a b c : value) :
  strict_eq a b = true -> strict_eq a c = true -> strict_eq b c = true.
Proof.
  destruct a, b; try discriminate; destruct c; try discriminate; cbn; auto.
  - destruct b, b0, b1; auto.
  - apply float_eqb_trans.
  - intros ->%String.eqb_eq ->%String.eqb_eq. apply String.eqb_refl.
Qed.

Lemma findIndex_Some (projectId : value) (ps : list Project.t) (i : nat) :
  findIndex projectId ps = Some i ->
  exists p, ps !! i = Some p /\ has_id projectId p = true.
Proof.
  revert i. induction ps as [|p ps IH]; intros i; cbn; [discriminate|].
  destruct (has_id projectId p) eqn:Hp.
  - intros [= <-]. by exists p.
  - destruct (findIndex projectId ps) as [j|]; cbn; [|discriminate].
    intros [= <-]. by apply IH.
Qed.

Lemma getProject_Some (s : t) (projectId : value) (p : Project.t) :
  getProject s projectId = Some p ->
  p ∈ projects s /\ has_id projectId p = true.
Proof.
  unfold getProject. intros [Hin Hid]%find_some. split; [|exact Hid].
  by apply list_elem_of_In.
Qed.

Lemma removeProject_preserves (s : t) (projectId : value) :
  current_resolves s -> current_resolves (removeProject s projectId).1.
Proof.
  unfold removeProject, current_resolves.
  destruct (findIndex projectId (projects s)) as [i|] eqn:Hi; [|auto].
  destruct (findIndex_Some _ _ _ Hi) as (q & Hq & Hqid).
  destruct (strict_eq (currentProjectId s) projectId) eqn:Hcur; cbn.
  - congruence.
  - intros Hinv Hnn. destruct (Hinv Hnn) as (p & Hp & Hpid).
    exists p. split; [|exact Hpid].
    apply list_elem_of_lookup in Hp as [j Hj].
    destruct (decide (j = i)) as [->|Hne].
    + exfalso. assert (p = q) as -> by congruence.
      unfold has_id in *.
      pose proof (strict_eq_trans _ _ _ Hpid Hqid). congruence.
    + apply list_elem_of_lookup.
      destruct (decide (j < i)%nat).
      * exists j. by rewrite list_lookup_delete_lt.
      * exists (pred j). rewrite list_lookup_delete_ge by lia.
        by replace (S (pred j)) with j by lia.
Qed.

Lemma setCurrentProject_preserves (s : t) (projectId : value) :
  current_resolves s -> current_resolves (setCurrentProject s projectId).1.
Proof.
  unfold setCurrentProject, current_resolves.
  destruct (truthy projectId); cbn; [|congruence].
  destruct (getProject s projectId) as [p|] eqn:Hp; cbn; [|auto].
  intros _ _. exists p. by apply getProject_Some.
Qed.

Lemma addProject_preserves (s s' : t) (project : Project.t) (added : bool) :
  addProject s project = Normal (s', added) ->
  current_resolves s -> current_resolves s'.
Proof.
  unfold addProject, current_resolves.
  destruct (Project.validate project (projects s)) as [v|e]; cbn; [|discriminate].
  destruct (Validation.valid v); cbn; intros [= <- <-]; [|auto].
  cbn. intros Hinv Hnn. destruct (Hinv Hnn) as (p & Hp & Hpid).
  exists p. split; [|exact Hpid]. apply elem_of_app. by left.
Qed.

Lemma updateSettings_preserves (s : t) (updates : value) :
  current_resolves s -> current_resolves (updateSettings s updates).
Proof. auto. Qed.

Lemma clearAll_preserves (s : t) : current_resolves (clearAll s).
Proof. intros H. by destruct H. Qed.

(** On a store with no current project, as at start-up, [loadState]
    establishes the invariant. *)
Lemma loadState_fresh (s : t) (data : value) :
  currentProjectId s = Null -> current_resolves (loadState s data).
Proof.
  intros Hnull. unfold loadState.
  assert (Hs : current_resolves s) by (intros H; congruence).
  destruct (get data "projects") as [dp|]; [|exact Hs].
  destruct (match or_else dp (Arr []) with
            | Arr items => mapM Project.fromJSON items
            | _ => Throw TypeError
            end) as [ps|e]; [|exact Hs].
  match goal with
  | |- current_resolves (if _ then (setCurrentProject ?s2 _).1 else _) =>
      assert (Hs2 : current_resolves s2) by (intros H; cbn in H; congruence)
  end.
  destruct (truthy _); [by apply setCurrentProject_preserves|exact Hs2].
Qed.

(** X23: every operation that writes [projects] or [currentProjectId],
    other than [loadState] on a store that already has a current project,
    keeps the invariant that a current project id that is not [null] is the
    id of a stored project. *)
Lemma store_operations_preserve (s : t) :
  current_resolves initial /\
  (current_resolves s ->
   (forall projectId, current_resolves (removeProject s projectId).1) /\
   (forall projectId, current_resolves (setCurrentProject s projectId).1) /\
   (forall project s' added,
      addProject s project = Normal (s', added) -> current_resolves s') /\
   (forall updates, current_resolves (updateSettings s updates)) /\
   current_resolves (clearAll s)) /\
  (forall data, currentProjectId s = Null -> current_resolves (loadState s data)).
Proof.
  split_and!.
  - apply (clearAll_preserves s).
  - intros Hs. split_and!; intros.
    + by apply removeProject_preserves.
    + by apply setCurrentProject_preserves.
    + by eapply addProject_preserves.
    + by apply updateSettings_preserves.
    + apply clearAll_preserves.
  - intros. by apply loadState_fresh.
Qed.

(** C8 fails on the code: [loadState] replaces the projects but, when the
    snapshot names no current project (or one that does not resolve), keeps
    the previous [currentProjectId], which then refers to no project. *)
Theorem loadState_leaves_stale_current :
  current_resolves store_alpha /\
  currentProjectId store_alpha = Str "a-1" /\
  Project.id <$> projects (loadState store_alpha snapshot_beta) = [Str "b-2"] /\
  currentProjectId (loadState store_alpha snapshot_beta) = Str "a-1" /\
  ~ current_resolves (loadState store_alpha snapshot_beta).
Proof.
  split_and!; try (vm_compute; reflexivity).
  - apply loadState_fresh. reflexivity.
  - intros H. destruct H as (p & Hp & Hid); [vm_compute; discriminate|].
    assert (Hps : exists b, projects (loadState store_alpha snapshot_beta) = [b]
                            /\ Project.id b = Str "b-2")
      by (eexists; split; vm_compute; reflexivity).
    destruct Hps as (b & Hps & Hb). rewrite Hps in Hp.
    apply list_elem_of_singleton in Hp as ->.
    unfold has_id in Hid. rewrite Hb in Hid.
    vm_compute in Hid. discriminate.
Qed.

End StoreFacts.

(** ** Importing a backup *)

Section ImportFacts.
Import JS StateManager PersistenceManager.

(** [Project.fromJSON] raises on [null] and [undefined] only. *)
Lemma fromJSON_Throw (data : value) :
  (exists e, Project.fromJSON data = Throw e) <-> data = Undefined \/ data = Null.
Proof.
  destruct data; cbn; split;
    try (intros [e He]; discriminate); try (intros [H|H]; discriminate);
    eauto.
Qed.

(** Keys that the merged value does not have keep their setting. *)
Lemma assign_absent (o : object) (v : value) (k : string) :
  k ∉ (own_entries v).*1 -> assign o v !! k = o !! k.
Proof.
  unfold assign. generalize (own_entries v). intros entries. revert o.
  induction entries as [|[k' x] entries IH]; intros o Hk; [reflexivity|].
  cbn in Hk |- *. apply not_elem_of_cons in Hk as [Hne Hk].
  rewrite IH by exact Hk. by apply lookup_insert_ne.
Qed.

(** A key takes the value of its last entry in the merged value. *)
Lemma assign_present (o : object) (v : value) (k : string) (x : value)
    (before after : list (string * value)) :
  own_entries v = before ++ (k, x) :: after -> k ∉ after.*1 ->
  assign o v !! k = Some x.
Proof.
  unfold assign. intros -> Hk. rewrite foldl_app. cbn [foldl].
  generalize (foldl (fun acc kv => <[kv.1:=kv.2]> acc) o before). intros o'.
  change (assign (<[k:=x]> o') (Obj after) !! k = Some x).
  rewrite assign_absent by exact Hk. apply lookup_insert_eq.
Qed.

(** Merging is a union in which the merged value wins. *)
Lemma assign_union (o : object) (v : value) : assign o v = assign ∅ v ∪ o.
Proof.
  unfold assign. generalize (own_entries v). intros entries.
  induction entries as [|[k x] entries IH] using rev_ind.
  - cbn. by rewrite (left_id_L ∅ (∪)).
  - rewrite !foldl_app. cbn [foldl fst snd]. rewrite IH.
    by rewrite insert_union_l.
Qed.

(** Reading the projects of a document raises exactly when one of them is
    [null] or [undefined], and the error is then a TypeError. *)
Lemma mapM_fromJSON_cases (items : list value) :
  (Null ∈ items \/ Undefined ∈ items ->
   JS.mapM Project.fromJSON items = Throw TypeError) /\
  (Null ∉ items -> Undefined ∉ items ->
   exists ps, JS.mapM Project.fromJSON items = Normal ps).
Proof.
  induction items as [|item items [IHbad IHgood]]; cbn [JS.mapM].
  { split; [|by exists []]. by intros [?%elem_of_nil|?%elem_of_nil]. }
  destruct (Project.fromJSON item) as [p|e] eqn:Hitem; cbn [bind].
  - assert (Hok : item <> Null /\ item <> Undefined)
      by (split; intros ->; discriminate).
    split.
    + intros Hbad. rewrite IHbad; [reflexivity|].
      destruct Hbad as [H|H]; apply elem_of_cons in H as [H|H];
        try (by destruct Hok); auto.
    + intros Hn Hu. apply not_elem_of_cons in Hn as [_ Hn].
      apply not_elem_of_cons in Hu as [_ Hu].
      destruct (IHgood Hn Hu) as [ps ->]. by exists (p :: ps).
  - assert (He : e = TypeError /\ (item = Undefined \/ item = Null)).
    { destruct item; cbn in Hitem; try discriminate;
        injection Hitem as <-; auto. }
    destruct He as [-> Hitem'].
    split; [done|].
    intros Hn Hu. exfalso.
    destruct Hitem' as [-> | ->]; [apply Hu|apply Hn]; left.
Qed.

(** C9, as the code has it. A document whose [projects] or [version] is
    missing or falsy is rejected with the invalid-format error; a file that
    is not JSON, a document that is [null] or [undefined], a [projects]
    that is truthy but not an array or that holds a [null] or [undefined]
    is rejected with the error raised in reading it; and every rejected
    import leaves the store as it was. A valid import, which is a document
    with a truthy [version] and an array of projects none of which is
    [null] or [undefined], is always accepted: it replaces the stored
    projects by the document's and merges the document's settings over the
    stored ones, so that a setting the document does not mention keeps its
    stored value. Nothing else is accepted. *)
Theorem importAllData_spec (stateManager : option t) (file : content) :
  let result := importAllData stateManager file in
  (forall e, result.2 = Rejected e -> result.1 = stateManager) /\
  (forall data dp dv,
     file = Parsed data ->
     get data "projects" = Some dp -> get data "version" = Some dv ->
     truthy dp && truthy dv = false ->
     result = (stateManager, Rejected invalid_format)) /\
  (file = Unparsable -> result = (stateManager, Rejected SyntaxError)) /\
  (forall data,
     file = Parsed data ->
     data = Null \/ data = Undefined \/
     (exists dp dv, get data "projects" = Some dp /\
                    get data "version" = Some dv /\ truthy dv = true /\
                    truthy dp = true /\ forall items, dp <> Arr items) \/
     (exists items dv, get data "projects" = Some (Arr items) /\
                       get data "version" = Some dv /\ truthy dv = true /\
                       (Null ∈ items \/ Undefined ∈ items)) ->
     result = (stateManager, Rejected TypeError)) /\
  (forall data items dv,
     file = Parsed data ->
     get data "projects" = Some (Arr items) ->
     get data "version" = Some dv -> truthy dv = true ->
     Null ∉ items -> Undefined ∉ items ->
     exists ps,
       JS.mapM Project.fromJSON items = Normal ps /\
       let docSettings :=
         or_else (default Undefined (get data "settings")) (Obj []) in
       result = ((fun s => imported s ps docSettings) <$> stateManager,
                 Resolved true) /\
       forall s, stateManager = Some s ->
       exists s', result.1 = Some s' /\
         projects s' = ps /\
         settings s' = assign ∅ docSettings ∪ settings s /\
         (forall k x, assign ∅ docSettings !! k = Some x ->
                      settings s' !! k = Some x) /\
         (forall k, k ∉ (own_entries docSettings).*1 ->
                    settings s' !! k = settings s !! k)) /\
  (forall v, result.2 = Resolved v ->
     v = true /\
     exists data items dv,
       file = Parsed data /\
       get data "projects" = Some (Arr items) /\
       get data "version" = Some dv /\ truthy dv = true /\
       (Null ∉ items) /\ (Undefined ∉ items)).
Proof.
  cbv zeta. split_and!.
  - intros e. unfold importAllData.
    repeat case_match; cbn [fst snd]; intros; (reflexivity || discriminate).
  - intros data dp dv -> Hdp Hdv [Ht|Ht]%andb_false_iff;
      unfold importAllData; rewrite Hdp, Hdv, Ht; cbn [negb orb];
      [|rewrite orb_true_r]; reflexivity.
  - by intros ->.
  - intros data ->
      [->|[->|[(dp & dv & Hdp & Hdv & Tdv & Tdp & Hnot)
              |(items & dv & Hdp & Hdv & Tdv & Hbad)]]];
      try reflexivity; unfold importAllData; rewrite Hdp, Hdv, Tdv.
    + rewrite Tdp. cbn [negb orb].
      destruct dp; try reflexivity. by destruct (Hnot items).
    + cbn [truthy negb orb].
      by rewrite (proj1 (mapM_fromJSON_cases items) Hbad).
  - intros data items dv -> Hdp Hdv Tdv Hn Hu.
    destruct (proj2 (mapM_fromJSON_cases items) Hn Hu) as [ps Hps].
    exists ps. split; [exact Hps|].
    assert (Hresult :
      importAllData stateManager (Parsed data)
      = ((fun s => imported s ps
                     (or_else (default Undefined (get data "settings")) (Obj [])))
           <$> stateManager, Resolved true)).
    { unfold importAllData. rewrite Hdp, Hdv, Tdv. cbn [truthy negb orb].
      rewrite Hps. reflexivity. }
    split; [exact Hresult|].
    intros s ->. rewrite Hresult. cbn [fst fmap option_fmap option_map].
    eexists. split; [reflexivity|]. cbn [imported projects settings].
    assert (Hmerge : assign (settings s)
                       (or_else (default Undefined (get data "settings")) (Obj []))
                     = assign ∅
                         (or_else (default Undefined (get data "settings")) (Obj []))
                       ∪ settings s) by apply assign_union.
    split_and!.
    + reflexivity.
    + exact Hmerge.
    + intros k x Hk. rewrite Hmerge. by apply lookup_union_Some_l.
    + intros k Hk. by apply assign_absent.
  - intros v. unfold importAllData.
    destruct file as [|data]; cbn [snd]; [discriminate|].
    destruct (get data "projects") as [dp|] eqn:Hdp; [|discriminate].
    destruct (get data "version") as [dv|] eqn:Hdv; [|discriminate].
    destruct (truthy dp) eqn:Tdp; [|discriminate].
    destruct (truthy dv) eqn:Tdv; [|discriminate]. cbn [negb orb].
    destruct dp as [| | | | |items|]; try discriminate.
    destruct (JS.mapM Project.fromJSON items) as [ps|e] eqn:Hps;
      cbn [fst snd]; [|discriminate].
    intros [= <-]. split; [reflexivity|].
    exists data, items, dv. split_and!; auto.
    + intros Hbad.
      rewrite (proj1 (mapM_fromJSON_cases items) (or_introl Hbad)) in Hps.
      discriminate.
    + intros Hbad.
      rewrite (proj1 (mapM_fromJSON_cases items) (or_intror Hbad)) in Hps.
      discriminate.
Qed.

(** C9 as stated fails: the import is accepted and replaces the projects,
    but the grid setting of the store survives it, so the settings are
    neither the document's nor the document's over the defaults. *)
Lemma import_merges_settings :
  let result := importAllData (Some store_custom) (Parsed backup_document) in
  result.2 = Resolved true /\
  (Project.id <$> default [] (projects <$> result.1)) = [Str "b-2"] /\
  (default ∅ (settings <$> result.1)) !! "theme"%string = Some (Str "dark") /\
  (default ∅ (settings <$> result.1)) !! "showGrid"%string = Some (Bool false) /\
  default ∅ (settings <$> result.1)
  <> assign ∅ (Obj [("theme"%string, Str "dark")]) /\
  default ∅ (settings <$> result.1)
  <> assign getDefaultSettings (Obj [("theme"%string, Str "dark")]).
Proof.
  cbv zeta. split_and!; try (vm_compute; reflexivity).
  - intros H. apply (f_equal (fun o : object => o !! "showGrid"%string)) in H.
    vm_compute in H. discriminate.
  - intros H. apply (f_equal (fun o : object => o !! "showGrid"%string)) in H.
    vm_compute in H. discriminate.
Qed.

(** The import does not go through [setCurrentProject] either: the current
    project id of the store survives the replacement of the projects. *)
Lemma import_leaves_stale_current :
  let result := importAllData (Some store_alpha) (Parsed backup_document) in
  result.2 = Resolved true /\
  (Project.id <$> default [] (projects <$> result.1)) = [Str "b-2"] /\
  default Null (currentProjectId <$> result.1) = Str "a-1".
Proof. cbv zeta. split_and!; vm_compute; reflexivity. Qed.

End ImportFacts.


(** ** Parsing and checking coordinates *)

Section CoordinateFacts.
Import JS Calculations Validation.

Lemma append_nil_l (b : string) : "" +:+ b = b.
Proof. reflexivity. Qed.

Lemma append_cons (c : ascii) (a b : string) :
  String c a +:+ b = String c (a +:+ b).
Proof. reflexivity. Qed.

Lemma append_assoc (a b c : string) : (a +:+ b) +:+ c = a +:+ (b +:+ c).
Proof.
  induction a as [|ch a IH]; [reflexivity|].
  rewrite !append_cons. by rewrite IH.
Qed.

Lemma append_nil_r (a : string) : a +:+ "" = a.
Proof.
  induction a as [|ch a IH]; [reflexivity|]. rewrite append_cons. by rewrite IH.
Qed.

Lemma rev_app_append (a b : string) : String.rev_app a b = String.rev a +:+ b.
Proof.
  revert b. unfold String.rev. induction a as [|c a IH]; intros b.
  - reflexivity.
  - cbn [String.rev_app]. rewrite (IH (String c b)), (IH (String c "")).
    rewrite append_assoc. reflexivity.
Qed.

(** Splitting at a character yields one part more than the character
    occurs, and joining the parts with it gives the text back. *)
Lemma split_go_length (sep : ascii) (cur s : string) :
  List.length (split_go sep cur s) = S (count_char sep s).
Proof.
  revert cur. induction s as [|c s IH]; intros cur; cbn [split_go count_char];
    [reflexivity|].
  destruct (Ascii.eqb c sep); cbn [List.length]; by rewrite IH.
Qed.

Lemma split_go_join (sep : ascii) (cur s : string) :
  join (String sep "") (split_go sep cur s) = String.rev cur +:+ s.
Proof.
  revert cur. induction s as [|c s IH]; intros cur.
  - cbn [split_go join]. by rewrite append_nil_r.
  - cbn [split_go]. destruct (Ascii.eqb_spec c sep) as [->|Hne].
    + pose proof (split_go_length sep "" s) as Hlen.
      specialize (IH ""%string).
      destruct (split_go sep "" s) as [|part parts]; [discriminate|].
      change (join (String sep "") (String.rev cur :: part :: parts))
        with (String.rev cur +:+ String sep "" +:+ join (String sep "") (part :: parts)).
      rewrite IH. reflexivity.
    + rewrite IH. unfold String.rev at 1. cbn [String.rev_app].
      rewrite (rev_app_append cur (String c "")), append_assoc. reflexivity.
Qed.

Lemma includes_count (c : ascii) (s : string) :
  includes c s = negb (count_char c s =? 0)%nat.
Proof.
  induction s as [|c' s IH]; cbn; [reflexivity|].
  destruct (Ascii.eqb c' c); cbn; [reflexivity|exact IH].
Qed.

Lemma parseXY_reads (value : string) (p : Point) :
  parseXY value = Some p ->
  count_char "," value = 1%nat /\
  exists before after,
    value = before +:+ "," +:+ after /\
    x p = parseFloat (trim before) /\ y p = parseFloat (trim after) /\
    isNaN (x p) = false /\ isNaN (y p) = false.
Proof.
  unfold parseXY. destruct (String.eqb value ""); [discriminate|].
  pose proof (split_go_length "," "" value) as Hlen.
  pose proof (split_go_join "," "" value) as Hjoin.
  unfold split. destruct (split_go "," "" value) as [|a [|b [|c l]]];
    try discriminate.
  destruct (isNaN (parseFloat (trim a))) eqn:Ha; [discriminate|].
  destruct (isNaN (parseFloat (trim b))) eqn:Hb; [discriminate|].
  intros [= <-]. cbn in Hlen, Hjoin |- *.
  split; [congruence|]. exists a, b. by rewrite Hjoin.
Qed.

(** X1: a point returned by [parseXY] comes from a text with exactly one
    comma; its coordinates are [parseFloat] of the trimmed text before and
    after the comma, and neither of them is NaN. *)
Theorem parseXY_Some (value : string) (p : Point) :
  parseXY value = Some p ->
  count_char "," value = 1%nat /\
  exists before after,
    value = before +:+ "," +:+ after /\
    x p = parseFloat (trim before) /\ y p = parseFloat (trim after) /\
    isNaN (x p) = false /\ isNaN (y p) = false.
Proof.
  apply parseXY_reads.
Qed.

Lemma parseXY_Some_witness :
  count_char "," "100.5, 200.75" = 1%nat /\
  exists before after,
    "100.5, 200.75"%string = before +:+ "," +:+ after /\
    100.5%float = parseFloat (trim before) /\
    200.75%float = parseFloat (trim after) /\
    isNaN 100.5 = false /\ isNaN 200.75 = false.
Proof.
  exact (parseXY_Some "100.5, 200.75" {| x := 100.5; y := 200.75 |} eq_refl).
Defined.

(** A number that is not NaN and not above the maximum is finite. *)
Lemma within_maximum_finite (v : number) :
  isNaN v = false -> (MAX_COORDINATE <? PrimFloat.abs v)%float = false ->
  isFinite v = true.
Proof.
  unfold isNaN, isFinite, is_finite. intros -> Hmax. cbn [orb].
  unfold is_infinity. destruct (PrimFloat.eqb (PrimFloat.abs v) infinity) eqn:Heq;
    [|reflexivity].
  exfalso. rewrite FloatAxioms.eqb_spec in Heq.
  destruct (SFeqb_true _ _ Heq) as [(s & t & _ & Hinf)|Hinf].
  - vm_compute in Hinf. discriminate.
  - apply Prim2SF_inj in Hinf. rewrite Hinf in Hmax.
    vm_compute in Hmax. discriminate.
Qed.

Lemma blank_test (value : string) :
  String.eqb value "" || String.eqb (trim value) "" = true <-> trim value = ""%string.
Proof.
  destruct (String.eqb_spec value "") as [->|_]; cbn; [by split|].
  destruct (String.eqb_spec (trim value) ""); split; congruence.
Qed.

(** X2: [validateCoordinate] reports valid without a point exactly for
    blank text; it hands out a point exactly when the text is not blank,
    [parseXY] reads that point and neither coordinate exceeds 1,000,000 in
    magnitude, and such a point has finite coordinates; a result that is
    not valid carries a message and no point, and text without a comma that
    is not blank is never valid. *)
Theorem validateCoordinate_spec (value : string) :
  let r := validateCoordinate value in
  (Coordinate.valid r = true /\ Coordinate.point r = None <->
   trim value = ""%string) /\
  (forall p, Coordinate.point r = Some p <->
     trim value <> ""%string /\ parseXY value = Some p /\
     (MAX_COORDINATE <? PrimFloat.abs (x p))%float = false /\
     (MAX_COORDINATE <? PrimFloat.abs (y p))%float = false) /\
  (forall p, Coordinate.point r = Some p ->
     Coordinate.valid r = true /\ isFinite (x p) = true /\ isFinite (y p) = true) /\
  (Coordinate.valid r = false <-> is_Some (Coordinate.error r)) /\
  (includes "," value = false -> trim value <> ""%string ->
   Coordinate.valid r = false).
Proof.
  cbv zeta. unfold validateCoordinate.
  pose proof (blank_test value) as Hblank.
  destruct (String.eqb value "" || String.eqb (trim value) "").
  { assert (Hb : trim value = ""%string) by (by apply Hblank).
    cbn. split_and!.
    - by split.
    - intros p. split; [discriminate|]. intros [? _]. congruence.
    - discriminate.
    - split; [discriminate|]. intros [? [=]].
    - congruence. }
  assert (Hb : trim value <> ""%string).
  { intros H. apply Hblank in H. discriminate. }
  assert (Hfail : forall message : string,
    (parseXY value = None \/
     exists q, parseXY value = Some q /\
       ((MAX_COORDINATE <? PrimFloat.abs (x q))%float = true \/
        (MAX_COORDINATE <? PrimFloat.abs (y q))%float = true)) ->
    (false = true /\ @None Point = None <-> trim value = ""%string) /\
    (forall p, @None Point = Some p <->
       trim value <> ""%string /\ parseXY value = Some p /\
       (MAX_COORDINATE <? PrimFloat.abs (x p))%float = false /\
       (MAX_COORDINATE <? PrimFloat.abs (y p))%float = false) /\
    (forall p, @None Point = Some p ->
       false = true /\ isFinite (x p) = true /\ isFinite (y p) = true) /\
    (false = false <-> is_Some (Some message)) /\
    (includes "," value = false -> trim value <> ""%string -> false = false)).
  { intros message Hwhy. split_and!.
    - split; [intros [? _]; discriminate|congruence].
    - intros p. split; [discriminate|]. intros (_ & Hp & Hpx & Hpy).
      destruct Hwhy as [Hno|(q & Hq & [Hq'|Hq'])]; congruence.
    - discriminate.
    - split; [by eexists|reflexivity].
    - reflexivity. }
  destruct (includes "," value) eqn:Hinc; cbn [negb].
  2: { apply Hfail. left.
       destruct (parseXY value) as [q|] eqn:Hq; [|reflexivity].
       apply parseXY_reads in Hq as [Hcount _].
       rewrite includes_count, Hcount in Hinc. discriminate. }
  destruct (parseXY value) as [q|] eqn:Hq; [|apply Hfail; by left].
  destruct (MAX_COORDINATE <? PrimFloat.abs (x q))%float eqn:Hx; cbn [orb];
    [apply Hfail; right; exists q; auto|].
  destruct (MAX_COORDINATE <? PrimFloat.abs (y q))%float eqn:Hy;
    [apply Hfail; right; exists q; auto|].
  destruct (parseXY_reads _ _ Hq) as (_ & a & b & _ & _ & _ & Hnx & Hny).
  pose proof (within_maximum_finite _ Hnx Hx) as Hfx.
  pose proof (within_maximum_finite _ Hny Hy) as Hfy.
  cbn. split_and!.
  - split; [intros [_ [=]]|congruence].
  - intros p. split; [intros [= <-]; auto|]. intros (_ & [= <-] & _). reflexivity.
  - intros p [= <-]. auto.
  - split; [discriminate|]. intros [? [=]].
  - congruence.
Qed.

End CoordinateFacts.

(** ** Identifiers *)

Section UUIDFacts.
Import JS Calculations Validation.

Lemma nibble_digit (v : Z) :
  0 <= v <= 15 ->
  toString16 v = String (hex_char v) "" /\
  in_class Hex (hex_char v) = true /\
  toString16 (Z.lor (Z.land v 3) 8) = String (hex_char (Z.lor (Z.land v 3) 8)) "" /\
  in_class Variant (hex_char (Z.lor (Z.land v 3) 8)) = true.
Proof.
  intros Hv.
  assert (Hn : exists n : nat, (n < 16)%nat /\ v = Z.of_nat n)
    by (exists (Z.to_nat v); lia).
  destruct Hn as (n & Hn & ->).
  do 16 (destruct n as [|n]; [by vm_compute|]). lia.
Qed.

Lemma fill_template_matches (r : nat -> Z) (template : string) :
  (forall i, 0 <= r i <= 15) ->
  forall (pattern : list uuid_class) (i : nat),
    lines_up template pattern = true ->
    matches pattern (fill_template r i template) = true.
Proof.
  intros Hr. induction template as [|c t IH]; intros [|k ps] i; cbn [lines_up];
    try discriminate; [reflexivity|].
  intros [Hc Ht]%andb_true_iff. apply Ascii.eqb_eq in Hc. subst c.
  destruct (nibble_digit (r i) (Hr i)) as (Hx & Hhex & Hy & Hvar).
  destruct k; cbn [fill_template Ascii.eqb Bool.eqb]; cbn -[toString16 hex_char in_class];
    rewrite ?Hx, ?Hy, ?append_cons, ?append_nil_l; cbn [matches];
    rewrite ?Hhex, ?Hvar, IH by exact Ht; reflexivity.
Qed.

Lemma matches_length (pattern : list uuid_class) (s : string) :
  matches pattern s = true -> String.length s = List.length pattern.
Proof.
  revert s. induction pattern as [|k ps IH]; intros [|c s]; cbn;
    try discriminate; [reflexivity|].
  intros [_ H]%andb_true_iff. by rewrite (IH _ H).
Qed.

(** X3: whatever the random digits, a generated identifier passes
    [isValidUUID], and it is 36 characters long. *)
Theorem generateUUID_valid (r : nat -> Z) :
  (forall i, 0 <= r i <= 15) ->
  isValidUUID (generateUUID r) = true /\
  String.length (generateUUID r) = 36%nat.
Proof.
  intros Hr. unfold isValidUUID, generateUUID.
  pose proof (fill_template_matches r "xxxxxxxx-xxxx-4xxx-yxxx-xxxxxxxxxxxx" Hr
                uuid_pattern 0%nat eq_refl) as H.
  split; [exact H|].
  rewrite (matches_length _ _ H). reflexivity.
Qed.

Lemma generateUUID_valid_witness :
  isValidUUID (generateUUID (fun i : nat => Z.of_nat (i mod 16))) = true /\
  String.length (generateUUID (fun i : nat => Z.of_nat (i mod 16))) = 36%nat.
Proof.
  apply (generateUUID_valid (fun i : nat => Z.of_nat (i mod 16))). intros i.
  pose proof (Nat.mod_upper_bound i 16 ltac:(discriminate)). lia.
Defined.

End UUIDFacts.

(** ** Escaping text *)

Section SanitizeFacts.
Import JS Validation.

Lemma replace_all_app (c : ascii) (b s1 s2 : string) :
  replace_all c b (s1 +:+ s2) = replace_all c b s1 +:+ replace_all c b s2.
Proof.
  induction s1 as [|ch s1 IH]; [reflexivity|].
  rewrite append_cons. cbn [replace_all]. rewrite IH.
  destruct (Ascii.eqb ch c); [by rewrite append_assoc|by rewrite append_cons].
Qed.

Lemma includes_app (c : ascii) (s1 s2 : string) :
  includes c (s1 +:+ s2) = includes c s1 || includes c s2.
Proof.
  induction s1 as [|ch s1 IH]; [reflexivity|].
  rewrite append_cons. cbn [includes]. rewrite IH. by rewrite orb_assoc.
Qed.

Lemma sanitizeInput_app (a b : string) :
  sanitizeInput (Str (a +:+ b)) = sanitizeInput (Str a) +:+ sanitizeInput (Str b).
Proof. unfold sanitizeInput. by rewrite !replace_all_app. Qed.

Lemma sanitizeInput_char (c : ascii) :
  sanitizeInput (Str (String c "")) = escape c.
Proof.
  unfold escape.
  destruct (Ascii.eqb_spec c "<") as [->|H1]; [by vm_compute|].
  destruct (Ascii.eqb_spec c ">") as [->|H2]; [by vm_compute|].
  destruct (Ascii.eqb_spec c double_quote) as [->|H3]; [by vm_compute|].
  destruct (Ascii.eqb_spec c "'") as [->|H4]; [by vm_compute|].
  destruct (Ascii.eqb_spec c "/") as [->|H5]; [by vm_compute|].
  unfold sanitizeInput. cbn [replace_all].
  apply Ascii.eqb_neq in H1, H2, H3, H4, H5.
  rewrite H1. cbn [replace_all]. rewrite H2. cbn [replace_all].
  rewrite H3. cbn [replace_all]. rewrite H4. cbn [replace_all].
  by rewrite H5.
Qed.

Lemma sanitizeInput_escape_all (text : string) :
  sanitizeInput (Str text) = escape_all text.
Proof.
  induction text as [|c text IH]; [reflexivity|].
  change (String c text) with (String c "" +:+ text).
  rewrite sanitizeInput_app, sanitizeInput_char, IH. reflexivity.
Qed.

Lemma escape_clean (c ch : ascii) :
  c ∈ special -> includes c (escape ch) = false.
Proof.
  intros Hc. unfold escape.
  destruct (Ascii.eqb_spec ch "<") as [->|H1];
    [|destruct (Ascii.eqb_spec ch ">") as [->|H2];
      [|destruct (Ascii.eqb_spec ch double_quote) as [->|H3];
        [|destruct (Ascii.eqb_spec ch "'") as [->|H4];
          [|destruct (Ascii.eqb_spec ch "/") as [->|H5]]]]].
  1-5: unfold special in Hc; repeat (apply elem_of_cons in Hc as [->|Hc];
         [by vm_compute|]); by apply elem_of_nil in Hc.
  cbn [includes]. rewrite orb_false_r. apply Ascii.eqb_neq.
  unfold special in Hc.
  repeat (apply elem_of_cons in Hc as [->|Hc]; [done|]).
  by apply elem_of_nil in Hc.
Qed.

Lemma escape_plain (ch : ascii) :
  (forall c, c ∈ special -> includes c (String ch "") = false) ->
  escape ch = String ch "".
Proof.
  intros H. unfold escape.
  assert (Hne : forall c, c ∈ special -> Ascii.eqb ch c = false).
  { intros c Hc. specialize (H c Hc). cbn [includes] in H.
    by rewrite orb_false_r in H. }
  rewrite !Hne; [reflexivity|unfold special; set_solver..].
Qed.

(** X4: the text that [sanitizeInput] returns contains none of the
    characters it rewrites ([<], [>], the two quotes and the slash). It is
    the input with each of these replaced by its entity and every other
    character, the ampersand included, left as it is, so text without them
    comes back unchanged; anything that is not a string gives the empty
    text. *)
Theorem sanitizeInput_spec (input : value) :
  (forall c, c ∈ special -> includes c (sanitizeInput input) = false) /\
  (forall text, input = Str text -> sanitizeInput input = escape_all text) /\
  (forall text, input = Str text ->
     (forall c, c ∈ special -> includes c text = false) ->
     sanitizeInput input = text) /\
  ((forall text, input <> Str text) -> sanitizeInput input = ""%string).
Proof.
  split_and!.
  - intros c Hc. destruct input as [| | | |text| |]; try reflexivity.
    rewrite sanitizeInput_escape_all.
    induction text as [|ch text IH]; [reflexivity|].
    cbn [escape_all]. by rewrite includes_app, escape_clean, IH.
  - intros text ->. apply sanitizeInput_escape_all.
  - intros text -> Hclean. rewrite sanitizeInput_escape_all.
    induction text as [|ch text IH]; [reflexivity|].
    cbn [escape_all]. rewrite escape_plain, IH; [reflexivity| |].
    + intros c Hc. specialize (Hclean c Hc). cbn [includes] in Hclean.
      by apply orb_false_iff in Hclean as [_ ?].
    + intros c Hc. specialize (Hclean c Hc). cbn [includes] in Hclean |- *.
      apply orb_false_iff in Hclean as [-> _]. reflexivity.
  - intros Hno. destruct input; try reflexivity. by destruct (Hno s).
Qed.

End SanitizeFacts.

(** ** Point sequences *)

Section PointsFacts.
Import JS Calculations Validation.

Lemma scan_duplicates_elem (points : list Point) :
  forall (seen : gmap string nat) (duplicates : list nat) (index n : nat),
    n ∈ scan_duplicates seen duplicates index points <->
    n ∈ duplicates \/
    exists j p, n = S (index + j) /\ points !! j = Some p /\
      (is_Some (seen !! point_key p) \/ repeats points j).
Proof.
  induction points as [|point rest IH]; intros seen duplicates index n.
  { cbn [scan_duplicates]. split; [by left|].
    intros [H|(j & p & _ & H & _)]; [exact H|by rewrite lookup_nil in H]. }
  cbn [scan_duplicates]. cbv zeta.
  destruct (seen !! point_key point) as [old|] eqn:Hseen; rewrite IH; clear IH.
  - rewrite elem_of_app, list_elem_of_singleton. split.
    + intros [[H| ->]|(j & p & -> & Hj & Hp)].
      * by left.
      * right. exists 0%nat, point. rewrite Nat.add_0_r.
        split_and!; [done|done|]. left. by rewrite Hseen.
      * right. exists (S j), p. split_and!; [f_equal; lia|done|].
        destruct Hp as [Hp|(p' & i & q & Hp' & Hi & Hq & Hk)]; [by left|].
        right. exists p', (S i), q. split_and!; [done|lia|done|done].
    + intros [H|(j & p & -> & Hj & Hp)]; [by left; left|].
      destruct j as [|j].
      * left; right. f_equal; lia.
      * right. exists j, p. cbn in Hj. split_and!; [f_equal; lia|done|].
        destruct Hp as [Hp|(p' & i & q & Hp' & Hi & Hq & Hk)]; [by left|].
        cbn in Hp'. assert (p' = p) as -> by congruence.
        destruct i as [|i].
        -- left. cbn in Hq. injection Hq as <-. by rewrite <- Hk, Hseen.
        -- right. exists p, i, q. cbn in Hq. split_and!; [done|lia|done|done].
  - split.
    + intros [H|(j & p & -> & Hj & Hp)]; [by left|].
      right. exists (S j), p. split_and!; [f_equal; lia|done|].
      destruct Hp as [Hp|(p' & i & q & Hp' & Hi & Hq & Hk)].
      * destruct (decide (point_key point = point_key p)) as [Hk|Hk].
        -- right. exists p, 0%nat, point. split_and!; [done|lia|done|done].
        -- left. by rewrite lookup_insert_ne in Hp.
      * right. exists p', (S i), q. split_and!; [done|lia|done|done].
    + intros [H|(j & p & -> & Hj & Hp)]; [by left|].
      destruct j as [|j].
      * cbn in Hj. injection Hj as <-.
        destruct Hp as [Hp|(p' & i & q & _ & Hi & _)]; [|lia].
        rewrite Hseen in Hp. by destruct Hp.
      * right. exists j, p. cbn in Hj. split_and!; [f_equal; lia|done|].
        destruct Hp as [Hp|(p' & i & q & Hp' & Hi & Hq & Hk)].
        -- left. destruct (decide (point_key point = point_key p)) as [Hk|Hk].
           ++ rewrite Hk, lookup_insert_eq. by eexists.
           ++ by rewrite lookup_insert_ne.
        -- cbn in Hp'. assert (p' = p) as -> by congruence.
           destruct i as [|i].
           ++ left. cbn in Hq. injection Hq as <-.
              rewrite Hk, lookup_insert_eq. by eexists.
           ++ right. exists p, i, q. cbn in Hq.
              split_and!; [done|lia|done|done].
Qed.

Lemma findDuplicatePoints_elem (points : list Point) (n : nat) :
  n ∈ findDuplicatePoints points <-> exists j, n = S j /\ repeats points j.
Proof.
  unfold findDuplicatePoints. rewrite scan_duplicates_elem. split.
  - intros [H|(j & p & -> & Hj & [Hp|Hp])].
    + by apply elem_of_nil in H.
    + rewrite lookup_empty in Hp. by destruct Hp.
    + by exists j.
  - intros (j & -> & Hj). right. destruct Hj as (p & i & q & Hp & Hj).
    exists j, p. split_and!; [done|done|]. right. by exists p, i, q.
Qed.

Lemma scan_duplicates_positions (points : list Point) :
  forall (seen : gmap string nat) (duplicates : list nat) (index : nat),
    exists found,
      scan_duplicates seen duplicates index points = duplicates ++ found /\
      Sorted lt found /\ Forall (fun n => index < n <= index + List.length points)%nat found.
Proof.
  induction points as [|point rest IH]; intros seen duplicates index.
  { exists []. cbn. rewrite app_nil_r. split_and!; constructor. }
  cbn [scan_duplicates]. cbv zeta.
  destruct (seen !! point_key point) as [old|].
  - destruct (IH seen (duplicates ++ [S index]) (S index))
      as (found & -> & Hsorted & Hrange).
    exists (S index :: found). rewrite <- app_assoc. split_and!; [done| |].
    + constructor; [done|]. destruct Hrange; constructor. lia.
    + constructor; [cbn; lia|].
      eapply Forall_impl; [exact Hrange|]. cbn. lia.
  - destruct (IH (<[point_key point := index]> seen) duplicates (S index))
      as (found & -> & Hsorted & Hrange).
    exists found. split_and!; [done|done|].
    eapply Forall_impl; [exact Hrange|]. cbn. lia.
Qed.

Lemma no_repeats_NoDup (points : list Point) :
  (forall j, ~ repeats points j) <-> NoDup (point_key <$> points).
Proof.
  rewrite NoDup_alt. split.
  - intros Hno i j k Hi Hj.
    rewrite list_lookup_fmap in Hi, Hj.
    destruct (points !! i) as [q|] eqn:Hq; [|done].
    destruct (points !! j) as [p|] eqn:Hp; [|done].
    cbn in Hi, Hj.
    destruct (Nat.lt_trichotomy i j) as [Hlt|[Heq|Hlt]]; [|done|].
    + destruct (Hno j). exists p, i, q. split_and!; [done|done|done|congruence].
    + destruct (Hno i). exists q, j, p. split_and!; [done|done|done|congruence].
  - intros Hinj j (p & i & q & Hp & Hi & Hq & Hk).
    assert (i = j); [|lia].
    apply (Hinj i j (point_key p)); rewrite list_lookup_fmap.
    + by rewrite Hq, <- Hk.
    + by rewrite Hp.
Qed.

Lemma findDuplicatePoints_nil (points : list Point) :
  findDuplicatePoints points = [] <-> NoDup (point_key <$> points).
Proof.
  rewrite <- no_repeats_NoDup. split.
  - intros Hnil j Hj.
    assert (S j ∈ findDuplicatePoints points)
      by (apply findDuplicatePoints_elem; by exists j).
    rewrite Hnil in H. by apply elem_of_nil in H.
  - intros Hno. destruct (findDuplicatePoints points) as [|n l] eqn:E; [done|].
    assert (n ∈ findDuplicatePoints points) as Hn by (rewrite E; left).
    apply findDuplicatePoints_elem in Hn as (j & -> & Hj). by destruct (Hno j).
Qed.

(** X5: [findDuplicatePoints] reports exactly the one-based positions of the
    points whose coordinate text [x,y] already occurred at an earlier
    position; the first occurrence is never reported. The positions come in
    increasing order, each once, and none exceeds the length. *)
Theorem findDuplicatePoints_spec (points : list Point) :
  (forall n, n ∈ findDuplicatePoints points <->
     exists j, n = S j /\ repeats points j) /\
  Sorted lt (findDuplicatePoints points) /\
  Forall (fun n => 1 < n <= List.length points)%nat (findDuplicatePoints points) /\
  (findDuplicatePoints points = [] <-> NoDup (point_key <$> points)).
Proof.
  split_and!.
  - apply findDuplicatePoints_elem.
  - destruct (scan_duplicates_positions points ∅ [] 0)
      as (found & E & Hsorted & _).
    unfold findDuplicatePoints. by rewrite E.
  - apply Forall_forall. intros n Hn.
    destruct (scan_duplicates_positions points ∅ [] 0)
      as (found & E & _ & Hrange).
    pose proof Hn as Hrep.
    apply findDuplicatePoints_elem in Hrep as (j & -> & p & i & q & _ & Hi & _).
    unfold findDuplicatePoints in Hn. rewrite E in Hn. cbn in Hn.
    rewrite Forall_forall in Hrange. specialize (Hrange _ Hn).
    lia.
  - apply findDuplicatePoints_nil.
Qed.

End PointsFacts.

Section PointValidationFacts.
Import JS Calculations Validation.

Lemma validatePoints_valid (points : list Point) (side : string) :
  valid (validatePoints points side) = true <->
  (2 <= List.length points)%nat /\ NoDup (point_key <$> points).
Proof.
  unfold validatePoints. cbv zeta.
  destruct (Nat.ltb_spec (List.length points) 2) as [Hshort|Hlong].
  { cbn. split; [done|]. intros [? _]. lia. }
  rewrite <- findDuplicatePoints_nil.
  destruct (findDuplicatePoints points) as [|n l]; cbn.
  - split; [done|reflexivity].
  - split; [done|]. by intros [_ ?].
Qed.

Lemma validatePoints_error (points : list Point) (side : string) :
  valid (validatePoints points side) = false <->
  is_Some (error (validatePoints points side)).
Proof.
  unfold validatePoints. cbv zeta.
  destruct (_ <? 2)%nat; [cbn; split; [by eexists|done]|].
  destruct (0 <? _)%nat; cbn; (split; [try done; by eexists|]);
    first [done|by intros [? ?]].
Qed.

(** X6: [validatePoints] accepts a sequence of points exactly when it has at
    least two points and no two of them have the same coordinate text; it
    gives an error message exactly when it rejects. A sequence with fewer
    than two points is rejected whatever its points are. *)
Theorem validatePoints_spec (points : list Point) (side : string) :
  (valid (validatePoints points side) = true <->
     (2 <= List.length points)%nat /\ NoDup (point_key <$> points)) /\
  (valid (validatePoints points side) = false <->
     is_Some (error (validatePoints points side))) /\
  ((List.length points < 2)%nat ->
     error (validatePoints points side) =
       Some ("At least 2 " +:+ side +:+
             " points are required for distance calculation")).
Proof.
  split_and!.
  - apply validatePoints_valid.
  - apply validatePoints_error.
  - intros Hshort. unfold validatePoints.
    apply Nat.ltb_lt in Hshort. by rewrite Hshort.
Qed.

(** X7: [validateMeasurement] accepts a measurement exactly when both sides
    pass [validatePoints] (two or more points, no repeated coordinates) and
    none of the two distances and the area is [NaN] or negative. It reports
    at most five errors, and none exactly when it accepts. *)
Theorem validateMeasurement_spec (m : Measurement.t) :
  let r := validateMeasurement m in
  (Checked.valid r = true <->
     ((2 <= List.length (Measurement.leftPoints m))%nat /\
      NoDup (point_key <$> Measurement.leftPoints m)) /\
     ((2 <= List.length (Measurement.rightPoints m))%nat /\
      NoDup (point_key <$> Measurement.rightPoints m)) /\
     acceptable (leftDistance (Measurement.calculations m)) /\
     acceptable (rightDistance (Measurement.calculations m)) /\
     acceptable (area (Measurement.calculations m))) /\
  (Checked.valid r = true <-> Checked.errors r = []) /\
  (List.length (Checked.errors r) <= 5)%nat.
Proof.
  cbv zeta.
  rewrite <- (validatePoints_valid (Measurement.leftPoints m) "left"),
    <- (validatePoints_valid (Measurement.rightPoints m) "right").
  assert (Hacc : forall v, acceptable v <-> isNaN v || (v <? 0)%float = false)
    by (intros v; unfold acceptable; by rewrite orb_false_iff).
  rewrite !Hacc. clear Hacc.
  unfold validateMeasurement. cbv zeta.
  destruct (valid (validatePoints (Measurement.leftPoints m) "left"));
  destruct (valid (validatePoints (Measurement.rightPoints m) "right"));
  destruct (isNaN (leftDistance _) || _);
  destruct (isNaN (rightDistance _) || _);
  destruct (isNaN (area _) || _);
  cbn; (split_and!; [intuition congruence|intuition congruence|lia]).
Qed.

End PointValidationFacts.

(** ** The manager under any sequence of calls *)

Section ManagerInvariantFacts.
Import UndoRedo.
Context {Snapshot : Type} (deepCopy : Snapshot -> Snapshot).

Abbreviation manager := (UndoRedo.manager Snapshot).
Abbreviation entry := (UndoRedo.entry Snapshot).

Implicit Types (m : manager) (h : list entry).

Lemma length_tail_pred {A} (l : list A) :
  List.length (tail l) = pred (List.length l).
Proof. by destruct l. Qed.

Lemma slice0_take h (stop : Z) :
  0 <= stop -> slice0 h stop = take (Z.to_nat stop) h.
Proof.
  intros Hstop. unfold slice0. cbv zeta.
  destruct (Z.ltb_spec stop 0); [lia|].
  destruct (Z.le_ge_cases stop (Z.of_nat (List.length h))).
  - by rewrite Z.min_l.
  - rewrite Z.min_r, Nat2Z.id by done.
    rewrite !take_ge; [done|lia|lia].
Qed.

(** The history that [push] leaves on an enabled manager whose cursor is
    within its history. *)
Lemma push_history m (st : Snapshot) (act : string) (now : Z) :
  isEnabled m = true -> -1 <= currentIndex m < len m ->
  let item := {| state := deepCopy st; action := act; timestamp := now |} in
  let kept := take (Z.to_nat (currentIndex m + 1)) (history m) ++ [item] in
  push deepCopy m st act now =
    if maxHistory m <? currentIndex m + 2
    then {| history := tail kept; currentIndex := currentIndex m;
            maxHistory := maxHistory m; isEnabled := true |}
    else {| history := kept; currentIndex := currentIndex m + 1;
            maxHistory := maxHistory m; isEnabled := true |}.
Proof.
  intros Hen Hwf. cbv zeta. unfold push. rewrite Hen. cbn [negb].
  unfold len in *. cbv zeta.
  assert (Hkept :
    (if currentIndex m <? Z.of_nat (List.length (history m)) - 1
     then slice0 (history m) (currentIndex m + 1) else history m)
    = take (Z.to_nat (currentIndex m + 1)) (history m)).
  { destruct (Z.ltb_spec (currentIndex m) (Z.of_nat (List.length (history m)) - 1)).
    - apply slice0_take. lia.
    - rewrite take_ge; [done|lia]. }
  rewrite Hkept, length_app, length_take. cbn [List.length].
  replace (Z.of_nat (Z.to_nat (currentIndex m + 1) `min` List.length (history m) + 1))
    with (currentIndex m + 2) by lia.
  reflexivity.
Qed.

Lemma push_well_formed m (st : Snapshot) (act : string) (now : Z) :
  well_formed m ->
  well_formed (push deepCopy m st act now) /\
  maxHistory (push deepCopy m st act now) = maxHistory m.
Proof.
  intros [Hbound Hcursor].
  destruct (isEnabled m) eqn:Hen.
  2: { unfold push. rewrite Hen. cbn. by split. }
  rewrite push_history by (done || lia). cbv zeta.
  unfold well_formed, len in *.
  destruct (Z.ltb_spec (maxHistory m) (currentIndex m + 2));
    cbn [history currentIndex maxHistory];
    rewrite ?length_tail_pred, length_app, length_take; cbn [List.length]; lia.
Qed.

Lemma undo_well_formed m :
  well_formed m ->
  well_formed (undo m).1 /\ maxHistory (undo m).1 = maxHistory m.
Proof.
  intros Hwf. unfold undo, canUndo, move_to.
  destruct (Z.ltb_spec 0 (currentIndex m)); cbn [negb]; [|done].
  cbv zeta. cbn [history currentIndex].
  assert (well_formed
            {| history := history m; currentIndex := currentIndex m - 1;
               maxHistory := maxHistory m; isEnabled := isEnabled m |})
    by (unfold well_formed, len in *; cbn; lia).
  by destruct (at_index _ _).
Qed.

Lemma redo_well_formed m :
  well_formed m ->
  well_formed (redo m).1 /\ maxHistory (redo m).1 = maxHistory m.
Proof.
  intros Hwf. unfold redo, canRedo, move_to.
  destruct (Z.ltb_spec (currentIndex m) (len m - 1)); cbn [negb]; [|done].
  cbv zeta. cbn [history currentIndex].
  assert (well_formed
            {| history := history m; currentIndex := currentIndex m + 1;
               maxHistory := maxHistory m; isEnabled := isEnabled m |})
    by (unfold well_formed, len in *; cbn; lia).
  by destruct (at_index _ _).
Qed.

Lemma perform_well_formed m (c : request) :
  well_formed m ->
  well_formed (perform deepCopy m c) /\
  maxHistory (perform deepCopy m c) = maxHistory m.
Proof.
  intros Hwf. destruct c as [st act now| | | |enabled]; cbn [perform].
  - by apply push_well_formed.
  - by apply undo_well_formed.
  - by apply redo_well_formed.
  - split; [|done]. unfold well_formed, clear, len. cbn. lia.
  - done.
Qed.

Lemma run_well_formed (bound : Z) (cs : list request) :
  well_formed (run deepCopy (create bound) cs) /\
  maxHistory (run deepCopy (create bound) cs) = bound.
Proof.
  induction cs as [|c cs IH] using rev_ind.
  - split; [|done]. unfold well_formed, len. cbn. lia.
  - unfold run in *. rewrite foldl_app. cbn [foldl].
    destruct IH as [IH1 IH2].
    destruct (perform_well_formed _ c IH1) as [H1 H2].
    split; [done|congruence].
Qed.

Lemma well_formed_current m :
  well_formed m ->
  getCurrentState m = state <$> at_index (history m) (currentIndex m) /\
  (is_Some (getCurrentState m) <-> history m <> []).
Proof.
  intros [_ Hcursor]. unfold getCurrentState, at_index, len in *.
  destruct Hcursor as [[Hlen Hi]|Hi].
  - assert (Hnil : history m = []) by (apply nil_length_inv; lia).
    rewrite Hi, Hnil. cbn. split; [done|]. split; [by intros [? ?]|done].
  - destruct (Z.leb_spec 0 (currentIndex m)); [|lia].
    destruct (Z.ltb_spec (currentIndex m) (Z.of_nat (List.length (history m)))); [|lia].
    destruct (Z.ltb_spec (currentIndex m) 0); [lia|].
    cbn [andb]. split; [done|].
    destruct (lookup_lt_is_Some_2 (history m) (Z.to_nat (currentIndex m))
                ltac:(lia)) as [e He].
    rewrite He. cbn. split; [|by eexists].
    intros _ Hnil. rewrite Hnil in Hi. cbn in Hi. lia.
Qed.

(** X8: whatever calls of [push], [undo], [redo], [clear] and [setEnabled]
    are made on a new manager, in any order, its history never holds more
    entries than the bound it was created with, and its cursor is on an
    entry of the history, or at [-1] when the history is empty. So [undo]
    and [redo] never fail on a missing entry, and [getCurrentState] returns
    the state under the cursor, which is there exactly when the history is
    not empty. *)
Theorem run_invariant (bound : Z) (cs : list request) :
  let m := run deepCopy (create bound) cs in
  well_formed m /\
  maxHistory m = bound /\
  (undo m).2 <> Thrown /\ (redo m).2 <> Thrown /\
  getCurrentState m = state <$> at_index (history m) (currentIndex m) /\
  (is_Some (getCurrentState m) <-> history m <> []).
Proof.
  cbv zeta. destruct (run_well_formed bound cs) as [Hwf Hbound].
  split_and!; [done|done|..].
  - apply undo_redo_no_throw. destruct Hwf as [_ Hc]. lia.
  - apply undo_redo_no_throw. destruct Hwf as [_ Hc]. lia.
  - by apply well_formed_current.
  - by apply well_formed_current.
Qed.

Lemma manager_eta m :
  {| history := history m; currentIndex := currentIndex m;
     maxHistory := maxHistory m; isEnabled := isEnabled m |} = m.
Proof. by destruct m. Qed.

(** X9: on a manager whose cursor is on an entry, [redo] takes back an
    [undo] and [undo] takes back a [redo]: the manager is as it was, and
    the second call returns the entry that was current. *)
Theorem undo_redo_inverse m :
  well_formed m ->
  (canUndo m = true ->
     exists e, at_index (history m) (currentIndex m) = Some e /\
               redo (undo m).1 = (m, Returned e)) /\
  (canRedo m = true ->
     exists e, at_index (history m) (currentIndex m) = Some e /\
               undo (redo m).1 = (m, Returned e)).
Proof.
  intros [_ Hcursor]. unfold canUndo, canRedo, len in *. split; intros Hcan.
  - apply Z.ltb_lt in Hcan.
    assert (Hi : 0 <= currentIndex m < Z.of_nat (List.length (history m))) by lia.
    destruct (lookup_lt_is_Some_2 (history m) (Z.to_nat (currentIndex m))
                ltac:(lia)) as [e He].
    exists e. unfold at_index at 1.
    destruct (Z.ltb_spec (currentIndex m) 0); [lia|]. split; [done|].
    unfold undo, canUndo. destruct (Z.ltb_spec 0 (currentIndex m)); [|lia].
    cbn [negb].
    assert (Hm : (move_to m (currentIndex m - 1)).1
                 = {| history := history m; currentIndex := currentIndex m - 1;
                      maxHistory := maxHistory m; isEnabled := isEnabled m |})
      by (unfold move_to; cbv zeta; by destruct (at_index _ _)).
    rewrite Hm. unfold redo, canRedo, len. cbn [history currentIndex].
    destruct (Z.ltb_spec (currentIndex m - 1)
                (Z.of_nat (List.length (history m)) - 1)); [|lia].
    cbn [negb]. unfold move_to. cbv zeta.
    cbn [history currentIndex maxHistory isEnabled].
    replace (currentIndex m - 1 + 1) with (currentIndex m) by lia.
    unfold at_index. destruct (Z.ltb_spec (currentIndex m) 0); [lia|].
    rewrite He, entry_eta, manager_eta. reflexivity.
  - apply Z.ltb_lt in Hcan.
    assert (Hi : 0 <= currentIndex m < Z.of_nat (List.length (history m))) by lia.
    destruct (lookup_lt_is_Some_2 (history m) (Z.to_nat (currentIndex m))
                ltac:(lia)) as [e He].
    exists e. unfold at_index at 1.
    destruct (Z.ltb_spec (currentIndex m) 0); [lia|]. split; [done|].
    unfold redo, canRedo, len.
    destruct (Z.ltb_spec (currentIndex m)
                (Z.of_nat (List.length (history m)) - 1)); [|lia].
    cbn [negb].
    assert (Hm : (move_to m (currentIndex m + 1)).1
                 = {| history := history m; currentIndex := currentIndex m + 1;
                      maxHistory := maxHistory m; isEnabled := isEnabled m |})
      by (unfold move_to; cbv zeta; by destruct (at_index _ _)).
    rewrite Hm. unfold undo, canUndo. cbn [history currentIndex].
    destruct (Z.ltb_spec 0 (currentIndex m + 1)); [|lia].
    cbn [negb]. unfold move_to. cbv zeta.
    cbn [history currentIndex maxHistory isEnabled].
    replace (currentIndex m + 1 - 1) with (currentIndex m) by lia.
    unfold at_index. destruct (Z.ltb_spec (currentIndex m) 0); [lia|].
    rewrite He, entry_eta, manager_eta. reflexivity.
Qed.

(** X10: [peekUndo] shows the state that [undo] would return and
    [peekRedo] the state that [redo] would return, null and the failure on
    a missing entry included. *)
Theorem peek_shows m :
  peekUndo m = shown (undo m).2 /\ peekRedo m = shown (redo m).2.
Proof.
  unfold peekUndo, peekRedo, undo, redo, peek_at, move_to. cbv zeta.
  cbn [history currentIndex].
  split.
  - destruct (canUndo m); cbn [negb]; [|done]. by destruct (at_index _ _).
  - destruct (canRedo m); cbn [negb]; [|done]. by destruct (at_index _ _).
Qed.

(** X11: a push onto an enabled manager with a bound of at least one and
    its cursor in place leaves the cursor on the new entry, which holds the
    deep copy of the pushed state, with nothing to redo. The entries up to
    the old cursor are kept and those above it are dropped; when that makes
    more entries than the bound, the oldest one goes. *)
Theorem push_current m (st : Snapshot) (act : string) (now : Z) :
  well_formed m -> isEnabled m = true -> 1 <= maxHistory m ->
  let m' := push deepCopy m st act now in
  let item := {| state := deepCopy st; action := act; timestamp := now |} in
  let kept := take (Z.to_nat (currentIndex m + 1)) (history m) ++ [item] in
  history m' = (if maxHistory m <? currentIndex m + 2 then tail kept else kept) /\
  at_index (history m') (currentIndex m') = Some item /\
  getCurrentState m' = Some (deepCopy st) /\
  canRedo m' = false /\
  well_formed m'.
Proof.
  intros Hwf Hen Hbound. cbv zeta.
  destruct (push_well_formed m st act now Hwf) as [Hwf' _].
  pose proof Hwf as [Hlen Hcursor]. unfold len in *.
  assert (Hlast : forall l : list entry, forall e : entry,
            (l ++ [e]) !! List.length l = Some e)
    by (intros l e; by rewrite lookup_app_r, Nat.sub_diag by lia).
  assert (Hpush := push_history m st act now Hen).
  cbv zeta in Hpush. specialize (Hpush ltac:(unfold len; lia)).
  rewrite Hpush in Hwf'. rewrite Hpush. clear Hpush.
  assert (Htake : List.length (take (Z.to_nat (currentIndex m + 1)) (history m))
                  = Z.to_nat (currentIndex m + 1))
    by (rewrite length_take; lia).
  set (below := take (Z.to_nat (currentIndex m + 1)) (history m)) in *.
  set (item := {| state := deepCopy st; action := act; timestamp := now |}).
  assert (Hat : at_index
                  (if maxHistory m <? currentIndex m + 2
                   then tail (below ++ [item]) else below ++ [item])
                  (if maxHistory m <? currentIndex m + 2
                   then currentIndex m else currentIndex m + 1)
                = Some item).
  { unfold at_index.
    destruct (Z.ltb_spec (maxHistory m) (currentIndex m + 2)).
    - destruct (Z.ltb_spec (currentIndex m) 0); [lia|].
      destruct below as [|e0 l]; [cbn in Htake; lia|].
      cbn [app tail]. cbn [List.length] in Htake.
      replace (Z.to_nat (currentIndex m)) with (List.length l) by lia.
      apply Hlast.
    - destruct (Z.ltb_spec (currentIndex m + 1) 0); [lia|].
      rewrite <- Htake. apply Hlast. }
  split_and!.
  - by destruct (maxHistory m <? currentIndex m + 2).
  - by destruct (maxHistory m <? currentIndex m + 2).
  - unfold getCurrentState, len.
    destruct (maxHistory m <? currentIndex m + 2) eqn:E;
      cbn [history currentIndex]; rewrite Hat; cbn [fmap option_fmap option_map state].
    + apply Z.ltb_lt in E.
      destruct (Z.leb_spec 0 (currentIndex m)); [|lia].
      rewrite length_tail_pred, length_app, Htake. cbn [List.length andb].
      destruct (Z.ltb_spec (currentIndex m)
                  (Z.of_nat (pred (Z.to_nat (currentIndex m + 1) + 1)))); [done|lia].
    + apply Z.ltb_ge in E.
      destruct (Z.leb_spec 0 (currentIndex m + 1)); [|lia].
      rewrite length_app, Htake. cbn [List.length andb].
      destruct (Z.ltb_spec (currentIndex m + 1)
                  (Z.of_nat (Z.to_nat (currentIndex m + 1) + 1))); [done|lia].
  - unfold canRedo, len.
    destruct (Z.ltb_spec (maxHistory m) (currentIndex m + 2));
      cbn [history currentIndex];
      rewrite ?length_tail_pred, length_app, Htake; cbn [List.length];
      apply Z.ltb_ge; lia.
  - exact Hwf'.
Qed.

(** X12: [deserialize] of what [serialize] returned restores the history
    and the cursor of a manager whose cursor is within its history, and its
    bound unless that is zero, which becomes 50; the enabled flag of the
    receiving manager stays. Whatever the data, the cursor that
    [deserialize] leaves is below the number of entries, and missing data
    changes nothing. *)
Theorem deserialize_serialize m (receiver : manager) :
  deserialize receiver (Some (serialize m))
  = {| history := history m;
       currentIndex := Z.min (currentIndex m) (len m - 1);
       maxHistory := if maxHistory m =? 0 then 50 else maxHistory m;
       isEnabled := isEnabled receiver |} /\
  (currentIndex m < len m -> maxHistory m <> 0 ->
     deserialize receiver (Some (serialize m))
     = setEnabled m (isEnabled receiver)) /\
  (forall data,
     currentIndex (deserialize receiver (Some data))
     < len (deserialize receiver (Some data))) /\
  deserialize receiver None = receiver.
Proof.
  split_and!.
  - unfold deserialize, serialize, len. cbn. f_equal.
    destruct (Z.leb_spec (Z.of_nat (List.length (history m))) (currentIndex m)); lia.
  - intros Hi Hb. unfold deserialize, serialize, setEnabled, len in *. cbn.
    destruct (Z.leb_spec (Z.of_nat (List.length (history m))) (currentIndex m)); [lia|].
    destruct (Z.eqb_spec (maxHistory m) 0); [done|]. reflexivity.
  - intros data. unfold deserialize, len. cbn.
    destruct (Z.leb_spec
                (Z.of_nat (List.length (default [] (Data.history data))))
                (default (-1) (Data.currentIndex data))); lia.
  - reflexivity.
Qed.

End ManagerInvariantFacts.

(** Three integer snapshots with the cursor on the middle one. *)
Lemma undo_redo_inverse_witness :
  let m := placed [ {| UndoRedo.state := 10; UndoRedo.action := "CALCULATE";
                       UndoRedo.timestamp := 1 |};
                    {| UndoRedo.state := 20; UndoRedo.action := "EDIT";
                       UndoRedo.timestamp := 2 |};
                    {| UndoRedo.state := 30; UndoRedo.action := "CALCULATE";
                       UndoRedo.timestamp := 3 |} ] 1 50 in
  (UndoRedo.canUndo m = true ->
     exists e, UndoRedo.at_index (UndoRedo.history m) (UndoRedo.currentIndex m)
               = Some e /\
               UndoRedo.redo (UndoRedo.undo m).1 = (m, UndoRedo.Returned e)) /\
  (UndoRedo.canRedo m = true ->
     exists e, UndoRedo.at_index (UndoRedo.history m) (UndoRedo.currentIndex m)
               = Some e /\
               UndoRedo.undo (UndoRedo.redo m).1 = (m, UndoRedo.Returned e)).
Proof.
  intros m. apply (undo_redo_inverse m).
  unfold well_formed, UndoRedo.len. cbn. lia.
Defined.

(** A full history of three integer snapshots, cursor on the newest, and a
    fourth push. *)
Lemma push_current_witness :
  let m := placed [ {| UndoRedo.state := 10; UndoRedo.action := "CALCULATE";
                       UndoRedo.timestamp := 1 |};
                    {| UndoRedo.state := 20; UndoRedo.action := "EDIT";
                       UndoRedo.timestamp := 2 |};
                    {| UndoRedo.state := 30; UndoRedo.action := "CALCULATE";
                       UndoRedo.timestamp := 3 |} ] 2 3 in
  let m' := UndoRedo.push id m 40 "EDIT" 4 in
  let item := {| UndoRedo.state := 40; UndoRedo.action := "EDIT";
                 UndoRedo.timestamp := 4 |} in
  let kept := take (Z.to_nat (UndoRedo.currentIndex m + 1)) (UndoRedo.history m)
              ++ [item] in
  UndoRedo.history m'
  = (if UndoRedo.maxHistory m <? UndoRedo.currentIndex m + 2
     then tail kept else kept) /\
  UndoRedo.at_index (UndoRedo.history m') (UndoRedo.currentIndex m') = Some item /\
  UndoRedo.getCurrentState m' = Some 40 /\
  UndoRedo.canRedo m' = false /\
  well_formed m'.
Proof.
  intros m. apply (push_current id m 40 "EDIT" 4).
  - unfold well_formed, UndoRedo.len. cbn. lia.
  - reflexivity.
  - cbn. lia.
Defined.

(** ** Measurements under change *)

Section MeasurementChangeFacts.
Import JS Measurement.

Lemma valid_side_cases (side : string) :
  valid_side side = true -> side = "left"%string \/ side = "right"%string.
Proof.
  unfold valid_side. intros [H|H]%orb_true_iff; apply String.eqb_eq in H; auto.
Qed.

Lemma with_points_side (m : t) (side : string) (points : list Point)
    (now : string) :
  valid_side side = true ->
  let m' := with_points m side points now in
  pointsArray m' side = points /\
  in_sync m' /\
  id m' = id m /\ timestamp m' = timestamp m /\ name m' = name m /\
  notes m' = notes m /\ updatedAt m' = now.
Proof.
  intros [-> | ->]%valid_side_cases; cbv zeta; unfold in_sync;
    split_and!; reflexivity.
Qed.

Lemma read_pointsArray (store : InPlace.arrays) (m : InPlace.object)
    (side : string) :
  pointsArray (InPlace.read store m) side
  = InPlace.points_at store (InPlace.pointsArray m side).
Proof.
  unfold pointsArray, InPlace.pointsArray. cbn.
  by destruct (String.eqb side "left").
Qed.

Lemma points_at_spliced (store : InPlace.arrays) (address : nat)
    (points : list Point) (a : nat) :
  InPlace.points_at (<[address := points]> store) a
  = if decide (a = address) then points else InPlace.points_at store a.
Proof.
  unfold InPlace.points_at. destruct (decide (a = address)) as [->|Hne].
  - by rewrite lookup_insert_eq.
  - by rewrite lookup_insert_ne.
Qed.

(** X13: [removePoint] turns a call down exactly when the side is not
    'left' or 'right' or the index is not a position of that side, and then
    leaves the measurement and the arrays as they were. Otherwise the
    points of that side are the ones it had without the one at that
    position, one fewer than before; the id, the creation time, the name
    and the notes stay, [updatedAt] is stamped, the two sides remain the
    arrays they were, no other array changes, and the calculations are
    those of the points the measurement then has. When the two sides are
    two arrays the other side keeps its points, and the measurement is the
    one that the removal on two lists gives; when they are one array, both
    sides have lost the point. *)
Theorem removePoint_spec (store : InPlace.arrays) (m : InPlace.object)
    (side : string) (index : Z) (now : string) :
  let before := InPlace.read store m in
  let r := InPlace.removePoint store m side index now in
  let after := InPlace.read r.1.1 r.1.2 in
  (r.2 = false <->
     valid_side side = false \/ index < 0 \/
     Z.of_nat (List.length (pointsArray before side)) <= index) /\
  (r.2 = false -> r.1 = (store, m)) /\
  (r.2 = true ->
     pointsArray after side = delete (Z.to_nat index) (pointsArray before side) /\
     S (List.length (pointsArray after side))
     = List.length (pointsArray before side) /\
     in_sync after /\
     id after = id before /\ timestamp after = timestamp before /\
     name after = name before /\ notes after = notes before /\
     updatedAt after = now /\
     InPlace.leftPoints r.1.2 = InPlace.leftPoints m /\
     InPlace.rightPoints r.1.2 = InPlace.rightPoints m /\
     (forall a, a <> InPlace.pointsArray m side -> r.1.1 !! a = store !! a) /\
     (InPlace.leftPoints m <> InPlace.rightPoints m ->
        after = (removePoint before side index now).1) /\
     (InPlace.leftPoints m = InPlace.rightPoints m ->
        leftPoints after = rightPoints after /\
        leftPoints after = delete (Z.to_nat index) (leftPoints before))).
Proof.
  cbv zeta. unfold InPlace.removePoint, removePoint.
  rewrite !read_pointsArray.
  destruct (valid_side side) eqn:Hside; cbn [negb].
  2: { split_and!; [split; auto|done|discriminate]. }
  set (points := InPlace.points_at store (InPlace.pointsArray m side)).
  destruct (Z.ltb_spec index 0) as [Hneg|Hpos]; cbn [orb].
  { split_and!; [split; auto|done|discriminate]. }
  destruct (Z.leb_spec (Z.of_nat (List.length points)) index) as [Hout|Hin].
  { split_and!; [split; auto|done|discriminate]. }
  cbn [fst snd].
  split_and!.
  - split; [discriminate|]. intros [H|[H|H]]; [discriminate|lia|lia].
  - discriminate.
  - intros _.
    assert (Hp : forall a,
      InPlace.points_at
        (<[InPlace.pointsArray m side := delete (Z.to_nat index) points]> store) a
      = if decide (a = InPlace.pointsArray m side)
        then delete (Z.to_nat index) points else InPlace.points_at store a)
      by (intros a; apply points_at_spliced).
    repeat match goal with
    | |- context [InPlace.pointsArray (InPlace.Build_object ?a ?b ?c ?d ?e ?f ?g ?h) side] =>
        change (InPlace.pointsArray (InPlace.Build_object a b c d e f g h) side)
          with (InPlace.pointsArray m side)
    end.
    split_and!; try reflexivity.
    + rewrite Hp. by rewrite decide_True.
    + rewrite Hp, decide_True by done. rewrite length_delete.
      * lia.
      * apply lookup_lt_is_Some_2. lia.
    + intros a Ha. by rewrite lookup_insert_ne.
    + intros Hne. apply valid_side_cases in Hside as [-> | ->];
        unfold InPlace.read, with_points, InPlace.calculate, pointsArray,
          InPlace.pointsArray in *; cbn in *; rewrite !Hp; cbn.
      * rewrite decide_True by done. rewrite decide_False by done.
        reflexivity.
      * rewrite decide_False by done. rewrite decide_True by done.
        reflexivity.
    + intros Heq. apply valid_side_cases in Hside as [-> | ->];
        unfold InPlace.read, InPlace.pointsArray in *; cbn in *;
        rewrite !Hp; subst points; cbn; rewrite <- !Heq;
        rewrite !decide_True by done; done.
Qed.

(** One array given for both sides: taking the first left point takes the
    first right point as well. *)
Lemma removePoint_one_array :
  let points := [{| x := 0; y := 0 |}; {| x := 100; y := 0 |};
                 {| x := 100; y := 50 |}] in
  let store : InPlace.arrays := {[ 0%nat := points ]} in
  let m := InPlace.create store "m-1" "2025-12-24T00:00:00.000Z" 0 0 "plot" in
  let r := InPlace.removePoint store m "left" 0 "2025-12-25T00:00:00.000Z" in
  r.2 = true /\
  rightPoints (InPlace.read store m) = points /\
  rightPoints (InPlace.read r.1.1 r.1.2)
  = [{| x := 100; y := 0 |}; {| x := 100; y := 50 |}].
Proof. cbv zeta. split_and!; reflexivity. Qed.

Lemma delete_appended {A} (l : list A) (a : A) :
  delete (List.length l) (l ++ [a]) = l.
Proof. induction l as [|b l IH]; [done|]. cbn. f_equal. apply IH. Qed.

(** X14: taking out the point that [addPoint] has just appended gives back
    the points of both sides, and the calculations of those points. *)
Theorem addPoint_removePoint (m m1 : t) (side : string) (point : value)
    (now later : string) :
  addPoint m side point now = (m1, true) ->
  let r := removePoint m1 side (Z.of_nat (List.length (pointsArray m side))) later in
  r.2 = true /\
  leftPoints r.1 = leftPoints m /\ rightPoints r.1 = rightPoints m /\
  calculations r.1 = calculateMeasurements (leftPoints m) (rightPoints m) /\
  id r.1 = id m /\ name r.1 = name m /\ notes r.1 = notes m.
Proof.
  unfold addPoint.
  destruct (valid_side side) eqn:Hside; cbn [negb]; [|discriminate].
  destruct (checked_point point) as [p|]; [|discriminate].
  intros [= <-]. cbv zeta. unfold removePoint. rewrite Hside. cbn [negb].
  destruct (with_points_side m side (pointsArray m side ++ [p]) now Hside)
    as (Hp & _). rewrite Hp, length_app. cbn [List.length].
  destruct (Z.ltb_spec (Z.of_nat (List.length (pointsArray m side))) 0); [lia|].
  destruct (Z.leb_spec
              (Z.of_nat (List.length (pointsArray m side) + 1))
              (Z.of_nat (List.length (pointsArray m side)))); [lia|].
  cbn [orb fst snd]. rewrite Nat2Z.id.
  rewrite delete_appended.
  apply valid_side_cases in Hside as [-> | ->]; by cbn.
Qed.

Lemma with_points_keeps (m : t) (side : string) (points : list Point)
    (now : string) :
  valid_side side = true ->
  in_sync (with_points m side points now) /\
  id (with_points m side points now) = id m /\
  timestamp (with_points m side points now) = timestamp m.
Proof.
  intros Hside.
  destruct (with_points_side m side points now Hside)
    as (_ & H1 & H2 & H3 & _).
  done.
Qed.

Lemma apply_change_keeps (m : t) (c : change) :
  in_sync m ->
  in_sync (apply_change m c) /\
  id (apply_change m c) = id m /\ timestamp (apply_change m c) = timestamp m.
Proof.
  intros Hm. destruct c as [side point now|side index now
                            |side index newPoint now|side now|updates now];
    cbn [apply_change].
  - unfold addPoint.
    destruct (valid_side side) eqn:Hside; cbn [negb]; [|done].
    destruct (checked_point point) as [p|]; [|done].
    cbn [fst]. by apply with_points_keeps.
  - unfold removePoint.
    destruct (valid_side side) eqn:Hside; cbn [negb]; [|done].
    destruct (_ || _); [done|]. cbn [fst]. by apply with_points_keeps.
  - unfold updatePoint.
    destruct (valid_side side) eqn:Hside; cbn [negb]; [|done].
    destruct (_ || _); [done|].
    destruct (checked_point newPoint) as [p|]; [|done].
    cbn [fst]. by apply with_points_keeps.
  - done.
  - unfold update, in_sync. cbn.
    destruct (Updates.leftPoints updates), (Updates.rightPoints updates);
      try done.
Qed.

(** X15: a measurement made by the constructor and then changed by any
    calls of [addPoint], [removePoint], [updatePoint], [clearPoints] and
    [update] always carries the calculations of its present points, and
    keeps its id and creation time. So a measurement on which [isValid]
    fails has a width, a length and areas of zero. *)
Theorem changes_keep_in_sync (uuid now : string) (left right : list Point)
    (label : string) (cs : list change) :
  let m := foldl apply_change (create uuid now left right label) cs in
  in_sync m /\ id m = uuid /\ timestamp m = now /\
  (isValid m = false ->
     avgWidth (calculations m) = 0%float /\ length (calculations m) = 0%float /\
     area (calculations m) = 0%float /\ areaDecimal (calculations m) = 0%float).
Proof.
  cbv zeta.
  assert (H : in_sync (foldl apply_change (create uuid now left right label) cs) /\
              id (foldl apply_change (create uuid now left right label) cs) = uuid /\
              timestamp (foldl apply_change (create uuid now left right label) cs) = now).
  { induction cs as [|c cs IH] using rev_ind; [done|].
    rewrite foldl_app. cbn [foldl]. destruct IH as (IH1 & IH2 & IH3).
    destruct (apply_change_keeps _ c IH1) as (H1 & H2 & H3).
    split_and!; [done|congruence|congruence]. }
  destruct H as (Hsync & Hid & Htime). split_and!; [done|done|done|].
  intros Hshort. rewrite Hsync. unfold isValid in Hshort.
  apply andb_false_iff in Hshort.
  assert (Hs : (List.length (leftPoints (foldl apply_change
                  (create uuid now left right label) cs)) < 2)%nat \/
               (List.length (rightPoints (foldl apply_change
                  (create uuid now left right label) cs)) < 2)%nat).
  { destruct Hshort as [H|H]; apply Nat.leb_gt in H; auto. }
  destruct Hs as [H|H];
    [rewrite (short_left _ _ H) | rewrite (short_right _ _ H)]; done.
Qed.

End MeasurementChangeFacts.

(** A point appended to the left side of the sample and taken out again. *)
Lemma addPoint_removePoint_witness :
  let m1 := (Measurement.addPoint sample "left" (point_value 5 7) "t1").1 in
  let r := Measurement.removePoint m1 "left"
             (Z.of_nat (List.length (Measurement.pointsArray sample "left"))) "t2" in
  r.2 = true /\
  Measurement.leftPoints r.1 = Measurement.leftPoints sample /\
  Measurement.rightPoints r.1 = Measurement.rightPoints sample /\
  Measurement.calculations r.1
  = Calculations.calculateMeasurements (Measurement.leftPoints sample)
      (Measurement.rightPoints sample) /\
  Measurement.id r.1 = Measurement.id sample /\
  Measurement.name r.1 = Measurement.name sample /\
  Measurement.notes r.1 = Measurement.notes sample.
Proof.
  intros m1.
  apply (addPoint_removePoint sample m1 "left" (point_value 5 7) "t1" "t2").
  reflexivity.
Defined.

(** ** Project names *)

Section ProjectNameFacts.
Import JS Validation.

Lemma find_duplicate_strings (trimmedName : string) (names : list string) :
  exists found,
    find_duplicate trimmedName (Str <$> names) = Normal found /\
    (found = true <-> toLowerCase trimmedName ∈ toLowerCase <$> names).
Proof.
  induction names as [|n names (found & IH & Hfound)].
  - exists false. split; [done|]. split; [done|]. by intros ?%elem_of_nil.
  - cbn [fmap list_fmap find_duplicate].
    destruct (String.eqb_spec (toLowerCase n) (toLowerCase trimmedName)) as [E|E].
    + exists true. split; [done|]. split; [|done]. intros _. rewrite E. left.
    + exists found. split; [exact IH|]. rewrite Hfound. split.
      * intros H. by right.
      * intros [H|H]%elem_of_cons; [congruence|done].
Qed.

(** X16: [validateProjectName] accepts a name that is a string exactly when
    its trimmed text has 3 to 50 characters, 50 included, and differs from
    the name of every existing project when both are put in lower case; the
    existing names are compared untrimmed. A rejection carries a message. A
    name that is missing or empty is reported as required, and a truthy
    name that is not a string makes the call raise. *)
Theorem validateProjectName_spec (name : value) (names : list string) :
  (forall s, name = Str s ->
     exists r,
       validateProjectName name (Str <$> names) = Normal r /\
       (valid r = true <->
          (3 <= String.length (trim s) <= 50)%nat /\
          toLowerCase (trim s) ∉ toLowerCase <$> names) /\
       (valid r = false <-> is_Some (error r))) /\
  (truthy name = false ->
     validateProjectName name (Str <$> names)
     = Normal (invalid "Project name is required")) /\
  (truthy name = true -> (forall s, name <> Str s) ->
     validateProjectName name (Str <$> names) = Throw TypeError).
Proof.
  split_and!.
  - intros s ->. unfold validateProjectName. cbn [truthy].
    assert (Hbad : forall message,
      exists r, Normal (invalid message) = Normal r /\
        (valid r = true <-> False) /\ (valid r = false <-> is_Some (error r))).
    { intros message. exists (invalid message). split; [done|].
      split; [done|]. cbn. split; [by eexists|done]. }
    assert (Hempty : String.length "" = 0%nat) by reflexivity.
    destruct (String.eqb_spec s "") as [->|Hs]; cbn [negb].
    { destruct (Hbad "Project name is required"%string) as (r & Hr & Hv & He).
      exists r. split_and!; [done| |done]. rewrite Hv. split; [done|].
      intros [H _]. change (trim "") with ""%string in H. cbn in H. lia. }
    destruct (String.eqb_spec (trim s) "") as [E|E].
    { destruct (Hbad "Project name is required"%string) as (r & Hr & Hv & He).
      exists r. split_and!; [done| |done]. rewrite Hv. split; [done|].
      intros [H _]. rewrite E in H. cbn in H. lia. }
    destruct (Nat.ltb_spec (String.length (trim s)) 3).
    { destruct (Hbad "Project name must be at least 3 characters"%string)
        as (r & Hr & Hv & He).
      exists r. split_and!; [done| |done]. rewrite Hv. split; [done|].
      intros [H' _]. lia. }
    destruct (Nat.ltb_spec 50 (String.length (trim s))).
    { destruct (Hbad "Project name must be less than 50 characters"%string)
        as (r & Hr & Hv & He).
      exists r. split_and!; [done| |done]. rewrite Hv. split; [done|].
      intros [H' _]. lia. }
    destruct (find_duplicate_strings (trim s) names) as (found & -> & Hfound).
    cbn [bind]. destruct found.
    + destruct (Hbad "A project with this name already exists"%string)
        as (r & Hr & Hv & He).
      exists r. split_and!; [done| |done]. rewrite Hv. split; [done|].
      intros [_ H']. apply H'. by apply Hfound.
    + exists ok. split_and!; [done| |].
      * cbn. split; [|done]. intros _. split; [lia|].
        intros H'. apply Hfound in H'. discriminate.
      * cbn. split; [done|]. by intros [? ?].
  - intros Hfalsy. unfold validateProjectName. by rewrite Hfalsy.
  - intros Htruthy Hno. unfold validateProjectName. rewrite Htruthy. cbn [negb].
    destruct name; try done. by destruct (Hno s).
Qed.

End ProjectNameFacts.

(** ** Projects and their measurements *)

Section ProjectFacts.
Import JS Project.

Lemma mapM_measurement_toJSON (items ms : list value) :
  mapM measurement_toJSON items = Normal ms -> ms = items.
Proof.
  revert ms. induction items as [|m items IH]; intros ms; cbn [mapM].
  { by intros [= <-]. }
  unfold measurement_toJSON at 1.
  destruct (get m "toJSON") as [f|]; [|discriminate].
  destruct (truthy f); [discriminate|]. cbn [bind].
  destruct (mapM measurement_toJSON items) as [ms'|]; [|discriminate].
  cbn [bind]. intros [= <-]. by rewrite (IH ms').
Qed.

Lemma toJSON_read_back (p : t) (j : value) :
  toJSON p = Normal j -> fromJSON j = Normal (read_back p).
Proof.
  unfold toJSON.
  destruct (measurements p) as [| | | | |items|] eqn:Hm; try discriminate.
  destruct (mapM measurement_toJSON items) as [ms|] eqn:Hms; [|discriminate].
  cbn [bind]. intros [= <-].
  apply mapM_measurement_toJSON in Hms as ->.
  unfold read_back. rewrite Hm. cbn. by destruct (description p).
Qed.

Lemma fromJSON_read_back (data : value) (p : t) :
  fromJSON data = Normal p -> read_back p = p.
Proof.
  unfold fromJSON.
  destruct (get data "name"), (get data "description"), (get data "id"),
    (get data "createdAt"), (get data "updatedAt"), (get data "metadata")
    as [md|], (get data "measurements") as [ms|]; try discriminate.
  intros [= <-]. unfold read_back. cbn. f_equal.
  - by destruct v0.
  - unfold or_else. destruct (truthy md) eqn:E; [by rewrite E|done].
Qed.

(** X17: what [toJSON] writes of a project, [fromJSON] reads back as the
    same project, up to the defaults that [fromJSON] fills in (an
    [undefined] description becomes empty, falsy metadata the default
    ones). A project that was itself read by [fromJSON] comes back exactly
    as it was. *)
Theorem toJSON_fromJSON (p : t) (j : value) :
  toJSON p = Normal j ->
  fromJSON j = Normal (read_back p) /\
  (forall data, fromJSON data = Normal p -> fromJSON j = Normal p).
Proof.
  intros Hj. split; [by apply toJSON_read_back|].
  intros data Hdata. rewrite (toJSON_read_back p j Hj).
  by rewrite (fromJSON_read_back data p Hdata).
Qed.

Lemma find_measurement_absent (mid : value) (items : list value) (m : value) :
  find_measurement mid items = Normal None ->
  find_measurement mid (items ++ [m])
  = match get m "id" with
    | None => Throw TypeError
    | Some i => if strict_eq i mid
                then Normal (Some (List.length items)) else Normal None
    end.
Proof.
  induction items as [|m0 items IH]; cbn [find_measurement app List.length].
  { intros _. destruct (get m "id") as [i|]; [|done].
    by destruct (strict_eq i mid). }
  destruct (get m0 "id") as [i0|]; [|discriminate].
  destruct (strict_eq i0 mid); [discriminate|].
  destruct (find_measurement mid items) as [[k|]|]; try discriminate.
  intros _. rewrite IH by done.
  destruct (get m "id") as [i|]; [|done]. by destruct (strict_eq i mid).
Qed.

(** X18: a measurement with a non-empty string id that the project does
    not hold yet is appended by [addMeasurement]; [getMeasurement] then
    returns it for that id, and [removeMeasurement] of that id takes it out
    again, leaving the measurements that were there before. *)
Theorem addMeasurement_round_trip (p : t) (items : list value) (m : value)
    (mid now later : string) :
  measurements p = Arr items ->
  get m "id" = Some (Str mid) -> mid <> ""%string ->
  getMeasurement p (Str mid) = Normal Null ->
  let p' := set_measurements p (items ++ [m]) now in
  addMeasurement p m now = Normal (p', true) /\
  getMeasurement p' (Str mid) = Normal m /\
  removeMeasurement p' (Str mid) later
  = Normal (set_measurements p items later, true).
Proof.
  intros Hitems Hid Hmid Hnone. cbv zeta.
  assert (Hobj : truthy m = true).
  { destruct m; try discriminate; reflexivity. }
  assert (Hfind : find_measurement (Str mid) items = Normal None).
  { unfold getMeasurement in Hnone. rewrite Hitems in Hnone.
    destruct (find_measurement (Str mid) items) as [[k|]|] eqn:E;
      [|done|discriminate].
    exfalso. cbn [bind] in Hnone.
    assert (Hk : exists m0, items !! k = Some m0 /\ get m0 "id" = Some (Str mid)).
    { clear Hnone Hitems. revert k E.
      induction items as [|m0 items IH]; intros k; cbn [find_measurement];
        [discriminate|].
      destruct (get m0 "id") as [i0|] eqn:E0; [|discriminate].
      destruct (strict_eq i0 (Str mid)) eqn:Es.
      - intros [= <-]. exists m0. split; [done|].
        destruct i0; try discriminate. cbn in Es.
        apply String.eqb_eq in Es. by subst.
      - destruct (find_measurement (Str mid) items) as [[k'|]|];
          try discriminate.
        cbn. intros [= <-]. by apply IH. }
    destruct Hk as (m0 & Hm0 & Hid0). rewrite Hm0 in Hnone. cbn in Hnone.
    destruct m0; try discriminate. }
  assert (Hself : strict_eq (Str mid) (Str mid) = true)
    by (cbn; apply String.eqb_refl).
  split_and!.
  - unfold addMeasurement. rewrite Hobj, Hid, Hitems. cbn [negb truthy].
    destruct (String.eqb_spec mid ""); [done|]. reflexivity.
  - unfold getMeasurement. cbn [measurements set_measurements].
    rewrite (find_measurement_absent _ _ m Hfind), Hid, Hself. cbn [bind].
    rewrite lookup_app_r, Nat.sub_diag by lia. cbn.
    unfold or_else. by rewrite Hobj.
  - unfold removeMeasurement. cbn [measurements set_measurements].
    rewrite (find_measurement_absent _ _ m Hfind), Hid, Hself. cbn [bind].
    rewrite delete_appended. reflexivity.
Qed.

End ProjectFacts.

(** Project b-2, written and read back. *)
Lemma toJSON_fromJSON_witness :
  Project.fromJSON (project_json "b-2" "Beta") = JS.Normal (read_back project_beta) /\
  (forall data, Project.fromJSON data = JS.Normal project_beta ->
     Project.fromJSON (project_json "b-2" "Beta") = JS.Normal project_beta).
Proof.
  apply (toJSON_fromJSON project_beta (project_json "b-2" "Beta")).
  reflexivity.
Defined.

(** Measurement m-1 added to the empty project b-2. *)
Lemma addMeasurement_round_trip_witness :
  let p' := Project.set_measurements project_beta ([] ++ [measurement_json "m-1"])
              "2025-12-26T00:00:00.000Z" in
  Project.addMeasurement project_beta (measurement_json "m-1")
    "2025-12-26T00:00:00.000Z" = JS.Normal (p', true) /\
  Project.getMeasurement p' (JS.Str "m-1") = JS.Normal (measurement_json "m-1") /\
  Project.removeMeasurement p' (JS.Str "m-1") "2025-12-27T00:00:00.000Z"
  = JS.Normal (Project.set_measurements project_beta []
              "2025-12-27T00:00:00.000Z", true).
Proof.
  apply (addMeasurement_round_trip project_beta [] (measurement_json "m-1")
           "m-1" "2025-12-26T00:00:00.000Z" "2025-12-27T00:00:00.000Z");
    [reflexivity|reflexivity|discriminate|reflexivity].
Defined.

(** ** The projects of the store *)

Section ProjectStoreFacts.
Import JS StateManager.

Lemma findIndex_split (projectId : value) (ps : list Project.t) (i : nat) :
  findIndex projectId ps = Some i ->
  exists before p after,
    ps = before ++ p :: after /\ List.length before = i /\
    has_id projectId p = true /\
    Forall (fun q => has_id projectId q = false) before /\
    List.find (has_id projectId) ps = Some p /\
    delete i ps = before ++ after.
Proof.
  revert i. induction ps as [|p0 ps IH]; intros i; cbn [findIndex];
    [discriminate|].
  destruct (has_id projectId p0) eqn:Hp0.
  - intros [= <-]. exists [], p0, ps. cbn. rewrite Hp0. by split_and!.
  - destruct (findIndex projectId ps) as [k|]; [|discriminate].
    cbn. intros [= <-].
    destruct (IH k eq_refl) as (before & p & after & -> & Hlen & Hp & Hb & Hf & Hd).
    exists (p0 :: before), p, after. cbn. rewrite Hp0, Hlen.
    split_and!; try done.
    + by constructor.
    + f_equal. exact Hd.
Qed.

Lemma findIndex_None (projectId : value) (ps : list Project.t) :
  findIndex projectId ps = None <-> List.find (has_id projectId) ps = None.
Proof.
  induction ps as [|p0 ps IH]; cbn; [done|].
  destruct (has_id projectId p0); [done|].
  rewrite <- IH. by destruct (findIndex projectId ps).
Qed.

Lemma find_app_absent (f : Project.t -> bool) (ps : list Project.t)
    (p : Project.t) :
  List.find f ps = None ->
  List.find f (ps ++ [p]) = if f p then Some p else None.
Proof.
  induction ps as [|p0 ps IH]; cbn; [done|].
  destruct (f p0); [discriminate|]. exact IH.
Qed.

Lemma find_app_present (f : Project.t -> bool) (ps qs : list Project.t)
    (q : Project.t) :
  List.find f ps = Some q -> List.find f (ps ++ qs) = Some q.
Proof.
  induction ps as [|p0 ps IH]; cbn; [discriminate|].
  destruct (f p0); [done|]. exact IH.
Qed.

Lemma removeProject_false (s : t) (projectId : value) :
  (removeProject s projectId).2 = false <-> getProject s projectId = None.
Proof.
  unfold removeProject, getProject.
  destruct (findIndex projectId (projects s)) as [i|] eqn:Hi.
  - destruct (findIndex_split _ _ _ Hi) as (before & p & after & _ & _ & _ & _ & Hf & _).
    rewrite Hf. cbn. split; discriminate.
  - apply findIndex_None in Hi. by rewrite Hi.
Qed.

(** X19: [removeProject] returns false, and changes nothing, exactly when
    no stored project has the id. Otherwise it takes out the first project
    with that id, which is the one [getProject] returns, and keeps the
    others in their order. The settings and the panel state stay; the
    current project is cleared when its id is the removed one and kept
    otherwise. *)
Theorem removeProject_spec (s : t) (projectId : value) :
  let r := removeProject s projectId in
  (r.2 = false <-> getProject s projectId = None) /\
  (r.2 = false -> r.1 = s) /\
  (r.2 = true ->
     exists before p after,
       projects s = before ++ p :: after /\
       getProject s projectId = Some p /\
       Forall (fun q => has_id projectId q = false) before /\
       projects r.1 = before ++ after) /\
  settings r.1 = settings s /\ ui r.1 = ui s /\
  (r.2 = true -> strict_eq (currentProjectId s) projectId = true ->
     currentProjectId r.1 = Null /\ currentProject r.1 = None) /\
  (strict_eq (currentProjectId s) projectId = false ->
     currentProjectId r.1 = currentProjectId s /\
     currentProject r.1 = currentProject s).
Proof.
  cbv zeta. unfold removeProject, getProject.
  destruct (findIndex projectId (projects s)) as [i|] eqn:Hi.
  - destruct (findIndex_split _ _ _ Hi)
      as (before & p & after & Hps & Hlen & Hp & Hb & Hf & Hd).
    cbn [fst snd]. split_and!.
    + rewrite Hf. split; discriminate.
    + discriminate.
    + intros _. exists before, p, after. split_and!; try done.
      destruct (strict_eq (currentProjectId s) projectId); cbn; exact Hd.
    + by destruct (strict_eq (currentProjectId s) projectId).
    + by destruct (strict_eq (currentProjectId s) projectId).
    + intros _ ->. by cbn.
    + intros ->. by cbn.
  - cbn [fst snd]. apply findIndex_None in Hi. split_and!; try done.
Qed.

Lemma valid_added (s s' : t) (project : Project.t) :
  addProject s project = Normal (s', true) ->
  s' = set_projects s (projects s ++ [project]) /\
  exists v, Project.validate project (projects s) = Normal v /\
            Validation.valid v = true.
Proof.
  unfold addProject.
  destruct (Project.validate project (projects s)) as [v|] eqn:Hv;
    [|discriminate].
  cbn [bind]. destruct (Validation.valid v) eqn:Hvalid; cbn [negb];
    intros [= <-]. split; [done|]. by exists v.
Qed.

(** X20: a project with a string id that no stored project has, once
    [addProject] has accepted it, is the last of the stored projects and is
    what [getProject] returns for its id; lookups that found a project
    before still find the same one, and [removeProject] of the id gives the
    stored projects back as they were. [addProject] does not look at ids:
    it accepts the same project a second time and stores it twice. *)
Theorem addProject_round_trip (s s' : t) (project : Project.t) (uuid : string) :
  Project.id project = Str uuid ->
  getProject s (Str uuid) = None ->
  addProject s project = Normal (s', true) ->
  projects s' = projects s ++ [project] /\
  getProject s' (Str uuid) = Some project /\
  (forall projectId q,
     getProject s projectId = Some q -> getProject s' projectId = Some q) /\
  (removeProject s' (Str uuid)).2 = true /\
  projects (removeProject s' (Str uuid)).1 = projects s /\
  exists s'', addProject s' project = Normal (s'', true) /\
              projects s'' = projects s ++ [project; project].
Proof.
  intros Hid Hnone Hadd.
  destruct (valid_added _ _ _ Hadd) as (-> & v & Hv & Hvalid).
  assert (Hself : has_id (Str uuid) project = true).
  { unfold has_id. rewrite Hid. cbn. apply String.eqb_refl. }
  assert (Hget : getProject (set_projects s (projects s ++ [project])) (Str uuid)
                 = Some project).
  { unfold getProject in *. cbn [projects set_projects].
    by rewrite (find_app_absent _ _ project Hnone), Hself. }
  split_and!.
  - reflexivity.
  - exact Hget.
  - intros projectId q Hq. unfold getProject in *. cbn [projects set_projects].
    by apply find_app_present.
  - pose proof (removeProject_false (set_projects s (projects s ++ [project]))
                  (Str uuid)) as Hfalse.
    destruct (removeProject _ _).2; [done|].
    destruct Hfalse as [Hfalse _]. rewrite Hfalse in Hget by done. discriminate.
  - unfold removeProject. cbn [projects set_projects].
    assert (Hi : findIndex (Str uuid) (projects s ++ [project])
                 = Some (List.length (projects s))).
    { apply findIndex_None in Hnone. revert Hnone.
      generalize (projects s). intros ps.
      induction ps as [|p0 ps IH]; cbn [findIndex app List.length].
      - intros _. by rewrite Hself.
      - destruct (has_id (Str uuid) p0); [discriminate|].
        destruct (findIndex (Str uuid) ps); [discriminate|].
        intros _. by rewrite IH. }
    rewrite Hi.
    destruct (strict_eq _ _); cbn [fst projects set_projects set_current];
      apply delete_appended.
  - exists (set_projects s (projects s ++ [project; project])).
    split; [|done]. unfold addProject. cbn [projects set_projects].
    assert (Hv' : Project.validate project (projects s ++ [project]) = Normal v).
    { rewrite <- Hv. unfold Project.validate. rewrite filter_app.
      rewrite (filter_cons_False _ project []).
      - by rewrite filter_nil, app_nil_r.
      - rewrite Hid. cbn. rewrite String.eqb_refl. discriminate. }
    rewrite Hv'. cbn [bind]. rewrite Hvalid. cbn [negb].
    unfold set_projects. cbn. by rewrite <- app_assoc.
Qed.

(** X21: [updateSettings] gives every key of the update the value of its
    last entry there and keeps the stored value of every other key, so no
    setting is ever removed; the same update a second time changes
    nothing, and neither does an update without keys. The projects and the
    current project are not touched. *)
Theorem updateSettings_spec (s : t) (updates : value) :
  let s' := updateSettings s updates in
  (forall k, settings s' !! k
             = match assign ∅ updates !! k with
               | Some v => Some v
               | None => settings s !! k
               end) /\
  (forall k, is_Some (settings s !! k) -> is_Some (settings s' !! k)) /\
  updateSettings s' updates = s' /\
  (own_entries updates = [] -> s' = s) /\
  projects s' = projects s /\ currentProjectId s' = currentProjectId s /\
  currentProject s' = currentProject s /\ ui s' = ui s.
Proof.
  cbv zeta. unfold updateSettings.
  assert (Hk : forall k, assign (settings s) updates !! k
                         = match assign ∅ updates !! k with
                           | Some v => Some v
                           | None => settings s !! k
                           end).
  { intros k. rewrite assign_union, lookup_union.
    destruct (assign ∅ updates !! k), (settings s !! k); reflexivity. }
  split_and!; try reflexivity.
  - exact Hk.
  - intros k [x Hx]. cbn [settings set_settings]. rewrite Hk, Hx.
    destruct (assign ∅ updates !! k); by eexists.
  - unfold set_settings. cbn. f_equal.
    rewrite (assign_union (assign _ _)), (assign_union (settings s)).
    by rewrite (assoc_L (∪)), (idemp_L (∪)).
  - intros Hnone. unfold assign. rewrite Hnone. cbn. by destruct s.
Qed.

End ProjectStoreFacts.

(** Project b-2 added to the store that holds project a-1. *)
Lemma addProject_round_trip_witness :
  let s' := StateManager.set_projects store_alpha
              (StateManager.projects store_alpha ++ [project_beta]) in
  StateManager.projects s' = StateManager.projects store_alpha ++ [project_beta] /\
  StateManager.getProject s' (JS.Str "b-2") = Some project_beta /\
  (forall projectId q,
     StateManager.getProject store_alpha projectId = Some q ->
     StateManager.getProject s' projectId = Some q) /\
  (StateManager.removeProject s' (JS.Str "b-2")).2 = true /\
  StateManager.projects (StateManager.removeProject s' (JS.Str "b-2")).1
  = StateManager.projects store_alpha /\
  exists s'', StateManager.addProject s' project_beta = JS.Normal (s'', true) /\
              StateManager.projects s''
              = StateManager.projects store_alpha ++ [project_beta; project_beta].
Proof.
  intros s'.
  apply (addProject_round_trip store_alpha s' project_beta "b-2");
    [reflexivity|reflexivity|vm_compute; reflexivity].
Defined.

(** ** Writing the store and reading it back *)

Section SerializeFacts.
Import JS StateManager.

Lemma mapM_toJSON_fromJSON (ps : list Project.t) (js : list value) :
  Forall (fun p => exists data, Project.fromJSON data = Normal p) ps ->
  mapM Project.toJSON ps = Normal js ->
  mapM Project.fromJSON js = Normal ps.
Proof.
  intros Hps. revert js. induction Hps as [|p ps [data Hp] _ IH]; intros js;
    cbn [mapM].
  { by intros [= <-]. }
  destruct (Project.toJSON p) as [j|] eqn:Hj; [|discriminate]. cbn [bind].
  destruct (mapM Project.toJSON ps) as [js'|]; [|discriminate]. cbn [bind].
  intros [= <-]. cbn [mapM].
  rewrite (toJSON_read_back p j Hj), (fromJSON_read_back data p Hp). cbn [bind].
  by rewrite (IH js').
Qed.

Lemma assign_settings_value (stored defaults : object) :
  assign defaults (settings_value stored) = stored ∪ defaults.
Proof.
  rewrite assign_union. f_equal. apply map_eq. intros k.
  destruct (stored !! k) as [x|] eqn:Hk.
  - apply elem_of_map_to_list in Hk.
    apply list_elem_of_split in Hk as (before & after & Hsplit).
    apply (assign_present _ _ _ _ before after); [exact Hsplit|].
    pose proof (NoDup_fst_map_to_list stored) as Hnd.
    rewrite Hsplit, fmap_app, fmap_cons in Hnd.
    apply NoDup_app in Hnd as (_ & _ & Hnd).
    by apply NoDup_cons in Hnd as [? _].
  - rewrite assign_absent; [done|].
    intros ((k' & x) & -> & Hin)%list_elem_of_fmap.
    apply elem_of_map_to_list in Hin. cbn in Hk. congruence.
Qed.

(** X22: what [serializeState] writes of a store whose projects were read
    by [fromJSON], [loadState] reads back: the same projects, and the same
    settings with the default for any key they lacked. A current project id
    that is truthy and names a stored project is made current again; when
    the written id is [null] or falsy, the reading store keeps the current
    project it had. The panel state is not written and stays. *)
Theorem loadState_serializeState (s receiver : t) (data : value) :
  Forall (fun p => exists d, Project.fromJSON d = Normal p) (projects s) ->
  serializeState s = Normal data ->
  let s' := loadState receiver data in
  projects s' = projects s /\
  settings s' = settings s ∪ getDefaultSettings /\
  ((forall k, is_Some (getDefaultSettings !! k) -> is_Some (settings s !! k)) ->
     settings s' = settings s) /\
  (truthy (currentProjectId s) = true ->
     is_Some (getProject s (currentProjectId s)) ->
     currentProjectId s' = currentProjectId s /\
     currentProject s' = getProject s (currentProjectId s)) /\
  (truthy (currentProjectId s) = false ->
     currentProjectId s' = currentProjectId receiver /\
     currentProject s' = currentProject receiver) /\
  ui s' = ui receiver.
Proof.
  intros Hps. unfold serializeState.
  destruct (mapM Project.toJSON (projects s)) as [js|] eqn:Hjs; [|discriminate].
  cbn [bind]. intros [= <-]. cbv zeta.
  pose proof (mapM_toJSON_fromJSON _ _ Hps Hjs) as Hback.
  unfold loadState. cbn [get assoc String.eqb Ascii.eqb Bool.eqb default].
  cbn -[getDefaultSettings assign settings_value mapM].
  rewrite Hback.
  change (or_else (settings_value (settings s)) (Obj []))
    with (settings_value (settings s)).
  rewrite (assign_settings_value (settings s) getDefaultSettings).
  assert (Hsub : (forall k, is_Some (getDefaultSettings !! k) ->
                            is_Some (settings s !! k)) ->
                 settings s ∪ getDefaultSettings = settings s).
  { intros Hall. apply map_eq. intros k. rewrite lookup_union.
    destruct (settings s !! k) as [x|] eqn:Hx;
      destruct (getDefaultSettings !! k) as [y|] eqn:Hy; try reflexivity.
    destruct (Hall k) as [z Hz]; [by eexists|]. congruence. }
  destruct (truthy (currentProjectId s)) eqn:Htruthy.
  - unfold setCurrentProject. rewrite Htruthy. cbn [negb].
    change (getProject (set_settings (set_projects receiver (projects s))
                          (settings s ∪ getDefaultSettings))
              (currentProjectId s))
      with (getProject s (currentProjectId s)).
    destruct (getProject s (currentProjectId s)) as [p|] eqn:Hp;
      cbn [fst]; split_and!; try done; by intros _ [? [=]].
  - cbn [projects set_projects set_settings settings currentProjectId
         currentProject ui].
    split_and!; try done.
Qed.

End SerializeFacts.

(** The store that holds project a-1 as its current project, written and
    read into a new store. *)
Lemma loadState_serializeState_witness :
  let data := match StateManager.serializeState store_alpha with
              | JS.Normal d => d
              | JS.Throw _ => JS.Undefined
              end in
  let s' := StateManager.loadState StateManager.initial data in
  StateManager.projects s' = StateManager.projects store_alpha /\
  StateManager.settings s'
  = StateManager.settings store_alpha ∪ StateManager.getDefaultSettings /\
  ((forall k, is_Some (StateManager.getDefaultSettings !! k) ->
              is_Some (StateManager.settings store_alpha !! k)) ->
     StateManager.settings s' = StateManager.settings store_alpha) /\
  (JS.truthy (StateManager.currentProjectId store_alpha) = true ->
     is_Some (StateManager.getProject store_alpha
                (StateManager.currentProjectId store_alpha)) ->
     StateManager.currentProjectId s' = StateManager.currentProjectId store_alpha /\
     StateManager.currentProject s'
     = StateManager.getProject store_alpha
         (StateManager.currentProjectId store_alpha)) /\
  (JS.truthy (StateManager.currentProjectId store_alpha) = false ->
     StateManager.currentProjectId s'
     = StateManager.currentProjectId StateManager.initial /\
     StateManager.currentProject s'
     = StateManager.currentProject StateManager.initial) /\
  StateManager.ui s' = StateManager.ui StateManager.initial.
Proof.
  intros data.
  apply (loadState_serializeState store_alpha StateManager.initial data).
  - repeat constructor. exists (project_json "a-1" "Alpha"). reflexivity.
  - vm_compute. reflexivity.
Defined.

(** ** Formatting a coordinate *)

Section FormatFacts.
Import JS Calculations Validation.

Lemma rev_cons (c : ascii) (a : string) :
  String.rev (String c a) = String.rev a +:+ String c "".
Proof. unfold String.rev at 1. cbn [String.rev_app]. apply rev_app_append. Qed.

Lemma rev_append (a b : string) :
  String.rev (a +:+ b) = String.rev b +:+ String.rev a.
Proof.
  induction a as [|c a IH].
  - by rewrite append_nil_l, append_nil_r.
  - by rewrite append_cons, !rev_cons, IH, append_assoc.
Qed.

Lemma rev_involutive (a : string) : String.rev (String.rev a) = a.
Proof.
  induction a as [|c a IH]; [reflexivity|].
  by rewrite rev_cons, rev_append, IH.
Qed.

Lemma comma_not_white : is_white "," = false.
Proof. reflexivity. Qed.

Lemma trimStart_app_nonwhite (a : string) (c : ascii) (b : string) :
  is_white c = false ->
  trimStart (a +:+ String c b) = trimStart a +:+ String c b.
Proof.
  intros Hc. induction a as [|d a IH].
  - rewrite append_nil_l. cbn [trimStart]. by rewrite Hc.
  - rewrite append_cons. cbn [trimStart]. destruct (is_white d); [exact IH|].
    by rewrite append_cons.
Qed.

Lemma trimEnd_app_nonwhite (a : string) (c : ascii) (b : string) :
  is_white c = false ->
  trimEnd (a +:+ String c b) = a +:+ String c (trimEnd b).
Proof.
  intros Hc. unfold trimEnd.
  rewrite rev_append, rev_cons, append_assoc, append_cons, append_nil_l.
  rewrite (trimStart_app_nonwhite _ _ _ Hc).
  rewrite rev_append, rev_cons, rev_involutive.
  by rewrite append_assoc, append_cons, append_nil_l.
Qed.

Lemma trim_around_comma (a b : string) :
  trim (a +:+ String "," b) = trimStart a +:+ String "," (trimEnd b).
Proof.
  unfold trim.
  by rewrite (trimStart_app_nonwhite _ _ _ comma_not_white),
    (trimEnd_app_nonwhite _ _ _ comma_not_white).
Qed.

Lemma trimStart_all_white (w s : string) :
  all_white w = true -> trimStart (w +:+ s) = trimStart s.
Proof.
  induction w as [|c w IH]; [done|].
  cbn [all_white]. intros [Hc Hw]%andb_true_iff.
  rewrite append_cons. cbn [trimStart]. rewrite Hc. by apply IH.
Qed.

Lemma trimStart_app_not_white (a b : string) :
  all_white a = false -> trimStart (a +:+ b) = trimStart a +:+ b.
Proof.
  induction a as [|c a IH]; [discriminate|].
  cbn [all_white]. rewrite append_cons. cbn [trimStart].
  destruct (is_white c); cbn [andb]; [exact IH|]. intros _. by rewrite append_cons.
Qed.

Lemma all_white_app (a b : string) :
  all_white (a +:+ b) = all_white a && all_white b.
Proof.
  induction a as [|c a IH]; [reflexivity|].
  rewrite append_cons. cbn [all_white]. by rewrite IH, andb_assoc.
Qed.

Lemma all_white_rev (a : string) : all_white (String.rev a) = all_white a.
Proof.
  induction a as [|c a IH]; [reflexivity|].
  rewrite rev_cons, all_white_app, IH. cbn [all_white].
  by rewrite andb_true_r, andb_comm.
Qed.

Lemma trimStart_white (w : string) : all_white w = true -> trimStart w = ""%string.
Proof.
  intros Hw. rewrite <- (append_nil_r w). by rewrite trimStart_all_white.
Qed.

Lemma trimEnd_all_white (w : string) : all_white w = true -> trimEnd w = ""%string.
Proof.
  intros Hw. unfold trimEnd. rewrite trimStart_white; [done|].
  by rewrite all_white_rev.
Qed.

Lemma trimEnd_cons (c : ascii) (x : string) :
  all_white (String c x) = false ->
  trimEnd (String c x) = String c (trimEnd x).
Proof.
  cbn [all_white]. intros H. unfold trimEnd. rewrite rev_cons.
  destruct (all_white x) eqn:Hx.
  - rewrite andb_true_r in H.
    rewrite (trimStart_app_nonwhite _ _ _ H).
    rewrite !trimStart_white by (by rewrite all_white_rev).
    reflexivity.
  - rewrite trimStart_app_not_white by (by rewrite all_white_rev).
    rewrite rev_append. reflexivity.
Qed.

Lemma comma_after_white_app (x y : string) :
  includes "," x = false ->
  comma_after_white (x +:+ String "," y)
  = if all_white x then Some y else None.
Proof.
  induction x as [|c x IH]; [done|].
  cbn [includes]. intros [Hc Hx]%orb_false_iff.
  rewrite append_cons. cbn [comma_after_white all_white]. rewrite Hc.
  destruct (is_white c); cbn [andb]; [by apply IH|done].
Qed.

Lemma replace_comma_first (by_ x y : string) :
  includes "," x = false ->
  replace_comma by_ (x +:+ String "," y) = trimEnd x +:+ by_ +:+ trimStart y.
Proof.
  induction x as [|c x IH].
  - intros _. rewrite append_nil_l. cbn [replace_comma comma_after_white].
    reflexivity.
  - intros Hx. pose proof Hx as Hx'. cbn [includes] in Hx'.
    apply orb_false_iff in Hx' as [Hc Hx'].
    assert (E : replace_comma by_ (String c x +:+ String "," y)
                = match comma_after_white (String c x +:+ String "," y) with
                  | Some rest => by_ +:+ trimStart rest
                  | None => String c (replace_comma by_ (x +:+ String "," y))
                  end) by reflexivity.
    rewrite E, (comma_after_white_app _ _ Hx).
    destruct (all_white (String c x)) eqn:Hw.
    + by rewrite (trimEnd_all_white _ Hw).
    + by rewrite (IH Hx'), (trimEnd_cons _ _ Hw).
Qed.

Lemma replace_comma_none (by_ s : string) :
  includes "," s = false -> replace_comma by_ s = s.
Proof.
  induction s as [|c s IH]; [done|].
  cbn [includes]. intros [Hc Hs]%orb_false_iff.
  assert (Hnone : forall t, includes "," t = false -> comma_after_white t = None).
  { clear. induction t as [|d t IHt]; [done|].
    cbn [includes comma_after_white]. intros [-> Ht]%orb_false_iff.
    destruct (is_white d); [by apply IHt|done]. }
  assert (E : replace_comma by_ (String c s)
              = match comma_after_white (String c s) with
                | Some rest => by_ +:+ trimStart rest
                | None => String c (replace_comma by_ s)
                end) by reflexivity.
  rewrite E, Hnone, IH; [done|done|]. cbn [includes]. by rewrite Hc.
Qed.

Lemma includes_trimStart (c : ascii) (s : string) :
  is_white c = false -> includes c (trimStart s) = includes c s.
Proof.
  intros Hc. induction s as [|d s IH]; [done|].
  cbn [trimStart includes]. destruct (is_white d) eqn:Hd; [|done].
  rewrite IH. destruct (Ascii.eqb_spec d c) as [->|]; [congruence|done].
Qed.

Lemma includes_rev (c : ascii) (s : string) :
  includes c (String.rev s) = includes c s.
Proof.
  induction s as [|d s IH]; [done|].
  rewrite rev_cons, includes_app, IH. cbn [includes].
  by rewrite orb_false_r, orb_comm.
Qed.

Lemma includes_trimEnd (c : ascii) (s : string) :
  is_white c = false -> includes c (trimEnd s) = includes c s.
Proof.
  intros Hc. unfold trimEnd.
  by rewrite includes_rev, (includes_trimStart _ _ Hc), includes_rev.
Qed.

Lemma split_go_first (sep : ascii) (cur x y : string) :
  includes sep x = false ->
  split_go sep cur (x +:+ String sep y)
  = (String.rev cur +:+ x) :: split_go sep "" y.
Proof.
  revert cur. induction x as [|c x IH]; intros cur.
  - intros _. rewrite append_nil_l, append_nil_r. cbn [split_go].
    by rewrite Ascii.eqb_refl.
  - cbn [includes]. intros [Hc Hx]%orb_false_iff.
    rewrite append_cons. cbn [split_go]. rewrite Hc, (IH _ Hx), rev_cons.
    by rewrite append_assoc, append_cons, append_nil_l.
Qed.

Lemma split_go_whole (sep : ascii) (cur y : string) :
  includes sep y = false -> split_go sep cur y = [String.rev cur +:+ y].
Proof.
  revert cur. induction y as [|c y IH]; intros cur.
  - intros _. cbn [split_go]. by rewrite append_nil_r.
  - cbn [includes]. intros [Hc Hy]%orb_false_iff.
    cbn [split_go]. rewrite Hc, (IH _ Hy), rev_cons.
    by rewrite append_assoc, append_cons, append_nil_l.
Qed.

Lemma first_comma (c : ascii) (v : string) :
  includes c v = true ->
  exists x y, v = x +:+ String c y /\ includes c x = false.
Proof.
  induction v as [|d v IH]; [discriminate|].
  cbn [includes]. destruct (Ascii.eqb_spec d c) as [->|Hd]; cbn [orb].
  - intros _. by exists ""%string, v.
  - intros (x & y & -> & Hx)%IH. exists (String d x), y.
    split; [done|]. cbn [includes]. rewrite Hx.
    by destruct (Ascii.eqb_spec d c).
Qed.

(** What [parseXY] reads of a text with a first comma. *)
Lemma parseXY_parts (x y : string) :
  includes "," x = false ->
  parseXY (x +:+ String "," y)
  = if includes "," y then None
    else
      let px := parseFloat (trim x) in
      let py := parseFloat (trim y) in
      if isNaN px || isNaN py then None else Some {| x := px; y := py |}.
Proof.
  intros Hx. unfold parseXY.
  assert (Hne : String.eqb (x +:+ String "," y) "" = false)
    by (by destruct x).
  rewrite Hne. unfold split. rewrite (split_go_first _ _ _ _ Hx).
  cbn [String.rev String.rev_app]. rewrite append_nil_l.
  destruct (includes "," y) eqn:Hy.
  - destruct (first_comma _ _ Hy) as (a & b & -> & Ha).
    rewrite (split_go_first _ _ _ _ Ha).
    pose proof (split_go_length "," "" b) as Hlen.
    by destruct (split_go "," "" b).
  - rewrite (split_go_whole _ _ _ Hy).
    cbn [String.rev String.rev_app]. by rewrite append_nil_l.
Qed.

Lemma trimStart_cases (s : string) :
  (all_white s = true /\ trimStart s = ""%string) \/
  exists w c r, s = w +:+ String c r /\ all_white w = true /\
                is_white c = false /\ trimStart s = String c r.
Proof.
  induction s as [|d s IH]; [by left|].
  cbn [all_white trimStart]. destruct (is_white d) eqn:Hd; cbn [andb].
  - destruct IH as [[Hw Ht]|(w & c & r & -> & Hw & Hc & Ht)]; [by left|].
    right. exists (String d w), c, r. cbn [all_white]. rewrite Hd, Hw.
    by split_and!.
  - right. by exists ""%string, d, s.
Qed.

Lemma trimStart_idem (s : string) : trimStart (trimStart s) = trimStart s.
Proof.
  destruct (trimStart_cases s) as [[_ ->]|(w & c & r & _ & _ & Hc & ->)];
    [done|].
  cbn [trimStart]. by rewrite Hc.
Qed.

Lemma trimEnd_idem (s : string) : trimEnd (trimEnd s) = trimEnd s.
Proof. unfold trimEnd. by rewrite rev_involutive, trimStart_idem. Qed.

Lemma trimStart_trimEnd (s : string) :
  trimStart (trimEnd s) = trimEnd (trimStart s).
Proof.
  destruct (trimStart_cases s) as [[Hw ->]|(w & c & r & -> & Hw & Hc & ->)].
  - by rewrite (trimEnd_all_white _ Hw).
  - rewrite (trimEnd_app_nonwhite _ _ _ Hc), (trimStart_app_nonwhite _ _ _ Hc).
    rewrite (trimStart_white _ Hw), append_nil_l.
    by rewrite <- (append_nil_l (String c r)), (trimEnd_app_nonwhite _ _ _ Hc).
Qed.

Lemma trim_trim (s : string) : trim (trim s) = trim s.
Proof.
  unfold trim. by rewrite trimStart_trimEnd, trimStart_idem, trimEnd_idem.
Qed.

Lemma trim_spaced (s : string) :
  trim (String " " (trimStart (trimEnd s))) = trim s.
Proof.
  unfold trim. cbn [trimStart]. change (is_white " ") with true. cbv iota.
  by rewrite trimStart_idem, trimStart_trimEnd, trimEnd_idem.
Qed.

Lemma autoFormatCoordinate_comma (a b : string) :
  includes "," a = false ->
  autoFormatCoordinate (a +:+ String "," b)
  = trim a +:+ String "," (String " " (trimStart (trimEnd b))).
Proof.
  intros Ha. unfold autoFormatCoordinate.
  assert (Hne : String.eqb (a +:+ String "," b) "" = false) by (by destruct a).
  rewrite Hne. cbv zeta. rewrite trim_around_comma.
  assert (Ha' : includes "," (trimStart a) = false)
    by (by rewrite (includes_trimStart _ _ comma_not_white)).
  assert (Hcomma : includes "," (trimStart a +:+ String "," (trimEnd b)) = true).
  { rewrite includes_app. cbn [includes]. rewrite Ascii.eqb_refl.
    by rewrite orb_true_r. }
  rewrite Hcomma. cbn [negb]. rewrite andb_false_r.
  rewrite (replace_comma_first _ _ _ Ha').
  fold (trim a). by rewrite append_cons, append_cons, append_nil_l.
Qed.

Lemma comma_not_blank (a b : string) :
  String.eqb (a +:+ String "," b) "" = false /\
  String.eqb (trim (a +:+ String "," b)) "" = false /\
  includes "," (a +:+ String "," b) = true.
Proof.
  split_and!.
  - by destruct a.
  - rewrite trim_around_comma. by destruct (trimStart a).
  - rewrite includes_app. cbn [includes]. rewrite Ascii.eqb_refl.
    by rewrite orb_true_r.
Qed.

(** X24: [autoFormatCoordinate] does not change what [parseXY] reads of a
    text that has a comma: the parsed point, or the failure to parse, is
    the same before and after formatting. So [validateCoordinate] gives the
    same verdict, message and point for the formatted text as for the text
    itself. *)
Theorem autoFormatCoordinate_parseXY (value : string) :
  includes "," value = true ->
  parseXY (autoFormatCoordinate value) = parseXY value /\
  validateCoordinate (autoFormatCoordinate value) = validateCoordinate value.
Proof.
  intros (a & b & -> & Ha)%first_comma.
  assert (Hparse : parseXY (autoFormatCoordinate (a +:+ String "," b))
                   = parseXY (a +:+ String "," b)).
  { rewrite (autoFormatCoordinate_comma _ _ Ha).
    rewrite !parseXY_parts;
      [|done|by unfold trim; rewrite (includes_trimEnd _ _ comma_not_white),
                  (includes_trimStart _ _ comma_not_white)].
    cbn [includes]. change (Ascii.eqb " " ",") with false. cbn [orb].
    rewrite (includes_trimStart _ _ comma_not_white),
      (includes_trimEnd _ _ comma_not_white).
    destruct (includes "," b); [done|].
    cbv zeta. by rewrite trim_trim, trim_spaced. }
  split; [exact Hparse|].
  unfold validateCoordinate. rewrite Hparse.
  destruct (comma_not_blank a b) as (-> & -> & ->).
  rewrite (autoFormatCoordinate_comma _ _ Ha).
  destruct (comma_not_blank (trim a) (String " " (trimStart (trimEnd b))))
    as (-> & -> & ->).
  reflexivity.
Qed.

Lemma no_white_trimStart (s : string) : no_white s = true -> trimStart s = s.
Proof.
  destruct s as [|c s]; [done|]. cbn [no_white trimStart].
  by intros [->%negb_true_iff _]%andb_true_iff.
Qed.

Lemma no_white_trimEnd (s : string) : no_white s = true -> trimEnd s = s.
Proof.
  induction s as [|c s IH]; [done|]. cbn [no_white].
  intros [Hc%negb_true_iff Hs]%andb_true_iff.
  rewrite <- (append_nil_l (String c s)), (trimEnd_app_nonwhite _ _ _ Hc).
  by rewrite (IH Hs).
Qed.

Lemma no_white_includes (c : ascii) (s : string) :
  is_white c = true -> no_white s = true -> includes c s = false.
Proof.
  intros Hc. induction s as [|d s IH]; [done|]. cbn [no_white includes].
  intros [Hd%negb_true_iff Hs]%andb_true_iff. rewrite (IH Hs), orb_false_r.
  destruct (Ascii.eqb_spec d c); [congruence|done].
Qed.

Lemma all_white_includes (c : ascii) (w : string) :
  is_white c = false -> all_white w = true -> includes c w = false.
Proof.
  intros Hc. induction w as [|d w IH]; [done|]. cbn [all_white includes].
  intros [Hd Hw]%andb_true_iff. rewrite (IH Hw), orb_false_r.
  destruct (Ascii.eqb_spec d c); [congruence|done].
Qed.

Lemma replace_white_first (by_ a w b : string) :
  no_white a = true -> w <> ""%string -> all_white w = true ->
  replace_white by_ (a +:+ w +:+ b) = a +:+ by_ +:+ trimStart b.
Proof.
  intros Ha Hw Hall. induction a as [|c a IH].
  - rewrite !append_nil_l. destruct w as [|d w]; [done|].
    cbn [all_white] in Hall. apply andb_true_iff in Hall as [Hd Hall].
    rewrite append_cons. cbn [replace_white]. rewrite Hd.
    by rewrite (trimStart_all_white _ _ Hall).
  - cbn [no_white] in Ha. apply andb_true_iff in Ha as [Hc%negb_true_iff Ha].
    rewrite !append_cons. cbn [replace_white]. rewrite Hc. by rewrite (IH Ha).
Qed.

(** X25: two tokens without white space or commas, separated by white space
    only, are joined by [autoFormatCoordinate] with a comma and one space
    when the separating white space has a plain space in it; when it is
    made of tabs or line breaks only, the text is returned as it is. *)
Theorem autoFormatCoordinate_tokens (a w b : string) :
  a <> ""%string -> b <> ""%string -> w <> ""%string ->
  no_white a = true -> no_white b = true -> all_white w = true ->
  includes "," a = false -> includes "," b = false ->
  autoFormatCoordinate (a +:+ w +:+ b)
  = if includes " " w then a +:+ ", " +:+ b else a +:+ w +:+ b.
Proof.
  intros Ha Hb Hw Hna Hnb Hall Hca Hcb.
  unfold autoFormatCoordinate.
  assert (Hne : String.eqb (a +:+ w +:+ b) "" = false) by (by destruct a).
  rewrite Hne. cbv zeta.
  assert (Htrim : trim (a +:+ w +:+ b) = a +:+ w +:+ b).
  { unfold trim. destruct a as [|c a]; [done|]. destruct b as [|d b]; [done|].
    pose proof Hna as Hna'. cbn [no_white] in Hna'.
    apply andb_true_iff in Hna' as [Hc%negb_true_iff _].
    pose proof Hnb as Hnb'. cbn [no_white] in Hnb'.
    apply andb_true_iff in Hnb' as [Hd%negb_true_iff Hnb'].
    rewrite append_cons. cbn [trimStart]. rewrite Hc.
    rewrite <- append_cons, <- append_assoc.
    rewrite (trimEnd_app_nonwhite _ _ _ Hd), (no_white_trimEnd _ Hnb').
    reflexivity. }
  rewrite Htrim.
  assert (Hspace : includes " " (a +:+ w +:+ b) = includes " " w).
  { rewrite !includes_app, (no_white_includes " " a), (no_white_includes " " b);
      [|done..].
    by rewrite orb_false_r. }
  assert (Hcomma : includes "," (a +:+ w +:+ b) = false).
  { rewrite !includes_app, Hca, Hcb, (all_white_includes "," w); done. }
  rewrite Hspace, Hcomma. cbn [negb]. rewrite andb_true_r.
  destruct (includes " " w).
  - rewrite (replace_white_first _ _ _ _ Hna Hw Hall).
    rewrite (no_white_trimStart _ Hnb).
    change (", " +:+ b) with (String "," (String " " b)).
    rewrite (replace_comma_first _ _ _ Hca).
    rewrite (no_white_trimEnd _ Hna). cbn [trimStart].
    change (is_white " ") with true. cbv iota.
    by rewrite (no_white_trimStart _ Hnb).
  - by apply replace_comma_none.
Qed.

End FormatFacts.

(** A comma with stray white space around it. *)
Lemma autoFormatCoordinate_parseXY_witness :
  Calculations.parseXY (Validation.autoFormatCoordinate "  100.5 ,200.75 ")
  = Calculations.parseXY "  100.5 ,200.75 " /\
  Validation.validateCoordinate (Validation.autoFormatCoordinate "  100.5 ,200.75 ")
  = Validation.validateCoordinate "  100.5 ,200.75 ".
Proof.
  apply (autoFormatCoordinate_parseXY "  100.5 ,200.75 "). reflexivity.
Defined.

(** Two numbers separated by two spaces. *)
Lemma autoFormatCoordinate_tokens_witness :
  Validation.autoFormatCoordinate ("100.5" +:+ "  " +:+ "200.75")
  = if JS.includes " " "  " then "100.5" +:+ ", " +:+ "200.75"
    else "100.5" +:+ "  " +:+ "200.75".
Proof.
  apply (autoFormatCoordinate_tokens "100.5" "  " "200.75");
    first [discriminate | reflexivity].
Defined.

(** ** Debouncing and throttling *)

Section TimingFacts.
Import Timing.
Context {Args : Type}.

Implicit Types (trace : list (event Args)) (d : debounced Args)
  (t : throttled Args) (func : wrapped Args).

(** A delay within the 32-bit range is taken as it is. *)
Lemma timeout_of_small (delay : Z) :
  0 <= delay < 2 ^ 31 -> timeout_of delay = delay.
Proof.
  intros Hdelay. unfold timeout_of, to_int32. cbv zeta.
  rewrite Z.mod_small by lia.
  destruct (Z.ltb_spec delay (2 ^ 31)); lia.
Qed.

Lemma debounce_run_cons (wait : Z) d (e : event Args) trace :
  debounce_run wait d (e :: trace)
  = debounce_step wait d e ≫= fun d' => debounce_run wait d' trace.
Proof.
  unfold debounce_run. cbn [foldl]. cbn [mbind option_bind].
  destruct (debounce_step wait d e) as [d'|]; [done|].
  cbn. induction trace as [|e' trace IH]; [done|]. exact IH.
Qed.

Lemma throttle_run_cons func (limit : Z) t (e : event Args) trace :
  throttle_run func limit t (e :: trace)
  = throttle_step func limit t e ≫= fun t' => throttle_run func limit t' trace.
Proof.
  unfold throttle_run. cbn [foldl]. cbn [mbind option_bind].
  destruct (throttle_step func limit t e) as [t'|]; [done|].
  cbn. induction trace as [|e' trace IH]; [done|]. exact IH.
Qed.

Lemma debounce_run_settle (wait : Z) trace :
  forall d d' prev,
    debounce_slot (timeout_of wait) d prev ->
    debounce_run wait d trace = Some d' ->
    exists rest, settle (timeout_of wait) prev trace = Some rest /\
                 executed d' = executed d ++ rest.
Proof.
  induction trace as [|e trace IH]; intros d d' prev Hslot.
  { intros [= <-]. exists []. by rewrite app_nil_r. }
  rewrite debounce_run_cons.
  destruct (debounce_step wait d e) as [d1|] eqn:Hstep; [|discriminate].
  cbn [mbind option_bind]. intros Hrun.
  destruct e as [now args|now id]; cbn [debounce_step] in Hstep.
  - unfold advance in Hstep.
    destruct (now <? clock (timers d)); [discriminate|].
    cbn [mbind option_bind] in Hstep. injection Hstep as <-.
    cbn [settle]. apply (IH _ _ (Some (now, args))) in Hrun.
    + destruct Hrun as (rest & Hrest & Hex). exists rest. split; [done|].
      rewrite Hex. reflexivity.
    + unfold debounce_slot, executedFunction, setTimeout, clearTimeout.
      cbn. eexists. split; [reflexivity|].
      assert (Hempty : pending
                (match timeout d with
                 | Some i => {| clock := now;
                                pending := delete i (pending (timers d));
                                fresh := fresh (timers d) |}
                 | None => {| clock := now; pending := pending (timers d);
                              fresh := fresh (timers d) |}
                 end) = ∅).
      { destruct prev as [[called args0]|]; cbn in Hslot.
        - destruct Hslot as (id & -> & Hp). cbn. rewrite Hp.
          apply delete_singleton_eq.
        - destruct (timeout d); cbn; rewrite Hslot; [apply delete_empty|done]. }
      destruct (timeout d); cbn in Hempty |- *; rewrite Hempty;
        by rewrite insert_empty.
  - unfold advance in Hstep.
    destruct (now <? clock (timers d)); [discriminate|].
    cbn [mbind option_bind] in Hstep. unfold expire in Hstep.
    cbn [pending clock fresh] in Hstep.
    destruct (pending (timers d) !! id) as [[due args]|] eqn:Hid;
      [|discriminate].
    destruct (Z.leb_spec due now) as [Hdue|]; [|discriminate].
    cbn [mbind option_bind] in Hstep. injection Hstep as <-.
    destruct prev as [[called args0]|]; cbn in Hslot.
    2: { rewrite Hslot in Hid. by rewrite lookup_empty in Hid. }
    destruct Hslot as (id0 & Htimeout & Hp). rewrite Hp in Hid.
    apply lookup_singleton_Some in Hid as [-> [= <- <-]].
    cbn [settle]. destruct (Z.leb_spec (called + timeout_of wait) now); [|lia].
    apply (IH _ _ None) in Hrun.
    + destruct Hrun as (rest & -> & Hex). exists ((now, args0) :: rest).
      split; [done|]. rewrite Hex. unfold later, clearTimeout. cbn.
      rewrite Htimeout. cbn. by rewrite <- app_assoc.
    + unfold debounce_slot, later, clearTimeout. cbn. rewrite Htimeout. cbn.
      rewrite Hp, delete_singleton_eq. apply delete_empty.
Qed.

(** X26: under [debounce] with a delay of whole milliseconds below [2^31],
    the wrapped function is executed only when the host runs the timer of
    the call made last, so a call that is followed by another call before
    its timer ran is never executed. Each execution has the arguments of
    the call right before it and comes no earlier than [wait] after that
    call, and there is at most one for each call. *)
Theorem debounce_settles (wait start : Z) trace d :
  0 <= wait < 2 ^ 31 ->
  debounce_run wait (debounce start) trace = Some d ->
  settle wait None trace = Some (executed d).
Proof.
  intros Hwait Hrun.
  destruct (debounce_run_settle wait trace (debounce start) d None)
    as (rest & Hrest & Hex); [done|done|].
  rewrite (timeout_of_small _ Hwait) in Hrest.
  by rewrite Hrest, Hex.
Qed.

Lemma Sorted_snoc {A} (R : A -> A -> Prop) (l : list A) (a : A) :
  Sorted R l -> (forall x, last l = Some x -> R x a) -> Sorted R (l ++ [a]).
Proof.
  induction 1 as [|b l Hl IH Hb]; intros Hlast.
  - repeat constructor.
  - cbn. constructor.
    + apply IH. intros x Hx. apply Hlast.
      destruct l; [discriminate|exact Hx].
    + destruct Hb as [|c l' Hc]; cbn.
      * constructor. by apply Hlast.
      * by constructor.
Qed.

Lemma throttle_step_gate func (limit : Z) t t' (e : event Args) :
  quiet func ->
  throttle_gate (timeout_of limit) t ->
  throttle_step func limit t e = Some t' ->
  throttle_gate (timeout_of limit) t' /\
  (forall x, x ∈ throttle_executed t' ->
     x ∈ throttle_executed t \/ e = Invoke x.1 x.2) /\
  (throttle_executed t = [] -> forall now args, e = Invoke now args ->
     throttle_executed t' = [(now, args)]).
Proof.
  intros Hquiet [Hsorted Hgate].
  destruct e as [now args|now id]; cbn [throttle_step].
  - unfold advance. destruct (Z.ltb_spec now (clock (throttle_timers t)));
      [discriminate|].
    cbn [mbind option_bind]. unfold throttled_call.
    cbn [inThrottle throttle_timers throttle_executed clock].
    destruct (inThrottle t) eqn:Hin; cbn [negb].
    + cbn [fst]. intros [= <-].
      cbn [throttle_executed inThrottle throttle_timers].
      split_and!.
      * split; [done|]. exact Hgate.
      * auto.
      * intros Hnil. destruct Hgate as (id & x & Hlast & _).
        rewrite Hnil in Hlast. discriminate.
    + rewrite Hquiet. cbn [fst]. intros [= <-].
      cbn [throttle_executed inThrottle throttle_timers].
      destruct Hgate as [Hempty Hpassed]. split_and!.
      * split.
        -- apply Sorted_snoc; [done|]. intros x Hx. unfold apart. cbn.
           specialize (Hpassed x Hx). lia.
        -- cbn. exists (fresh (throttle_timers t)), (now, args).
           rewrite last_snoc. split; [done|]. cbn. by rewrite Hempty, insert_empty.
      * intros [x1 x2] [Hx|Hx%list_elem_of_singleton]%elem_of_app; [by left|].
        right. by injection Hx as -> ->.
      * intros -> now' args' [= <- <-]. reflexivity.
  - unfold advance. destruct (Z.ltb_spec now (clock (throttle_timers t)));
      [discriminate|].
    cbn [mbind option_bind]. unfold expire. cbn [pending clock fresh].
    destruct (pending (throttle_timers t) !! id) as [[due []]|] eqn:Hid;
      [|discriminate].
    destruct (Z.leb_spec due now) as [Hdue|]; [|discriminate].
    cbn [mbind option_bind]. intros [= <-].
    cbn [throttle_executed inThrottle throttle_timers].
    destruct (inThrottle t).
    2: { destruct Hgate as [Hempty _]. rewrite Hempty in Hid.
         by rewrite lookup_empty in Hid. }
    destruct Hgate as (id0 & x & Hlast & Hp). rewrite Hp in Hid.
    apply lookup_singleton_Some in Hid as [-> [= <-]].
    split_and!.
    + split; [done|]. cbn. split.
      * rewrite Hp. apply delete_singleton_eq.
      * intros x' Hx'. rewrite Hlast in Hx'. injection Hx' as <-. lia.
    + auto.
    + intros Hnil. rewrite Hnil in Hlast. discriminate.
Qed.

Lemma throttle_run_gate func (limit : Z) trace :
  quiet func ->
  forall t t',
    throttle_gate (timeout_of limit) t ->
    throttle_run func limit t trace = Some t' ->
    throttle_gate (timeout_of limit) t' /\
    (forall x, x ∈ throttle_executed t' ->
       x ∈ throttle_executed t \/ Invoke x.1 x.2 ∈ trace).
Proof.
  intros Hquiet. induction trace as [|e trace IH]; intros t t' Hgate.
  { intros [= <-]. split; [done|]. auto. }
  rewrite throttle_run_cons.
  destruct (throttle_step func limit t e) as [t1|] eqn:Hstep; [|discriminate].
  cbn [mbind option_bind]. intros Hrun.
  destruct (throttle_step_gate _ _ _ _ _ Hquiet Hgate Hstep)
    as (Hgate1 & Hfrom & _).
  destruct (IH _ _ Hgate1 Hrun) as (Hgate' & Hfrom').
  split; [done|]. intros x Hx.
  destruct (Hfrom' x Hx) as [H1|H1]; [|right; by right].
  destruct (Hfrom x H1) as [H2|H2]; [by left|]. right. rewrite H2. left.
Qed.

Lemma throttle_run_prefix func (limit : Z) trace :
  quiet func ->
  forall t t',
    throttle_run func limit t trace = Some t' ->
    exists more, throttle_executed t' = throttle_executed t ++ more.
Proof.
  intros Hquiet. induction trace as [|e trace IH]; intros t t'.
  { intros [= <-]. exists []. by rewrite app_nil_r. }
  rewrite throttle_run_cons.
  destruct (throttle_step func limit t e) as [t1|] eqn:Hstep; [|discriminate].
  cbn [mbind option_bind]. intros (more & ->)%IH.
  destruct e as [now args|now id]; cbn [throttle_step] in Hstep.
  - destruct (advance (throttle_timers t) now) as [h|]; [|discriminate].
    cbn [mbind option_bind] in Hstep. unfold throttled_call in Hstep.
    cbn [inThrottle throttle_timers throttle_executed] in Hstep.
    destruct (inThrottle t); cbn [negb] in Hstep.
    + injection Hstep as <-. cbn. by exists more.
    + rewrite Hquiet in Hstep. injection Hstep as <-. cbn.
      exists ((clock h, args) :: more). by rewrite <- app_assoc.
  - destruct (advance (throttle_timers t) now) as [h|]; [|discriminate].
    cbn [mbind option_bind] in Hstep.
    destruct (expire h id) as [[h' []]|]; [|discriminate].
    cbn [mbind option_bind] in Hstep. injection Hstep as <-. cbn.
    by exists more.
Qed.


End TimingFacts.

(** An auto-save debounced by two seconds: two calls in a row, the timer of
    the second one running, and a third call. *)
Lemma debounce_settles_witness :
  let trace := [Timing.Invoke 0 "a"%string; Timing.Invoke 100 "b"%string;
                Timing.Expire 2100 1; Timing.Invoke 3000 "c"%string] in
  let d := default (Timing.debounce 0)
             (Timing.debounce_run 2000 (Timing.debounce 0) trace) in
  settle 2000 None trace = Some (Timing.executed d).
Proof.
  intros trace d. apply (debounce_settles 2000 0 trace d).
  - lia.
  - vm_compute. reflexivity.
Defined.


(** ** Loading a snapshot that cannot be read *)

Section LoadFacts.
Import JS StateManager.

Lemma mapM_fromJSON_Throw (items : list value) :
  (exists e, mapM Project.fromJSON items = Throw e) <->
  Null ∈ items \/ Undefined ∈ items.
Proof.
  induction items as [|item items IH]; cbn [mapM].
  { split; [by intros [? ?]|]. by intros [?%elem_of_nil|?%elem_of_nil]. }
  destruct (Project.fromJSON item) as [p|e] eqn:Hitem; cbn [bind].
  - assert (Hok : item <> Null /\ item <> Undefined).
    { split; intros ->; discriminate. }
    destruct (mapM Project.fromJSON items) as [ps|e]; cbn [bind].
    + split; [by intros [? ?]|].
      intros [H|H]; apply elem_of_cons in H as [H|H]; try (by destruct Hok);
        [destruct (proj2 IH (or_introl H)) | destruct (proj2 IH (or_intror H))];
        discriminate.
    + split; [|by eexists]. intros _.
      destruct (proj1 IH) as [H|H]; [by eexists|left|right]; by right.
  - split; [|by eexists]. intros _.
    destruct (proj1 (fromJSON_Throw item)) as [->| ->]; [by eexists|right|left];
      left.
Qed.

(** X28: [loadState] does nothing by halves. When the projects of the
    snapshot cannot be read (the snapshot is [null] or [undefined], its
    [projects] is truthy but not an array, or one of the projects is [null]
    or [undefined]) the store is left exactly as it was. Otherwise the
    stored projects are replaced by the ones read and the settings by the
    snapshot's settings over the defaults, whatever the settings were
    before, and the panel state stays. *)
Theorem loadState_all_or_nothing (s : t) (data : value) :
  (data = Null \/ data = Undefined \/
   (exists dp, get data "projects" = Some dp /\ truthy dp = true /\
               forall items, dp <> Arr items) \/
   (exists items, get data "projects" = Some (Arr items) /\
                  (Null ∈ items \/ Undefined ∈ items)) ->
   loadState s data = s) /\
  (forall dp items ps,
     get data "projects" = Some dp -> or_else dp (Arr []) = Arr items ->
     mapM Project.fromJSON items = Normal ps ->
     projects (loadState s data) = ps /\
     settings (loadState s data)
     = assign getDefaultSettings
         (or_else (default Undefined (get data "settings")) (Obj [])) /\
     ui (loadState s data) = ui s) /\
  (loadState s data = s \/
   exists items ps, mapM Project.fromJSON items = Normal ps /\
                    projects (loadState s data) = ps).
Proof.
  split_and!.
  - intros [->|[->|[(dp & Hdp & Htruthy & Hnot)|(items & Hdp & Hbad)]]];
      try reflexivity; unfold loadState; rewrite Hdp.
    + unfold or_else. rewrite Htruthy.
      destruct dp; try reflexivity. by destruct (Hnot items).
    + cbn [or_else truthy]. apply mapM_fromJSON_Throw in Hbad as [e ->].
      reflexivity.
  - intros dp items ps Hdp Hitems Hps. unfold loadState.
    rewrite Hdp, Hitems, Hps.
    destruct (truthy (default Undefined (get data "currentProjectId")));
      [|done].
    unfold setCurrentProject.
    destruct (truthy _); cbn [negb]; [|done].
    by destruct (getProject _ _).
  - unfold loadState. destruct (get data "projects") as [dp|]; [|by left].
    destruct (or_else dp (Arr [])) as [| | | | |items|]; try (by left).
    destruct (mapM Project.fromJSON items) as [ps|] eqn:Hps; [|by left].
    right. exists items, ps. split; [done|].
    destruct (truthy (default Undefined (get data "currentProjectId")));
      [|done].
    unfold setCurrentProject.
    destruct (truthy _); cbn [negb]; [|done].
    by destruct (getProject _ _).
Qed.

End LoadFacts.
